(** * brite-validation: the per-request authorization and validation chain

    A shallow embedding of [src/channel]: the shared [BaseChain]
    (authorization checks, denied-key scanning, rate limiting, identity
    substitution), the Create / Read / Update / Delete chains built on it,
    and the schema matcher [validateDataSchema].

    Conventions of the embedding.
    - JavaScript values are a tree type [jsval]; objects keep their
      properties in insertion order (an association list).  Numbers are
      integers; fractions and NaN in request data are not modelled.
    - A method that may [throw] returns a [result]; methods that use the
      shared cache run in the monad [M], which threads the cache and keeps
      whatever was written before a [throw].
    - Times are integers in milliseconds, as [Date.now()] gives them.  One
      synchronous call of [checkRateLimit] reads the clock at one instant
      [now]. *)

From Stdlib Require Import ZArith Lia Ascii String.
From stdpp Require Import base option list strings pretty gmap.

Local Open Scope string_scope.
Local Open Scope Z_scope.

(** ** JavaScript values *)

(** Mongoose [ObjectId]s are opaque; [toString] gives their hex string. *)
Record ObjectId := mkObjectId { hex : string }.

Inductive prim :=
| PUndefined
| PNull
| PBool (b : bool)
| PNum (n : Z)
| PStr (s : string)
| PId (o : ObjectId).

#[local] Unset Elimination Schemes.
Inductive jsval :=
| JPrim (p : prim)
| JArr (xs : list jsval)
| JObj (fs : list (string * jsval)).
#[local] Set Elimination Schemes.

Abbreviation Obj := (list (string * jsval)).

Abbreviation JUndefined := (JPrim PUndefined).
Abbreviation JNull := (JPrim PNull).
Abbreviation JBool b := (JPrim (PBool b)).
Abbreviation JNum n := (JPrim (PNum n)).
Abbreviation JStr s := (JPrim (PStr s)).

#[global] Instance ObjectId_eq_dec : EqDecision ObjectId.
Proof. solve_decision. Defined.

#[global] Instance prim_eq_dec : EqDecision prim.
Proof. solve_decision. Defined.

(** [ToBoolean]. *)
Definition truthy_prim (p : prim) : bool :=
  match p with
  | PUndefined | PNull => false
  | PBool b => b
  | PNum n => negb (n =? 0)
  | PStr s => negb (String.eqb s "")
  | PId _ => true
  end.

Definition truthy (x : jsval) : bool :=
  match x with
  | JPrim p => truthy_prim p
  | JArr _ | JObj _ => true
  end.

(** The five falsy values the scanner can meet in request data. *)
Definition falsy (x : jsval) : Prop :=
  x = JUndefined \/ x = JNull \/ x = JNum 0 \/ x = JStr "" \/ x = JBool false.

(** [obj[key]] on a plain object, read from the object's own properties:
    the property's value, [undefined] when the object has no such
    property.  JavaScript goes on to the prototype for a key the object
    does not hold itself; for a plain object that finds something only
    under the names in [objectPrototypeNames] below, so the two reads
    agree for every other key. *)
Fixpoint get_prop (o : Obj) (key : string) : jsval :=
  match o with
  | [] => JUndefined
  | (k, x) :: o' => if String.eqb k key then x else get_prop o' key
  end.


Definition has_prop (o : Obj) (key : string) : bool :=
  existsb (fun kv => String.eqb (fst kv) key) o.


(** [delete obj[key]]. *)
Definition delete_prop (o : Obj) (key : string) : Obj :=
  filter (fun kv => fst kv <> key) o.

(** [obj[key] = x] (lodash [set] with a one-segment path). *)
Fixpoint set_prop (o : Obj) (key : string) (x : jsval) : Obj :=
  match o with
  | [] => [(key, x)]
  | (k, y) :: o' =>
      if String.eqb k key then (k, x) :: o' else (k, y) :: set_prop o' key x
  end.

(** lodash [isEmpty] on an optional plain object. *)
Definition isEmpty_obj (o : option Obj) : bool :=
  match o with
  | None | Some [] => true
  | Some (_ :: _) => false
  end.

(** ** Errors *)

(** An error entry as the schema engine reports it. *)
Record ErrorObject := mkErrorObject { err_message : string }.

(** [validate.errors]: [undefined] while nothing failed. *)
Abbreviation Errors := (option (list ErrorObject)).

Record StatusError := mkStatusError {
  status : Z;
  title : string;
  message : string;
  detail : Errors
}.

Inductive exn :=
| EStatus (e : StatusError)
| EError (msg : string)
| ETypeError.

Inductive result (A : Type) :=
| Ok (a : A)
| Throw (e : exn).
Arguments Ok {A} a.
Arguments Throw {A} e.

Definition rbind {A B} (r : result A) (k : A -> result B) : result B :=
  match r with
  | Ok a => k a
  | Throw e => Throw e
  end.

Declare Scope res_scope.
Delimit Scope res_scope with res.
Notation "x <-? r ; k" := (rbind r (fun x => k))
  (at level 100, r at next level, right associativity) : res_scope.
Notation "r ;;? k" := (rbind r (fun _ => k))
  (at level 100, right associativity) : res_scope.

(** The HTTP status an exception carries, if it is a [StatusError]. *)
Definition status_of (e : exn) : option Z :=
  match e with
  | EStatus s => Some (status s)
  | _ => None
  end.

Definition throws_status {A} (r : result A) (n : Z) : Prop :=
  exists e, r = Throw e /\ status_of e = Some n.

(** A result that is not an authentication error (status 401). *)
Definition not401 {A} (r : result A) : Prop := ~ throws_status r 401.

(** ** The shared cache (node-cache)

    The chain receives a [NodeCache] instance and calls [has], [get],
    [getTtl], [set] and [del] on it.  The library is not part of the
    repository; the model follows its documented behaviour:
    - an entry is stored as [{ t: livetime, v: value }], [t] being the
      absolute expiry time in milliseconds and [t = 0] an entry that never
      expires;
    - an entry is expired once [t <> 0] and [t < Date.now()]; an expired
      entry is deleted when it is looked at ([deleteOnExpire]);
    - [set(key, value, ttl)] with [ttl = 0] stores an entry that never
      expires, with another number one that expires at [now + ttl * 1000],
      and without a usable number it falls back to the option [stdTTL];
    - [getTtl] gives [t], and [undefined] for a missing key.

    The model carries [set]'s time-to-live in milliseconds (the product
    [ttl * 1000] node-cache forms), so that the quotient by 1000 the
    chain computes stays exact.  [calls] records the calls the client
    made, oldest first. *)

Module NodeCache.

(** The chain's [Retry] objects. *)
Record Retry := mkRetry { count : Z; retry : Z }.

Inductive value :=
| VNumber (n : Z)
| VNaN
| VRetry (r : Retry).

Record wrapped := Wrap { v : value; t : Z }.

Inductive call :=
| Has (key : string)
| Get (key : string)
| GetTtl (key : string)
| Set_ (key : string) (x : value) (ttl_ms : option Z)
| Del (key : string).

Record store := Store {
  data : gmap string wrapped;
  stdTTL_ms : Z;
  calls : list call
}.

Definition with_data (c : store) (d : gmap string wrapped) : store :=
  {| data := d; stdTTL_ms := stdTTL_ms c; calls := calls c |}.

Definition logged (c : store) (k : call) : store :=
  {| data := data c; stdTTL_ms := stdTTL_ms c; calls := calls c ++ [k] |}.

Definition expired (now : Z) (d : wrapped) : bool :=
  negb (t d =? 0) && (t d <? now).

(** [_check]: the live entry under [key], dropping an expired one. *)
Definition _check (now : Z) (key : string) (c : store)
  : option wrapped * store :=
  match data c !! key with
  | Some d =>
      if expired now d then (None, with_data c (delete key (data c)))
      else (Some d, c)
  | None => (None, c)
  end.

Definition has (now : Z) (key : string) (c : store) : bool * store :=
  let '(o, c') := _check now key (logged c (Has key)) in
  (bool_decide (is_Some o), c').

Definition get (now : Z) (key : string) (c : store)
  : option value * store :=
  let '(o, c') := _check now key (logged c (Get key)) in
  (v <$> o, c').

Definition getTtl (now : Z) (key : string) (c : store)
  : option Z * store :=
  let '(o, c') := _check now key (logged c (GetTtl key)) in
  (t <$> o, c').

Definition _wrap (now : Z) (std : Z) (x : value) (ttl_ms : option Z)
  : wrapped :=
  match ttl_ms with
  | Some 0 => Wrap x 0
  | Some ms => Wrap x (now + ms)
  | None => if std =? 0 then Wrap x 0 else Wrap x (now + std)
  end.

Definition set (now : Z) (key : string) (x : value) (ttl_ms : option Z)
  (c : store) : store :=
  let c' := logged c (Set_ key x ttl_ms) in
  with_data c' (<[key := _wrap now (stdTTL_ms c) x ttl_ms]> (data c')).

Definition del (key : string) (c : store) : store :=
  let c' := logged c (Del key) in
  with_data c' (delete key (data c')).

(** A cache nobody has used yet, with node-cache's default [stdTTL]. *)
Definition empty : store :=
  {| data := ∅; stdTTL_ms := 0; calls := [] |}.

(** An entry the cache still answers for at time [now]. *)
Definition live (now : Z) (m : gmap string wrapped) (key : string)
  (d : wrapped) : Prop :=
  m !! key = Some d /\ expired now d = false.

(** No entry, or one that ran out. *)
Definition gone (now : Z) (m : gmap string wrapped) (key : string) : Prop :=
  match m !! key with
  | Some d => expired now d = true
  | None => True
  end.

End NodeCache.

Arguments NodeCache._wrap : simpl never.

(** ** State and exceptions

    A method that mutates an object and may [throw] is a function from the
    state before to a [result] and the state after: what was written
    before a [throw] stays written. *)

Definition ST (S A : Type) : Type := S -> result A * S.

Definition ret {S A} (a : A) : ST S A := fun s => (Ok a, s).
Definition throw {S A} (e : exn) : ST S A := fun s => (Throw e, s).
Definition bind {S A B} (m : ST S A) (k : A -> ST S B) : ST S B :=
  fun s =>
    match m s with
    | (Ok a, s') => k a s'
    | (Throw e, s') => (Throw e, s')
    end.
Definition lift {S A} (r : result A) : ST S A := fun s => (r, s).
Definition this {S} : ST S S := fun s => (Ok s, s).
Definition put {S} (s : S) : ST S unit := fun _ => (Ok tt, s).

(** An operation that returns a value. *)
Definition ask {S A} (f : S -> A * S) : ST S A :=
  fun s => let '(a, s') := f s in (Ok a, s').
(** An operation run for its effect. *)
Definition tell {S} (f : S -> S) : ST S unit := fun s => (Ok tt, f s).

(** A method that never ends in an authentication error. *)
Definition quiet {S A} (m : ST S A) : Prop := forall s, not401 (fst (m s)).

(** Chain methods that use the shared cache. *)
Abbreviation M := (ST NodeCache.store).

Declare Scope chain_scope.
Delimit Scope chain_scope with chain.
Notation "x <- m ; k" := (bind m (fun x => k))
  (at level 100, m at next level, right associativity) : chain_scope.
Notation "m ;; k" := (bind m (fun _ => k))
  (at level 100, right associativity) : chain_scope.

(** ** The data model of a request *)

(** Modelled from the spec: the enumeration [UserType] of
    [@libs/constants/user.const] is not in the sources.  The spec names
    one distinguished visitor type; the other account types are told apart
    by name. *)
Inductive UserType :=
| Visitor
| Account (name : string).

#[global] Instance UserType_eq_dec : EqDecision UserType.
Proof. solve_decision. Defined.

(** The client address record [IP]. *)
Record IP := mkIP { address : string }.

(** [KeyValue]: a denied value, or a list of denied values, per key. *)
Inductive denied :=
| OneValue (s : string)
| AnyOfValues (l : list string).

Abbreviation KeyValue := (list (string * denied)).

(** An upload declaration. *)
Record Uploads := mkUploads {
  field : string;
  acl : string;
  directory : string
}.

Record RateLimit := mkRateLimit { ttl : Z; max : Z }.

Module Query.
Record t := mk {
  deniedKeys : option (list string);
  deniedKeysValue : option KeyValue;
  schemas : option Obj;
  default : jsval;
  options : jsval;
  merge : option bool;
  isPrior : option bool;
  errorTitle : option string;
  errorMessage : option string
}.

Definition set_default (q : t) (x : jsval) : t :=
  mk (deniedKeys q) (deniedKeysValue q) (schemas q) x (options q)
     (merge q) (isPrior q) (errorTitle q) (errorMessage q).

Definition set_options (q : t) (x : jsval) : t :=
  mk (deniedKeys q) (deniedKeysValue q) (schemas q) (default q) x
     (merge q) (isPrior q) (errorTitle q) (errorMessage q).
End Query.

Module Body.
Record t := mk {
  deniedKeys : option (list string);
  deniedKeysValue : option KeyValue;
  schemas : option Obj;
  default : jsval;
  uploads : option (list Uploads);
  useDefaultSchema : option bool
}.

Definition set_default (b : t) (x : jsval) : t :=
  mk (deniedKeys b) (deniedKeysValue b) (schemas b) x (uploads b)
     (useDefaultSchema b).
End Body.

Record EndpointSchema := mkEndpoint {
  rateLimit : option RateLimit;
  canVisitorVisit : option bool;
  shouldCheckAction : option bool;
  ep_baseAction : option string;
  allowedUsers : option (list UserType);
  query : option Query.t;
  body : option Body.t
}.

Definition set_query (e : EndpointSchema) (q : Query.t) : EndpointSchema :=
  mkEndpoint (rateLimit e) (canVisitorVisit e) (shouldCheckAction e)
    (ep_baseAction e) (allowedUsers e) (Some q) (body e).

Definition set_body (e : EndpointSchema) (b : Body.t) : EndpointSchema :=
  mkEndpoint (rateLimit e) (canVisitorVisit e) (shouldCheckAction e)
    (ep_baseAction e) (allowedUsers e) (query e) (Some b).

(** [IUserLevel]: the granted actions and the endpoint table, read with
    [get(level?.access?.endpoints, path)]. *)
Record IUserLevel := mkLevel {
  endpoints : string -> option EndpointSchema;
  lv_actions : option (list string)
}.

Record UserDocument := mkUser {
  _id : option ObjectId;
  type : option UserType;
  level : option IUserLevel
}.

(** [a || b] on optional strings: the empty string is falsy. *)
Definition str_or (a b : option string) : option string :=
  match a with
  | Some s => if String.eqb s "" then b else a
  | None => b
  end.

(** [a || d] with a string literal as fallback. *)
Definition str_or_else (a : option string) (d : string) : string :=
  match a with
  | Some s => if String.eqb s "" then d else s
  | None => d
  end.

(** ** Action strings

    [constructAction] and [validateAction] live in
    [@libs/security/action], which is not in the sources. *)

Definition upper (a : ascii) : ascii :=
  let n := Ascii.nat_of_ascii a in
  if (Nat.leb 97 n && Nat.leb n 122)%bool
  then Ascii.ascii_of_nat (n - 32) else a.

Definition lower (a : ascii) : ascii :=
  let n := Ascii.nat_of_ascii a in
  if (Nat.leb 65 n && Nat.leb n 90)%bool
  then Ascii.ascii_of_nat (n + 32) else a.

Fixpoint map_string (f : ascii -> ascii) (s : string) : string :=
  match s with
  | EmptyString => EmptyString
  | String a s' => String (f a) (map_string f s')
  end.

(** lodash [capitalize]: first character upper case, the rest lower. *)
Definition capitalize (s : string) : string :=
  match s with
  | EmptyString => EmptyString
  | String a s' => String (upper a) (map_string lower s')
  end.

Definition is_space (a : ascii) : bool :=
  let n := Ascii.nat_of_ascii a in
  (Nat.eqb n 32 || (Nat.leb 9 n && Nat.leb n 13))%bool.

Fixpoint trim_start (s : string) : string :=
  match s with
  | String a s' => if is_space a then trim_start s' else s
  | EmptyString => EmptyString
  end.

Fixpoint trim_end (s : string) : string :=
  match s with
  | EmptyString => EmptyString
  | String a s' =>
      match trim_end s' with
      | EmptyString => if is_space a then EmptyString else String a EmptyString
      | r => String a r
      end
  end.

(** [String.prototype.trim] on ASCII white space. *)
Definition trim (s : string) : string := trim_end (trim_start s).

(** Modelled from the spec: [constructAction] is not in the sources.  The
    spec composes an action string from prefix, base action, field and
    prefix action, [Create:User] and [Update:User:Email] being its
    examples: the parts that are given, joined by colons. *)
Definition constructAction (base : option string) (prefix : option string)
  (fld : option string) (prefixAction : option string) : string :=
  let parts := omap id [prefix; base; fld; prefixAction] in
  String.concat ":" parts.

(** Modelled from the spec: [validateAction] is not in the sources.  The
    spec lets an action pass exactly when it is a member of the
    principal's granted set, and fails with PermissionDenied (403)
    otherwise.  The optional third argument of the call sites (the value
    found under a scanned key) is not described and plays no part. *)
Definition validateAction (action : string) (granted : list string)
  : result unit :=
  if bool_decide (action ∈ granted) then Ok tt
  else Throw (EStatus (mkStatusError 403 "PermissionDenied"
                         "You do not have the right to perform this action."
                         None)).

(** ** BaseChain *)

(** The chain either holds a reference to the one shared cache or none. *)
Variant cache_ref := SharedCache.

Record BaseChain := mkBase {
  iModel : string;
  user : UserDocument;
  path : string;
  prefix : option string;
  baseAction : option string;
  cache : option cache_ref;
  ip : option IP;
  callback : option bool;
  callbackMsg : option string;
  endpoint : option EndpointSchema;
  actions : list string
}.

Definition set_baseAction (c : BaseChain) (b : option string) : BaseChain :=
  mkBase (iModel c) (user c) (path c) (prefix c) b (cache c) (ip c)
    (callback c) (callbackMsg c) (endpoint c) (actions c).

Definition set_endpoint (c : BaseChain) (e : option EndpointSchema)
  : BaseChain :=
  mkBase (iModel c) (user c) (path c) (prefix c) (baseAction c) (cache c)
    (ip c) (callback c) (callbackMsg c) e (actions c).

Definition set_callback (c : BaseChain) (r : bool) (msg : option string)
  : BaseChain :=
  mkBase (iModel c) (user c) (path c) (prefix c) (baseAction c) (cache c)
    (ip c) (Some r) msg (endpoint c) (actions c).

(** [predicate(callback, msg)]: the callback is run at once and its
    (awaited) boolean kept for [prePerform]. *)
Definition predicate (c : BaseChain) (cb : option bool) (msg : option string)
  : BaseChain :=
  match cb with
  | Some r => set_callback c r msg
  | None => c
  end.

Definition checkAction (c : BaseChain) (base0 : option string)
  : result BaseChain :=
  let base :=
    str_or base0 (str_or (baseAction c) (endpoint c ≫= ep_baseAction)) in
  let c' := set_baseAction c (str_or (baseAction c) base) in
  match str_or base None with
  | None => Throw (EError "You have not set a base action to check.")
  | Some _ =>
      (validateAction (constructAction base (prefix c') None None)
         (actions c') ;;?
       Ok c')%res
  end.

Definition InvalidAccount : exn :=
  EStatus (mkStatusError 403 "Invalid Account"
             "Sorry, your account is not able to perform this action." None).

Definition includes (users : list UserType) (ty : option UserType) : bool :=
  match ty with
  | Some u => bool_decide (u ∈ users)
  | None => false
  end.

Definition checkUser (c : BaseChain) (currentUserType : UserType)
  (allowed : list UserType) : result BaseChain :=
  if includes allowed (Some currentUserType) then Ok c
  else Throw InvalidAccount.

Definition checkIfUserIs (c : BaseChain) (users : list UserType)
  : result BaseChain :=
  if includes users (type (user c)) then Ok c else Throw InvalidAccount.

Definition Unauthorized : exn :=
  EStatus (mkStatusError 401 "Unauthorized"
             "You need to login to access this service." None).

Definition visitorVisit (c : BaseChain) (canVisit : bool)
  : result BaseChain :=
  if negb canVisit && bool_decide (type (user c) = Some Visitor)
  then Throw Unauthorized
  else Ok c.

(** *** The rate limiter *)

Definition TooManyRequest : exn :=
  EStatus (mkStatusError 429 "Too Many Request"
             "You have exceeded the the number of request at this endpoint."
             None).

(** A time-to-live the chain gives in seconds. *)
Definition seconds (s : Z) : option Z := Some (1000 * s).

(** [count === 0] on what [get<number>] returned. *)
Definition is_zero (count : option NodeCache.value) : bool :=
  match count with
  | Some (NodeCache.VNumber n) => n =? 0
  | _ => false
  end.

(** [count - 1] on what [get<number>] returned. *)
Definition minus_one (count : option NodeCache.value) : NodeCache.value :=
  match count with
  | Some (NodeCache.VNumber n) => NodeCache.VNumber (n - 1)
  | _ => NodeCache.VNaN
  end.

Definition rateKey (c : BaseChain) (a : IP) : string :=
  path c +:+ "-" +:+ address a.

Definition retryKeyOf (key : string) : string := key +:+ "-retry".

(** The branch of [checkRateLimit] for a counter at 0: the refusal is
    recorded in the penalty entry (the [throw] follows it). *)
Definition penalise (now : Z) (key retryKey : string) (windows max : Z)
  : M unit :=
  (hasRetry <- ask (NodeCache.has now retryKey);
   if (hasRetry : bool) then
     r <- ask (NodeCache.get now retryKey);
     match r with
     | Some (NodeCache.VRetry retry) =>
         if NodeCache.count retry =? 0 then
           let retry' :=
             NodeCache.mkRetry (2 * max - 1) (NodeCache.retry retry + 1) in
           tell (NodeCache.set now retryKey (NodeCache.VRetry retry')
                   (seconds windows)) ;;
           tell (NodeCache.set now key (NodeCache.VNumber 0)
                   (seconds (windows * NodeCache.retry retry')))
         else
           let retry' :=
             NodeCache.mkRetry (NodeCache.count retry - 1)
               (NodeCache.retry retry) in
           tell (NodeCache.set now retryKey (NodeCache.VRetry retry')
                   (seconds windows))
     | _ => throw ETypeError
     end
   else
     let retry := NodeCache.mkRetry (max * 2 - 1) 1 in
     tell (NodeCache.set now retryKey (NodeCache.VRetry retry)
             (seconds windows)))%chain.

Definition checkRateLimit (now : Z) (c : BaseChain) (windows max : Z)
  : M BaseChain :=
  match ip c, cache c with
  | Some a, Some _ =>
      let key := rateKey c a in
      let retryKey := retryKeyOf key in
      (hit <- ask (NodeCache.has now key);
       if (hit : bool) then
         count <- ask (NodeCache.get now key);
         if is_zero count then
           penalise now key retryKey windows max ;;
           throw TooManyRequest
         else
           ttl <- ask (NodeCache.getTtl now key);
           let newTtl := (fun t => t - now) <$> ttl in
           tell (NodeCache.set now key (minus_one count) newTtl) ;;
           ret c
       else
         (hasRetry <- ask (NodeCache.has now retryKey);
          if (hasRetry : bool) then tell (NodeCache.del retryKey)
          else ret tt) ;;
         tell (NodeCache.set now key (NodeCache.VNumber (max - 1))
                 (seconds windows)) ;;
         ret c)%chain
  | _, _ => ret c
  end.

(** *** The constructor *)

Definition when {A} (b : bool) (f : A -> result A) (a : A) : result A :=
  if b then f a else Ok a.

Definition BaseChain_new (now : Z) (model : string) (usr : UserDocument)
  (pth : string) (pre base : option string)
  (ch : option cache_ref) (addr : option IP) : M BaseChain :=
  let lv := level usr in
  let ep := lv ≫= fun l => endpoints l pth in
  let c0 :=
    mkBase model usr pth pre base ch addr None None ep
      (default [] (lv ≫= lv_actions)) in
  (c1 <-
     match ch, addr, ep ≫= rateLimit with
     | Some _, Some _, Some rl => checkRateLimit now c0 (ttl rl) (max rl)
     | _, _, _ => ret c0
     end;
   c2 <- lift (when (negb (default false (endpoint c1 ≫= canVisitorVisit)))
                 (fun c => visitorVisit c false) c1);
   c3 <- lift (when (negb (bool_decide
                             (endpoint c2 ≫= shouldCheckAction = Some false)))
                 (fun c => checkAction c
                             (str_or (endpoint c ≫= ep_baseAction)
                                (baseAction c)))
                 c2);
   lift (match endpoint c3 ≫= allowedUsers with
         | Some (u :: us) => checkIfUserIs c3 (u :: us)
         | _ => Ok c3
         end))%chain.

(** *** The predicate gate of [prePerform] *)

Definition PredicateNotSucceeded (msg : option string) : exn :=
  EStatus (mkStatusError 403 "Predicate Not Succeeded"
             (str_or_else msg
                "You are not allowed to process further, because the provided predicate mismatches.")
             None).

Definition BaseChain_prePerform (c : BaseChain) : result unit :=
  match callback c with
  | Some r => if r then Ok tt else Throw (PredicateNotSucceeded (callbackMsg c))
  | None => Ok tt
  end.

(** *** Denied keys and denied values

    The scanners walk the denied keys in order over the object they were
    handed; the object is the state, so that deletions made before a
    [throw] remain.  The test [obj[key]] is [get_prop]: it is the code's
    test for the keys the object holds itself and for the keys outside
    [objectPrototypeNames]. *)

Definition scanAction (c : BaseChain) (key : string)
  (prefixAction : option string) : string :=
  constructAction (str_or (baseAction c) (endpoint c ≫= ep_baseAction))
    (prefix c) (Some (capitalize key)) prefixAction.

Fixpoint scanKeys (c : BaseChain) (prefixAction : option string)
  (shouldDelete : bool) (keys : list string) : ST Obj unit :=
  match keys with
  | [] => ret tt
  | key :: rest =>
      fun obj =>
        if truthy (get_prop obj key) then
          if shouldDelete then
            scanKeys c prefixAction shouldDelete rest (delete_prop obj key)
          else
            (lift (validateAction (trim (scanAction c key prefixAction))
                     (actions c)) ;;
             scanKeys c prefixAction shouldDelete rest)%chain obj
        else scanKeys c prefixAction shouldDelete rest obj
  end.

Definition _checkIfKeysExist (c : BaseChain) (obj : option Obj)
  (keys : option (list string)) (prefixAction : option string)
  (shouldDelete : bool) : result unit * option Obj :=
  match obj, keys with
  | Some o, Some ks =>
      let '(r, o') := scanKeys c prefixAction shouldDelete ks o in
      (r, Some o')
  | _, _ => (Ok tt, obj)
  end.

(** [x === s] for a string [s]. *)
Definition is_str (x : jsval) (s : string) : bool :=
  match x with
  | JPrim (PStr s') => String.eqb s' s
  | _ => false
  end.

(** [obj[key] === record[key]], or membership when the record lists
    several values. *)
Definition deniedMatch (x : jsval) (d : denied) : bool :=
  match d with
  | OneValue s => is_str x s
  | AnyOfValues l => existsb (fun s => is_str x s) l
  end.

(** [Object.keys(record)] with [record[key]]: the entries in order. *)
Fixpoint scanKeysValue (c : BaseChain) (prefixAction : option string)
  (shouldDelete : bool) (record : KeyValue) : ST Obj unit :=
  match record with
  | [] => ret tt
  | (key, d) :: rest =>
      fun obj =>
        if truthy (get_prop obj key) then
          if deniedMatch (get_prop obj key) d then
            if shouldDelete then
              scanKeysValue c prefixAction shouldDelete rest
                (delete_prop obj key)
            else
              (lift (validateAction (scanAction c key prefixAction)
                       (actions c)) ;;
               scanKeysValue c prefixAction shouldDelete rest)%chain obj
          else scanKeysValue c prefixAction shouldDelete rest obj
        else scanKeysValue c prefixAction shouldDelete rest obj
  end.

Definition _checkIfKeysValueExist (c : BaseChain) (obj : option Obj)
  (record : option KeyValue) (prefixAction : option string)
  (shouldDelete : bool) : result unit * option Obj :=
  match obj, record with
  | Some o, Some r =>
      let '(res, o') := scanKeysValue c prefixAction shouldDelete r o in
      (res, Some o')
  | _, _ => (Ok tt, obj)
  end.

(** What deletion mode leaves of an object: each denied key whose value is
    truthy (and, for denied values, matches) is deleted, in order. *)
Definition dropKeys (keys : list string) (o : Obj) : Obj :=
  foldl (fun o key => if truthy (get_prop o key) then delete_prop o key else o)
    o keys.

Definition dropValues (record : KeyValue) (o : Obj) : Obj :=
  foldl (fun o kd =>
           if truthy (get_prop o (fst kd))
              && deniedMatch (get_prop o (fst kd)) (snd kd)
           then delete_prop o (fst kd) else o)
    o record.

(** Both steps as [prePerform] chains them, each only if declared. *)
Definition stripped (keys : option (list string)) (record : option KeyValue)
  (o : option Obj) : option Obj :=
  (fun o => dropValues (default [] record) (dropKeys (default [] keys) o))
    <$> o.

(** *** [cloneDeepWith] and [setCurrentUser] on value trees

    lodash's [cloneDeepWith] asks the customizer at every node, the root
    first (without a key), then each property or element with its key; a
    result other than [undefined] replaces the node, otherwise the node is
    cloned and its children visited.  The customizer may observe: its
    state [S] is threaded in visiting order. *)

Inductive pkey :=
| KNone
| KIndex (i : nat)
| KName (k : string).

(** [key && ...]: index 0 and the empty name are falsy. *)
Definition pkey_truthy (k : pkey) : bool :=
  match k with
  | KNone => false
  | KIndex i => negb (Nat.eqb i 0)
  | KName s => negb (String.eqb s "")
  end.

(** [key.toString()]. *)
Definition pkey_toString (k : pkey) : string :=
  match k with
  | KNone => ""
  | KIndex i => pretty (N.of_nat i)
  | KName s => s
  end.

Section CloneTree.
Context {S : Type}.
Variable customizer : jsval -> pkey -> S -> option jsval * S.

Fixpoint baseClone (value : jsval) (key : pkey) (s : S) {struct value}
  : jsval * S :=
  match customizer value key s with
  | (Some r, s') => (r, s')
  | (None, s') =>
      match value with
      | JPrim _ => (value, s')
      | JArr xs =>
          let '(ys, s'') :=
            (fix elements (xs : list jsval) (i : nat) (s : S) :=
               match xs with
               | [] => ([], s)
               | x :: xs' =>
                   let '(y, s1) := baseClone x (KIndex i) s in
                   let '(ys, s2) := elements xs' (Datatypes.S i) s1 in
                   (y :: ys, s2)
               end) xs 0%nat s' in
          (JArr ys, s'')
      | JObj fs =>
          let '(gs, s'') :=
            (fix properties (fs : Obj) (s : S) :=
               match fs with
               | [] => ([], s)
               | (k, x) :: fs' =>
                   let '(y, s1) := baseClone x (KName k) s in
                   let '(gs, s2) := properties fs' s1 in
                   ((k, y) :: gs, s2)
               end) fs s' in
          (JObj gs, s'')
      end
  end.

Definition cloneDeepWith (value : jsval) (s : S) : jsval * S :=
  baseClone value KNone s.
End CloneTree.

Definition sentinel : string := "*current_user*".

(** What the customizer of [setCurrentUser] returns for the sentinel:
    [this.user?._id?.toString()] or [this.user?._id]; [None] is
    [undefined]. *)
Definition identity (u : UserDocument) (stringify : bool) : option prim :=
  match _id u with
  | Some o => Some (if stringify then PStr (hex o) else PId o)
  | None => None
  end.

Definition userCustomizer {S} (u : UserDocument)
  (cb : option (string -> jsval -> S -> S)) (stringify : bool)
  (value : jsval) (key : pkey) (s : S) : option jsval * S :=
  let s' :=
    match cb with
    | Some f => if pkey_truthy key then f (pkey_toString key) value s else s
    | None => s
    end in
  (if is_str value sentinel then JPrim <$> identity u stringify else None, s').

Definition setCurrentUser {S} (c : BaseChain) (data : jsval)
  (cb : option (string -> jsval -> S -> S)) (stringify : bool) (s : S)
  : jsval * S :=
  cloneDeepWith (userCustomizer (user c) cb stringify) data s.

(** Specification of the substitution, in the spec's words: every scalar
    equal to the sentinel is replaced by the identity, everything else is
    kept. *)
Fixpoint substituteIdentity (ident : jsval) (data : jsval) : jsval :=
  match data with
  | JPrim p => if bool_decide (p = PStr sentinel) then ident else JPrim p
  | JArr xs => JArr (map (substituteIdentity ident) xs)
  | JObj fs =>
      JObj (map (fun kv => (fst kv, substituteIdentity ident (snd kv))) fs)
  end.

(** A principal without an [_id] leaves the customizer with [undefined] to
    return, and the data is copied as it is. *)
Definition substituted (ident : option prim) (data : jsval) : jsval :=
  match ident with
  | Some p => substituteIdentity (JPrim p) data
  | None => data
  end.

(** ** The schema matcher ([DataValidationSchema.ts]) *)

(** What a compiled validator answers: [true], or [false] with
    [validate.errors] filled in. *)
Inductive verdict :=
| Valid
| Invalid (errs : list ErrorObject).

(** The collaborators the chains import from outside [src/channel]: the
    schema compiler ([ajv.compile(schema)(data)], assumed to accept every
    declared schema), the model's own schema ([getEntity(iModel,
    "docs:model")]), the query helper [parseNestedObject], lodash's
    [merge({}, a, b)] and the upload relocator [moveFieldsFile]. *)
Class Collaborators := {
  ajv : jsval -> jsval -> verdict;
  getEntity : string -> jsval;
  parseNestedObject : option Obj -> option Obj;
  merge : jsval -> jsval -> jsval;
  moveFieldsFile : list Uploads -> jsval -> result jsval
}.

Record ValidationResult := mkValidation {
  errors : Errors;
  defaultValue : jsval;
  defaultOption : jsval;
  isValid : bool
}.

Definition getDefault (obj : jsval) (index : nat) : jsval :=
  match obj with
  | JArr xs => default JUndefined (xs !! index)
  | _ => obj
  end.

(** A property read [x.name]: a [TypeError] on [undefined] and [null]. *)
Definition prop (x : jsval) (name : string) : result jsval :=
  match x with
  | JPrim PUndefined | JPrim PNull => Throw ETypeError
  | JObj fs => Ok (get_prop fs name)
  | _ => Ok JUndefined
  end.

(** [cloneDeep] of the data without its own [sort] and [locale]. *)
Definition excludeFields (schema : jsval) : result jsval :=
  match schema with
  | JPrim PUndefined | JPrim PNull => Throw ETypeError
  | JObj fs => Ok (JObj (delete_prop (delete_prop fs "sort") "locale"))
  | _ => Ok schema
  end.

(** [a ?? b]. *)
Definition nullish_or (a b : jsval) : jsval :=
  match a with
  | JPrim PUndefined | JPrim PNull => b
  | _ => a
  end.

(** [schema.anyOf.findIndex(...)], with the assignment to [errors] the
    callback makes on each branch that fails. *)
Fixpoint findIndex `{Collaborators} (data : jsval) (subs : list jsval)
  (index : nat) (errs : Errors) : result (option nat * Errors) :=
  match subs with
  | [] => Ok (None, errs)
  | subSchema :: rest =>
      (d <-? excludeFields data;
       match ajv subSchema d with
       | Valid => Ok (Some index, errs)
       | Invalid es => findIndex data rest (S index) (Some es)
       end)%res
  end.

Definition validateDataSchema `{Collaborators} (data schema : jsval)
  (defaultData defaultOpt : jsval) : result ValidationResult :=
  (anyOf <-? prop schema "anyOf";
   if truthy anyOf then
     match anyOf with
     | JArr subs =>
         found <-? findIndex data subs 0%nat None;
         match fst found with
         | Some index =>
             let sub := default JUndefined (subs !! index) in
             d <-? prop sub "default";
             o <-? prop sub "options";
             Ok (mkValidation (snd found)
                   (if truthy d then d else getDefault defaultData index)
                   (if truthy o then o else getDefault defaultOpt index)
                   true)
         | None => Ok (mkValidation (snd found) defaultData defaultOpt false)
         end
     | _ => Throw ETypeError
     end
   else
     d <-? excludeFields data;
     match ajv schema d with
     | Invalid es => Ok (mkValidation (Some es) defaultData defaultOpt false)
     | Valid =>
         sd <-? prop schema "default";
         so <-? prop schema "options";
         Ok (mkValidation None (nullish_or sd defaultData)
               (nullish_or so defaultOpt) true)
     end)%res.

(** ** The four chains *)

(** An optional plain object as a value. *)
Definition data_of (o : option Obj) : jsval :=
  match o with
  | Some fs => JObj fs
  | None => JUndefined
  end.

Definition RestrictedData (errs : Errors) : exn :=
  EStatus (mkStatusError 403 "Restricted Data"
             "The data you provided violates some of our policies. Check it or consulate support."
             errs).

Definition RestrictedQuery (msg : string) (errs : Errors) : exn :=
  EStatus (mkStatusError 403 "Restricted Query" msg errs).

Definition notAllowedQuery : string :=
  "The query you provided is not allowed by the system.".

(** [run] a denied-key step only when the endpoint declares it. *)
Definition whenSome {S A} (o : option A) (f : A -> ST S unit) : ST S unit :=
  match o with
  | Some a => f a
  | None => ret tt
  end.

(** [String.prototype.endsWith]. *)
Definition endsWith (s suffix : string) : bool :=
  let n := String.length s in
  let m := String.length suffix in
  (Nat.leb m n && String.eqb (String.substring (n - m) m s) suffix)%bool.

(** [GetSubstitution] for a string pattern: in the replacement text [$$]
    stands for a dollar sign, [$&] for the matched text, [$`] for the text
    before the match and [$'] for the text after it.  A string pattern has
    no captures, so every other [$] stands for itself. *)
Fixpoint getSubstitution (matched before after template : string) : string :=
  match template with
  | EmptyString => EmptyString
  | String a rest =>
      if Ascii.eqb a "$" then
        match rest with
        | String b rest' =>
            if Ascii.eqb b "$" then
              String "$" (getSubstitution matched before after rest')
            else if Ascii.eqb b "&" then
              matched +:+ getSubstitution matched before after rest'
            else if Ascii.eqb b "`" then
              before +:+ getSubstitution matched before after rest'
            else if Ascii.eqb b "'" then
              after +:+ getSubstitution matched before after rest'
            else String a (getSubstitution matched before after rest)
        | EmptyString => String a EmptyString
        end
      else String a (getSubstitution matched before after rest)
  end.

(** [String.prototype.replaceAll] with a non-empty string pattern: the
    matches are found from left to right without overlap, and each is
    replaced by the replacement text with its patterns filled in for that
    match; [orig] is the whole string and [pos] the position reached in
    it. *)
Fixpoint replaceAll_from (orig pat rep : string) (pos skip : nat) (s : string)
  : string :=
  match s with
  | EmptyString => EmptyString
  | String a s' =>
      match skip with
      | S k => replaceAll_from orig pat rep (S pos) k s'
      | O =>
          if String.prefix pat s
          then
            let tail := (pos + String.length pat)%nat in
            getSubstitution pat (String.substring 0 pos orig)
              (String.substring tail (String.length orig - tail) orig) rep
            +:+ replaceAll_from orig pat rep (S pos) (String.length pat - 1) s'
          else String a (replaceAll_from orig pat rep (S pos) 0 s')
      end
  end.

Definition replaceAll (s pat rep : string) : string :=
  replaceAll_from s pat rep 0 0 s.

(** lodash [uniqBy(uploads, "field")]: the first of each field stays. *)
Fixpoint uniqByField (seen : list string) (us : list Uploads)
  : list Uploads :=
  match us with
  | [] => []
  | u :: rest =>
      if bool_decide (field u ∈ seen) then uniqByField seen rest
      else u :: uniqByField (field u :: seen) rest
  end.

(** A template literal's rendering of an optional string. *)
Definition render (o : option string) : string := default "undefined" o.

Module CreateChain.

Record t := mk { base : BaseChain; doc : option Obj }.

Record CreateChainResult := mkResult {
  res_doc : jsval;
  res_filter : jsval;
  res_options : jsval
}.

Definition new (now : Z) (model : string) (d : option Obj)
  (usr : UserDocument) (pth : string) (baseAction : option string)
  (ch : option cache_ref) (addr : option IP) : M t :=
  (c <- BaseChain_new now model usr pth (Some "Create") baseAction ch addr;
   ret (mk c d))%chain.

Definition checkIfKeysExist (keys : list string)
  (prefixAction : option string) (shouldDelete : bool) : ST t unit :=
  fun c =>
    let '(r, d) :=
      _checkIfKeysExist (base c) (doc c) (Some keys) prefixAction
        shouldDelete in
    (r, mk (base c) d).

Definition checkIfKeysValueExist (record : KeyValue)
  (prefixAction : option string) (shouldDelete : bool) : ST t unit :=
  fun c =>
    let '(r, d) :=
      _checkIfKeysValueExist (base c) (doc c) (Some record) prefixAction
        shouldDelete in
    (r, mk (base c) d).

(** [set(this.endpoint.body, "default", defaultValue)]. *)
Definition set_body_default (c : t) (x : jsval) : t :=
  match endpoint (base c) with
  | Some ep =>
      match body ep with
      | Some b =>
          mk (set_endpoint (base c)
                (Some (set_body ep (Body.set_default b x))))
             (doc c)
      | None => c
      end
  | None => c
  end.

(** The schema step of [prePerform]. *)
Definition validate `{Collaborators} : ST t unit :=
  (c <- this;
   let b := endpoint (base c) ≫= body in
   match b ≫= Body.schemas with
   | Some schemas =>
       r <- lift (validateDataSchema (data_of (doc c)) (JObj schemas)
                    (default JUndefined (Body.default <$> b)) JUndefined);
       if isValid r then put (set_body_default c (defaultValue r))
       else throw (RestrictedData (errors r))
   | None =>
       match b ≫= Body.useDefaultSchema with
       | None | Some true =>
           match ajv (getEntity (iModel (base c))) (data_of (doc c)) with
           | Valid => ret tt
           | Invalid es => throw (RestrictedData (Some es))
           end
       | Some false => ret tt
       end
   end)%chain.

Definition prePerform `{Collaborators} : ST t unit :=
  (c <- this;
   lift (BaseChain_prePerform (base c)) ;;
   let b := endpoint (base c) ≫= body in
   whenSome (b ≫= Body.deniedKeys)
     (fun ks => checkIfKeysExist ks None true) ;;
   whenSome (b ≫= Body.deniedKeysValue)
     (fun r => checkIfKeysValueExist r None true) ;;
   validate)%chain.

(** The observer [perform] hands to [setCurrentUser]. *)
Definition uploadFile (c : BaseChain) (key : string) (value : jsval)
  (tempUploads : list Uploads) : list Uploads :=
  match value with
  | JPrim (PStr _) =>
      if endsWith key "_file_url" then
        tempUploads ++
          [mkUploads key "authenticated-read"
             ("users/" +:+ render (hex <$> _id (user c)) +:+ "/"
              +:+ render (baseAction c))]
      else tempUploads
  | _ => tempUploads
  end.

Definition resolveUploads (c : BaseChain) (us : list Uploads)
  : result (list Uploads) :=
  match us with
  | [] => Ok []
  | _ :: _ =>
      match _id (user c) with
      | Some o =>
          Ok (map (fun u => mkUploads (field u) (acl u)
                              (replaceAll (directory u) sentinel (hex o)))
                us)
      | None => Throw ETypeError
      end
  end.

Definition perform `{Collaborators} (options : jsval)
  : ST t CreateChainResult :=
  (prePerform ;;
   c <- this;
   let b := endpoint (base c) ≫= body in
   let dflt := default JUndefined (Body.default <$> b) in
   let '(d, tempUploads) :=
     setCurrentUser (base c)
       (merge (data_of (doc c)) (if truthy dflt then dflt else JObj []))
       (Some (uploadFile (base c))) false [] in
   uploads <- lift (resolveUploads (base c) (default [] (b ≫= Body.uploads)));
   let tempUploads := uniqByField [] (uploads ++ tempUploads) in
   files <- match tempUploads with
            | [] => ret (JObj [])
            | _ :: _ => lift (moveFieldsFile tempUploads d)
            end;
   ret (mkResult (merge d files)
          (default JUndefined
             (Query.default <$> (endpoint (base c) ≫= query)))
          options))%chain.

End CreateChain.

(** [set(this.endpoint?.query, name, x)] on the chain's endpoint. *)
Definition set_query_with (f : Query.t -> Query.t) (c : BaseChain)
  : BaseChain :=
  match endpoint c with
  | Some ep =>
      match query ep with
      | Some q => set_endpoint c (Some (set_query ep (f q)))
      | None => c
      end
  | None => c
  end.

Module ReadChain.

Record t := mk { base : BaseChain; filter : option Obj }.

Definition new (now : Z) (model : string) (f : option Obj)
  (usr : UserDocument) (pth : string) (baseAction : option string)
  (ch : option cache_ref) (addr : option IP) : M t :=
  (c <- BaseChain_new now model usr pth (Some "Read") baseAction ch addr;
   ret (mk c f))%chain.

Definition scanFilter
  (scan : BaseChain -> option Obj -> result unit * option Obj)
  : ST t unit :=
  fun c => let '(r, f) := scan (base c) (filter c) in (r, mk (base c) f).

Definition checkIfKeysExist (deniedKeys : option (list string))
  (prefixAction : option string) (shouldDelete : bool) : ST t unit :=
  fun c : t =>
    let keys :=
      match (endpoint (base c) ≫= query) ≫= Query.deniedKeys with
      | Some ks => Some ks
      | None => deniedKeys
      end in
    scanFilter (fun b f => _checkIfKeysExist b f keys prefixAction
                             shouldDelete) c.

Definition checkIfKeysValueExist (record : option KeyValue)
  (prefixAction : option string) (shouldDelete : bool) : ST t unit :=
  fun c : t =>
    let keys :=
      match (endpoint (base c) ≫= query) ≫= Query.deniedKeysValue with
      | Some r => Some r
      | None => record
      end in
    scanFilter (fun b f => _checkIfKeysValueExist b f keys prefixAction
                             shouldDelete) c.

(** The schema step of [prePerform]. *)
Definition validate `{Collaborators} : ST t unit :=
  (c <- this;
   let q := endpoint (base c) ≫= query in
   match q ≫= Query.schemas with
   | Some schemas =>
       let '(schema, _) :=
         setCurrentUser (S := unit) (base c) (JObj schemas) None true tt in
       r <- lift (validateDataSchema (data_of (filter c)) schema
                    (default JUndefined (Query.default <$> q))
                    (default JUndefined (Query.options <$> q)));
       if isValid r then
         put (mk (set_query_with
                    (fun q => Query.set_options
                                (Query.set_default q (defaultValue r))
                                (defaultOption r))
                    (base c))
                (filter c))
       else
         match errors r with
         | Some es =>
             match last es with
             | Some e =>
                 throw (RestrictedQuery
                          (notAllowedQuery +:+ " Your query "
                           +:+ err_message e)
                          (errors r))
             | None => throw ETypeError
             end
         | None => throw (RestrictedQuery notAllowedQuery None)
         end
   | None => ret tt
   end)%chain.

Definition prePerform `{Collaborators} : ST t unit :=
  (c <- this;
   lift (BaseChain_prePerform (base c)) ;;
   let q := endpoint (base c) ≫= query in
   whenSome (q ≫= Query.deniedKeys)
     (fun ks => scanFilter (fun b f =>
                  _checkIfKeysExist b f (Some ks) None true)) ;;
   whenSome (q ≫= Query.deniedKeysValue)
     (fun r => scanFilter (fun b f =>
                 _checkIfKeysValueExist b f (Some r) None true)) ;;
   c <- this;
   put (mk (base c) (parseNestedObject (filter c))) ;;
   validate)%chain.

End ReadChain.

Module UpdateChain.

Record t := mk {
  base : BaseChain;
  filter : option Obj;
  update : option Obj
}.

Definition new (now : Z) (model : string) (f u : option Obj)
  (usr : UserDocument) (pth : string) (baseAction : option string)
  (ch : option cache_ref) (addr : option IP) : M t :=
  (c <- BaseChain_new now model usr pth (Some "Update") baseAction ch addr;
   ret (mk c f u))%chain.

Definition scanFilter
  (scan : BaseChain -> option Obj -> result unit * option Obj)
  : ST t unit :=
  fun c =>
    let '(r, f) := scan (base c) (filter c) in (r, mk (base c) f (update c)).

Definition scanUpdate
  (scan : BaseChain -> option Obj -> result unit * option Obj)
  : ST t unit :=
  fun c =>
    let '(r, u) := scan (base c) (update c) in (r, mk (base c) (filter c) u).

Definition checkIfKeysExist (keys : list string)
  (prefixAction : option string) (shouldDelete : bool) : ST t unit :=
  scanUpdate (fun b u => _checkIfKeysExist b u (Some keys) prefixAction
                           shouldDelete).

Definition checkIfKeysValueExist (record : KeyValue)
  (prefixAction : option string) (shouldDelete : bool) : ST t unit :=
  scanUpdate (fun b u => _checkIfKeysValueExist b u (Some record)
                           prefixAction shouldDelete).

(** The schema steps of [prePerform]. *)
Definition validate `{Collaborators} : ST t unit :=
  (c <- this;
   let q := endpoint (base c) ≫= query in
   let b := endpoint (base c) ≫= body in
   match q ≫= Query.schemas with
   | Some schemas =>
       if isEmpty_obj (filter c) then ret tt
       else
         match ajv (JObj schemas) (data_of (filter c)) with
         | Valid => ret tt
         | Invalid _ =>
             throw (EStatus (mkStatusError 403
                      (str_or_else (q ≫= Query.errorTitle)
                         "Restricted Query")
                      (str_or_else (q ≫= Query.errorMessage)
                         notAllowedQuery)
                      None))
         end
   | None => ret tt
   end ;;
   match b ≫= Body.schemas with
   | Some schemas =>
       if isEmpty_obj (update c) then ret tt
       else
         match ajv (JObj schemas) (data_of (update c)) with
         | Valid => ret tt
         | Invalid es =>
             throw (EStatus (mkStatusError 403
                      (str_or_else (q ≫= Query.errorTitle)
                         "Restricted Body")
                      (str_or_else (q ≫= Query.errorMessage)
                         "The body you provided is not allowed by the system.")
                      (Some es)))
         end
   | None => ret tt
   end)%chain.

Definition prePerform `{Collaborators} : ST t unit :=
  (c <- this;
   lift (BaseChain_prePerform (base c)) ;;
   let q := endpoint (base c) ≫= query in
   let b := endpoint (base c) ≫= body in
   whenSome (q ≫= Query.deniedKeys)
     (fun ks => scanFilter (fun b f =>
                  _checkIfKeysExist b f (Some ks) None true)) ;;
   whenSome (q ≫= Query.deniedKeysValue)
     (fun r => scanFilter (fun b f =>
                 _checkIfKeysValueExist b f (Some r) None true)) ;;
   whenSome (b ≫= Body.deniedKeys)
     (fun ks => checkIfKeysExist ks None true) ;;
   whenSome (b ≫= Body.deniedKeysValue)
     (fun r => checkIfKeysValueExist r None true) ;;
   validate)%chain.

End UpdateChain.

Module DeleteChain.

Record t := mk { base : BaseChain; filter : option Obj }.

Definition new (now : Z) (model : string) (f : option Obj)
  (usr : UserDocument) (pth : string) (baseAction : option string)
  (ch : option cache_ref) (addr : option IP) : M t :=
  (c <- BaseChain_new now model usr pth (Some "Delete") baseAction ch addr;
   ret (mk c f))%chain.

Definition scanFilter
  (scan : BaseChain -> option Obj -> result unit * option Obj)
  : ST t unit :=
  fun c => let '(r, f) := scan (base c) (filter c) in (r, mk (base c) f).

(** No [shouldDelete] here: the scanners run with their default,
    [false]. *)
Definition checkIfKeysExist (deniedKeys : option (list string))
  (prefixAction : option string) : ST t unit :=
  scanFilter (fun b f => _checkIfKeysExist b f deniedKeys prefixAction
                           false).

Definition checkIfKeysValueExist (record : KeyValue)
  (prefixAction : option string) : ST t unit :=
  scanFilter (fun b f => _checkIfKeysValueExist b f (Some record)
                           prefixAction false).

(** The schema step of [prePerform]. *)
Definition validate `{Collaborators} : ST t unit :=
  (c <- this;
   let q := endpoint (base c) ≫= query in
   match q ≫= Query.schemas with
   | Some schemas =>
       r <- lift (validateDataSchema (data_of (filter c)) (JObj schemas)
                    (default JUndefined (Query.default <$> q)) JUndefined);
       if isValid r then
         put (mk (set_query_with
                    (fun q => Query.set_default q (defaultValue r))
                    (base c))
                (filter c))
       else throw (RestrictedQuery notAllowedQuery (errors r))
   | None => ret tt
   end)%chain.

Definition prePerform `{Collaborators} : ST t unit :=
  (c <- this;
   lift (BaseChain_prePerform (base c)) ;;
   let q := endpoint (base c) ≫= query in
   whenSome (q ≫= Query.deniedKeys)
     (fun ks => checkIfKeysExist (Some ks) None) ;;
   whenSome (q ≫= Query.deniedKeysValue)
     (fun r => checkIfKeysValueExist r None) ;;
   validate)%chain.

End DeleteChain.

(** ** Objects in memory

    Whether a call leaves its argument alone cannot be read off a function
    on value trees.  For [setCurrentUser] the objects therefore also get a
    store: a value is a primitive or a reference to a cell, and
    [cloneDeepWith] allocates the cells of the copy.  The recursion
    follows the references and so takes fuel. *)

Module Heap.

Abbreviation loc := positive.

Inductive hval :=
| HPrim (p : prim)
| HRef (l : loc).

Inductive cell :=
| CArr (xs : list hval)
| CObj (fs : list (string * hval)).

Abbreviation heap := (gmap loc cell).

(** The children of a cell with the keys the customizer sees. *)
Definition children (c : cell) : list (pkey * hval) :=
  match c with
  | CArr xs => imap (fun i x => (KIndex i, x)) xs
  | CObj fs => map (fun kv => (KName (fst kv), snd kv)) fs
  end.

(** The cell of the same kind and keys around new children. *)
Definition rebuild (c : cell) (ys : list hval) : cell :=
  match c with
  | CArr _ => CArr ys
  | CObj fs => CObj (zip (map fst fs) ys)
  end.

Definition hollow (c : cell) : cell :=
  match c with
  | CArr _ => CArr []
  | CObj _ => CObj []
  end.

Section Clone.
Context {S : Type}.
Variable customizer : hval -> pkey -> S -> option hval * S.

Fixpoint cloneEach
  (clone : hval -> pkey -> heap * S -> option (hval * (heap * S)))
  (kids : list (pkey * hval)) (st : heap * S)
  : option (list hval * (heap * S)) :=
  match kids with
  | [] => Some ([], st)
  | (k, x) :: rest =>
      match clone x k st with
      | Some (y, st1) =>
          match cloneEach clone rest st1 with
          | Some (ys, st2) => Some (y :: ys, st2)
          | None => None
          end
      | None => None
      end
  end.

(** lodash's [baseClone]: the customizer first; a primitive is
    returned as is; for an object the result is created, then filled
    with the clones of the children in order. *)
Fixpoint baseClone (fuel : nat) (value : hval) (key : pkey)
  (st : heap * S) : option (hval * (heap * S)) :=
  match fuel with
  | O => None
  | Datatypes.S n =>
      match customizer value key (snd st) with
      | (Some r, s') => Some (r, (fst st, s'))
      | (None, s') =>
          match value with
          | HPrim _ => Some (value, (fst st, s'))
          | HRef l =>
              match fst st !! l with
              | None => None
              | Some c =>
                  let l' := fresh (dom (fst st)) in
                  let h0 := <[l' := hollow c]> (fst st) in
                  match cloneEach (baseClone n) (children c) (h0, s') with
                  | Some (ys, (h1, s1)) =>
                      Some (HRef l', (<[l' := rebuild c ys]> h1, s1))
                  | None => None
                  end
              end
          end
      end
  end.

Definition cloneDeepWith (fuel : nat) (value : hval) (st : heap * S)
  : option (hval * (heap * S)) :=
  baseClone fuel value KNone st.
End Clone.

Definition is_str (x : hval) (s : string) : bool :=
  match x with
  | HPrim (PStr s') => String.eqb s' s
  | _ => false
  end.

Definition userCustomizer {S} (u : UserDocument)
  (cb : option (string -> hval -> S -> S)) (stringify : bool)
  (value : hval) (key : pkey) (s : S) : option hval * S :=
  let s' :=
    match cb with
    | Some f => if pkey_truthy key then f (pkey_toString key) value s else s
    | None => s
    end in
  (if is_str value sentinel then HPrim <$> identity u stringify else None, s').

Definition setCurrentUser {S} (fuel : nat) (c : BaseChain) (data : hval)
  (cb : option (string -> hval -> S -> S)) (stringify : bool)
  (st : heap * S) : option (hval * (heap * S)) :=
  cloneDeepWith (userCustomizer (user c) cb stringify) fuel data st.

(** [represents P h t x]: in the store [h] the value [x] is the tree
    [t], and every cell of it lies at a location satisfying [P]. *)
Fixpoint represents (P : loc -> Prop) (h : heap) (t : jsval) (x : hval)
  {struct t} : Prop :=
  match t with
  | JPrim p => x = HPrim p
  | JArr ts =>
      exists l xs,
        x = HRef l /\ P l /\ h !! l = Some (CArr xs) /\
        (fix all (ts : list jsval) (xs : list hval) : Prop :=
           match ts, xs with
           | [], [] => True
           | t :: ts', x :: xs' => represents P h t x /\ all ts' xs'
           | _, _ => False
           end) ts xs
  | JObj fs =>
      exists l gs,
        x = HRef l /\ P l /\ h !! l = Some (CObj gs) /\
        (fix all (fs : Obj) (gs : list (string * hval)) : Prop :=
           match fs, gs with
           | [], [] => True
           | (k, t) :: fs', (k', x) :: gs' =>
               k = k' /\ represents P h t x /\ all fs' gs'
           | _, _ => False
           end) fs gs
  end.

(** The nesting depth of a tree: enough fuel to clone it. *)
Fixpoint height (t : jsval) : nat :=
  match t with
  | JPrim _ => 0
  | JArr ts => Datatypes.S (foldr (fun t n => Nat.max (height t) n) 0%nat ts)
  | JObj fs =>
      Datatypes.S (foldr (fun kv n => Nat.max (height (snd kv)) n) 0%nat fs)
  end.

End Heap.

Module SampleHeap.

(** The object [{ owner: "*current_user*" }] at location 1. *)
Definition ownerTree : jsval := JObj [("owner", JStr sentinel)].

Definition ownerHeap : Heap.heap :=
  {[ 1%positive := Heap.CObj [("owner", Heap.HPrim (PStr sentinel))] ]}.

End SampleHeap.

(** ** Request sequences

    The rate-limit checks of successive requests of one client to one
    endpoint, made at the times [ts]: the outcome of each and the cache it
    leaves. *)
Fixpoint requests (c : BaseChain) (windows max : Z) (ts : list Z)
  (s : NodeCache.store) : list (result BaseChain * NodeCache.store) :=
  match ts with
  | [] => []
  | now :: ts' =>
      let r := checkRateLimit now c windows max s in
      r :: requests c windows max ts' (snd r)
  end.

(** The counter and the penalty entry a cache holds for a key. *)
Definition counterOf (key : string) (s : NodeCache.store)
  : option NodeCache.wrapped :=
  NodeCache.data s !! key.

Definition penaltyOf (key : string) (s : NodeCache.store)
  : option NodeCache.wrapped :=
  NodeCache.data s !! retryKeyOf key.

(** ** A sample request

    A user, an endpoint and a client to run the chains on. *)

Module Sample.

Definition nameSchema : Obj :=
  [("type", JStr "object");
   ("required", JArr [JStr "name"]);
   ("properties", JObj [("name", JObj [("type", JStr "string")])])].

Definition usersEndpoint : EndpointSchema :=
  mkEndpoint (Some (mkRateLimit 10 3)) None None (Some "User") None
    (Some (Query.mk (Some ["role"]) None None JUndefined JUndefined None None
             None None))
    (Some (Body.mk (Some ["role"]) None (Some nameSchema) JUndefined None
             None)).

Definition memberLevel : IUserLevel :=
  mkLevel (fun p => if String.eqb p "/users" then Some usersEndpoint else None)
    (Some ["Create:User"; "Read:User"; "Update:User"]).

Definition alice : UserDocument :=
  mkUser (Some (mkObjectId "64b0c0ffee")) (Some (Account "member"))
    (Some memberLevel).

Definition visitor : UserDocument :=
  mkUser None (Some Visitor) (Some memberLevel).

Definition client : IP := mkIP "203.0.113.7".

(** The chain [new BaseChain(...)] builds for [alice] on ["/users"]. *)
Definition chainOf (pre : string) (ch : option cache_ref)
  (addr : option IP) : BaseChain :=
  mkBase "User" alice "/users" (Some pre) (Some "User") ch addr None None
    (Some usersEndpoint) ["Create:User"; "Read:User"; "Update:User"].

Definition chain : BaseChain :=
  chainOf "Create" (Some SharedCache) (Some client).

(** Stand-ins for the collaborators: a validator for flat object schemas
    ([required] and the [type] of [properties]), a shallow [merge], no
    rewriting of filters and an upload relocator that moves nothing. *)
Definition typeMatches (ty x : jsval) : bool :=
  match x with
  | JPrim (PStr _) => is_str ty "string"
  | JPrim (PNum _) => is_str ty "number"
  | JPrim (PBool _) => is_str ty "boolean"
  | JObj _ => is_str ty "object"
  | JArr _ => is_str ty "array"
  | _ => false
  end.

Definition propertyOk (data : Obj) (kp : string * jsval) : bool :=
  match snd kp with
  | JObj f =>
      negb (has_prop data (fst kp))
      || negb (truthy (get_prop f "type"))
      || typeMatches (get_prop f "type") (get_prop data (fst kp))
  | _ => true
  end.

Definition requiredOk (data : Obj) (r : jsval) : bool :=
  match r with
  | JPrim (PStr k) => has_prop data k
  | _ => true
  end.

Definition flatAjv (schema data : jsval) : verdict :=
  match schema, data with
  | JObj sf, JObj df =>
      let required :=
        match get_prop sf "required" with JArr rs => rs | _ => [] end in
      let props :=
        match get_prop sf "properties" with JObj ps => ps | _ => [] end in
      let missing := List.filter (fun r => negb (requiredOk df r)) required in
      let wrong := List.filter (fun kp => negb (propertyOk df kp)) props in
      match missing, wrong with
      | [], [] => Valid
      | _, _ =>
          Invalid (map (fun _ => mkErrorObject "must have required property")
                     missing
                   ++ map (fun kp => mkErrorObject
                                       ("must match the type of " +:+ fst kp))
                       wrong)
      end
  | _, _ => Invalid [mkErrorObject "must be object"]
  end.

Definition shallowMerge (a b : jsval) : jsval :=
  match a, b with
  | JObj x, JObj y => JObj (foldl (fun o kv => set_prop o (fst kv) (snd kv)) x y)
  | _, JPrim PUndefined => a
  | _, _ => b
  end.

Definition collaborators : Collaborators :=
  {| ajv := flatAjv;
     getEntity := fun _ => JObj nameSchema;
     parseNestedObject := fun f => f;
     merge := shallowMerge;
     moveFieldsFile := fun _ _ => Ok (JObj []) |}.

(** Requests to ["/users"]: a document that names a denied key, and one
    whose [name] is a number. *)
Definition adminDoc : Obj := [("role", JStr "admin"); ("name", JStr "Bob")].
Definition numberDoc : Obj := [("name", JNum 123)].

Definition create (d : Obj) : CreateChain.t :=
  CreateChain.mk chain (Some d).

Definition read (f : Obj) : ReadChain.t :=
  ReadChain.mk (chainOf "Read" (Some SharedCache) (Some client)) (Some f).

Definition update (f u : Obj) : UpdateChain.t :=
  UpdateChain.mk (chainOf "Update" (Some SharedCache) (Some client))
    (Some f) (Some u).

(** A visitor's chain on the same endpoint. *)
Definition visitorChain : BaseChain :=
  mkBase "User" visitor "/users" (Some "Read") (Some "User") None None None
    None (Some usersEndpoint) ["Read:User"].

(** Two alternative schemas and data that only the second accepts. *)
Definition titleSchema : jsval :=
  JObj [("type", JStr "object"); ("required", JArr [JStr "title"])].

Definition anySchema : jsval :=
  JObj [("type", JStr "object")].

End Sample.

(** ** What one check may change in the cache

    [confined K m]: running [m] leaves every entry outside the keys [K],
    and the cache's [stdTTL], as they were. *)
Definition confined {A} (K : list string) (m : M A) : Prop :=
  forall s k,
    k ∉ K ->
    NodeCache.data (snd (m s)) !! k = NodeCache.data s !! k /\
    NodeCache.stdTTL_ms (snd (m s)) = NodeCache.stdTTL_ms s.

(** The entries the rate limiter itself writes: a number under the
    counter key, a [Retry] object under the penalty key. *)
Definition wellTyped (key : string) (s : NodeCache.store) : Prop :=
  (forall d, counterOf key s = Some d ->
             exists n, NodeCache.v d = NodeCache.VNumber n) /\
  (forall d, penaltyOf key s = Some d ->
             exists p, NodeCache.v d = NodeCache.VRetry p).

(** ** What the observer of [setCurrentUser] sees

    The nodes [cloneDeepWith] hands to the customizer with a truthy key,
    in visiting order: a node before its children, the children in
    order. *)
Fixpoint visits (key : pkey) (value : jsval) : list (string * jsval) :=
  ((if pkey_truthy key then [(pkey_toString key, value)] else [])
   ++ match value with
      | JPrim _ => []
      | JArr xs =>
          (fix elements (xs : list jsval) (i : nat)
             : list (string * jsval) :=
             match xs with
             | [] => []
             | x :: xs' => visits (KIndex i) x ++ elements xs' (S i)
             end) xs 0%nat
      | JObj fs =>
          (fix properties (fs : Obj) : list (string * jsval) :=
             match fs with
             | [] => []
             | (k, x) :: fs' => visits (KName k) x ++ properties fs'
             end) fs
      end)%list.

(** ** [perform] of the Update and Delete chains *)

(** [String(x)], as [replaceAll] applies it to its replacement. *)
Fixpoint js_toString (x : jsval) : string :=
  match x with
  | JPrim PUndefined => "undefined"
  | JPrim PNull => "null"
  | JPrim (PBool b) => if b then "true" else "false"
  | JPrim (PNum n) => pretty n
  | JPrim (PStr s) => s
  | JPrim (PId o) => hex o
  | JArr xs =>
      String.concat ","
        (map (fun x => match x with
                       | JPrim PUndefined | JPrim PNull => ""
                       | _ => js_toString x
                       end) xs)
  | JObj _ => "[object Object]"
  end.

(** [makeQuery] of [@libs/utility] is not in the sources: it combines the
    request's filter with the endpoint's default filter under the flags
    [merge] and [isPrior]. *)
Class Utility := {
  makeQuery : jsval -> jsval -> option bool -> option bool -> result jsval
}.

Record UpdateChainResult := mkUpdateResult {
  upd_filter : jsval;
  upd_update : jsval;
  upd_options : jsval
}.

Record DeleteChainResult := mkDeleteResult {
  del_filter : jsval;
  del_options : jsval
}.

(** The declared uploads of the Update chain, their directory templates
    filled in: [*current_user*] with the principal's id (a [TypeError]
    without one) and [*current_model*] with the filter's [_id]. *)
Definition UpdateChain_resolveUploads (c : UpdateChain.t) (us : list Uploads)
  : result (list Uploads) :=
  match us with
  | [] => Ok []
  | _ :: _ =>
      match _id (user (UpdateChain.base c)) with
      | Some o =>
          let model :=
            match UpdateChain.filter c with
            | Some f => get_prop f "_id"
            | None => JUndefined
            end in
          Ok (map (fun u =>
                     mkUploads (field u) (acl u)
                       (replaceAll
                          (replaceAll (directory u) sentinel (hex o))
                          "*current_model*" (js_toString model)))
                us)
      | None => Throw ETypeError
      end
  end.

Definition UpdateChain_perform `{Collaborators} `{Utility}
  : ST UpdateChain.t UpdateChainResult :=
  (UpdateChain.prePerform ;;
   c <- this;
   let b := UpdateChain.base c in
   let q := endpoint b ≫= query in
   let '(bdy, tempUploads) :=
     setCurrentUser b (data_of (UpdateChain.update c))
       (Some (CreateChain.uploadFile b)) false [] in
   uploads <- lift (UpdateChain_resolveUploads c
                      (default [] ((endpoint b ≫= body) ≫= Body.uploads)));
   let tempUploads := uniqByField [] (uploads ++ tempUploads) in
   files <- match tempUploads with
            | [] => ret (JObj [])
            | _ :: _ =>
                lift (moveFieldsFile tempUploads
                        (data_of (UpdateChain.update c)))
            end;
   let dflt := default JUndefined (Query.default <$> q) in
   let defaultFilter :=
     if truthy dflt
     then fst (setCurrentUser (S := unit) b dflt None false tt)
     else JUndefined in
   filter <- lift (makeQuery (data_of (UpdateChain.filter c)) defaultFilter
                     (q ≫= Query.merge) (q ≫= Query.isPrior));
   let opts := default JUndefined (Query.options <$> q) in
   ret (mkUpdateResult filter (merge bdy files)
          (if truthy opts then opts else JObj [("new", JBool true)])))%chain.

Definition DeleteChain_perform `{Collaborators} `{Utility} (options : jsval)
  : ST DeleteChain.t DeleteChainResult :=
  (DeleteChain.prePerform ;;
   c <- this;
   let q := endpoint (DeleteChain.base c) ≫= query in
   filter <- lift (makeQuery (data_of (DeleteChain.filter c))
                     (default JUndefined (Query.default <$> q))
                     (q ≫= Query.merge) (q ≫= Query.isPrior));
   ret (mkDeleteResult filter options))%chain.

(** ** The factory [Channel] *)

Module Channel.

(** The fields of [LaunchingMaxContext] that [createChain] reads. *)
Record LaunchingMaxContext := mkContext {
  body : option Obj;
  query : option Obj;
  params : option Obj;
  ip : option IP;
  endpointKey : string;
  user : UserDocument;
  method : string;
  cache : option cache_ref;
  baseAction : option string
}.

(** A [Chain] is one of the four chains. *)
Inductive Chain :=
| OfCreate (c : CreateChain.t)
| OfRead (c : ReadChain.t)
| OfUpdate (c : UpdateChain.t)
| OfDelete (c : DeleteChain.t).

Definition UnknownMethod (m : string) : exn :=
  EStatus (mkStatusError 500 "Unknown Method"
             ("There is a no Chain to create for method " +:+ m) None).

Definition createChain (now : Z) (ctx : LaunchingMaxContext)
  (iModel : string) (base : option string) : M Chain :=
  let filter := if isEmpty_obj (params ctx) then query ctx else params ctx in
  if String.eqb (method ctx) "POST" then
    (c <- CreateChain.new now iModel (body ctx) (user ctx) (endpointKey ctx)
            (str_or base (baseAction ctx)) (cache ctx) (ip ctx);
     ret (OfCreate c))%chain
  else if String.eqb (method ctx) "PUT" then
    (c <- UpdateChain.new now iModel filter (body ctx) (user ctx)
            (endpointKey ctx) base (cache ctx) (ip ctx);
     ret (OfUpdate c))%chain
  else if String.eqb (method ctx) "DELETE" then
    (c <- DeleteChain.new now iModel filter (user ctx) (endpointKey ctx)
            base (cache ctx) (ip ctx);
     ret (OfDelete c))%chain
  else if String.eqb (method ctx) "GET" then
    (c <- ReadChain.new now iModel filter (user ctx) (endpointKey ctx)
            base (cache ctx) (ip ctx);
     ret (OfRead c))%chain
  else throw (UnknownMethod (method ctx)).

(** The chain's [BaseChain] part. *)
Definition baseOf (ch : Chain) : BaseChain :=
  match ch with
  | OfCreate c => CreateChain.base c
  | OfRead c => ReadChain.base c
  | OfUpdate c => UpdateChain.base c
  | OfDelete c => DeleteChain.base c
  end.

End Channel.

(** A stand-in for [makeQuery]: the default filter's properties, then the
    request's. *)
Module SampleUtility.

Definition utility : Utility :=
  {| makeQuery := fun f d _ _ => Ok (Sample.shallowMerge d f) |}.

End SampleUtility.

(** Whether the record denies the value the object holds under a key. *)
Definition deniedBy (record : KeyValue) (o : Obj) (k : string) : Prop :=
  Exists (fun kd => fst kd = k /\
                    truthy (get_prop o k) && deniedMatch (get_prop o k) (snd kd)
                    = true) record.

#[global] Instance deniedBy_dec record o k : Decision (deniedBy record o k).
Proof. unfold deniedBy. apply _. Defined.


(** More sample data: a cache in which the sample client has used up its
    calls, a Create chain for a path the level has no endpoint for, and a
    Read chain on an endpoint whose query schema asks for a [name]. *)
Module MoreSamples.

Definition exhausted : NodeCache.store :=
  NodeCache.Store
    {[ rateKey Sample.chain Sample.client
       := NodeCache.Wrap (NodeCache.VNumber 0) 11000 ]}
    0 [].

Definition strayCreate : CreateChain.t :=
  CreateChain.mk
    (mkBase "User" Sample.alice "/nowhere" (Some "Create") (Some "User") None
       None None None None ["Create:User"])
    (Some Sample.numberDoc).

Definition searchEndpoint : EndpointSchema :=
  mkEndpoint None None None (Some "User") None
    (Some (Query.mk None None (Some Sample.nameSchema) JUndefined JUndefined
             None None None None))
    None.

Definition search (f : Obj) : ReadChain.t :=
  ReadChain.mk
    (mkBase "User" Sample.alice "/search" (Some "Read") (Some "User") None
       None None None (Some searchEndpoint) ["Read:User"])
    (Some f).

Definition avatar : Uploads :=
  mkUploads "avatar_file_url" "private" "avatars/*current_user*".


Definition filesEndpoint (us : list Uploads) : EndpointSchema :=
  mkEndpoint None None None (Some "User") None None
    (Some (Body.mk None None None JUndefined (Some us) (Some false))).

Definition filesChain (pre : string) (us : list Uploads) : BaseChain :=
  mkBase "User" Sample.alice "/files" (Some pre) (Some "User") None None None
    None (Some (filesEndpoint us)) ["Create:User"; "Update:User"].

Definition profile : Obj :=
  [("name", JStr "Bob"); ("avatar_file_url", JStr "tmp/a.png");
   ("cv_file_url", JStr "tmp/cv.pdf")].

Definition echo : Collaborators :=
  {| ajv := Sample.flatAjv;
     getEntity := fun _ => JObj Sample.nameSchema;
     parseNestedObject := fun f => f;
     merge := Sample.shallowMerge;
     moveFieldsFile :=
       fun us _ => Ok (JObj (map (fun u => (field u, JStr (directory u))) us))
  |}.

End MoreSamples.

(** * Properties *)

(** ** The cache *)

Section CacheFacts.
Import NodeCache.
Implicit Types (c : store) (d : wrapped) (key : string).

Lemma expired_false now d :
  expired now d = false <-> t d = 0 \/ now <= t d.
Proof.
  unfold expired.
  destruct (Z.eqb_spec (t d) 0), (Z.ltb_spec (t d) now); simpl; intuition lia.
Qed.

Lemma check_live now key c d :
  live now (data c) key d -> _check now key c = (Some d, c).
Proof. intros [H1 H2]. unfold _check. by rewrite H1, H2. Qed.

Lemma check_gone now key c :
  gone now (data c) key ->
  _check now key c = (None, with_data c (delete key (data c))).
Proof.
  unfold gone, _check. destruct (data c !! key) as [d|] eqn:E.
  - by intros ->.
  - intros _. rewrite delete_id by done. by destruct c.
Qed.

Lemma has_live now key c d :
  live now (data c) key d -> has now key c = (true, logged c (Has key)).
Proof. intros H. unfold has. by rewrite (check_live _ _ _ d). Qed.

Lemma has_gone now key c :
  gone now (data c) key ->
  has now key c
  = (false, with_data (logged c (Has key)) (delete key (data c))).
Proof. intros H. unfold has. by rewrite check_gone. Qed.

Lemma get_live now key c d :
  live now (data c) key d -> get now key c = (Some (v d), logged c (Get key)).
Proof. intros H. unfold get. by rewrite (check_live _ _ _ d). Qed.

Lemma getTtl_live now key c d :
  live now (data c) key d ->
  getTtl now key c = (Some (t d), logged c (GetTtl key)).
Proof. intros H. unfold getTtl. by rewrite (check_live _ _ _ d). Qed.

Lemma wrap_some now std x ms :
  ms <> 0 -> _wrap now std x (Some ms) = Wrap x (now + ms).
Proof. intros H. unfold _wrap. by destruct ms. Qed.

Lemma live_insert_ne now m key key' d d' :
  key <> key' -> live now m key d -> live now (<[key' := d']> m) key d.
Proof. intros Hne [H1 H2]. split; [by rewrite lookup_insert_ne|done]. Qed.

Lemma gone_delete now m key : gone now (delete key m) key.
Proof. unfold gone. by rewrite lookup_delete_eq. Qed.

Lemma live_delete_ne now m key key' d :
  key <> key' -> live now m key d -> live now (delete key' m) key d.
Proof. intros Hne [H1 H2]. split; [by rewrite lookup_delete_ne|done]. Qed.

Lemma gone_delete_ne now m key key' :
  gone now m key -> gone now (delete key' m) key.
Proof.
  unfold gone. destruct (decide (key' = key)) as [->|Hne].
  - by rewrite lookup_delete_eq.
  - by rewrite lookup_delete_ne.
Qed.
End CacheFacts.

(** ** The rate limiter *)

Lemma string_length_app (s1 s2 : string) :
  String.length (s1 +:+ s2) = (String.length s1 + String.length s2)%nat.
Proof. induction s1 as [|a s1 IH]; simpl; [done|by rewrite IH]. Qed.

Lemma retryKey_ne (key : string) : retryKeyOf key <> key.
Proof.
  unfold retryKeyOf. intros H. apply (f_equal String.length) in H.
  rewrite string_length_app in H. simpl in H. lia.
Qed.

Section RateLimiter.
Import NodeCache.
Variables (now windows max : Z) (c : BaseChain) (a : IP) (r : cache_ref).
Hypothesis Hip : ip c = Some a.
Hypothesis Hcache : cache c = Some r.

Let key := rateKey c a.
Let retryKey := retryKeyOf key.

Local Ltac enter :=
  unfold checkRateLimit; rewrite Hip, Hcache;
  fold key; fold retryKey; unfold bind, ask, tell, ret, throw.

Lemma clear_penalty (s : store) :
  exists s',
    bind (ask (has now retryKey))
      (fun hasRetry : bool =>
         if hasRetry then tell (del retryKey) else ret tt) s
    = (Ok tt, s') /\
    data s' = delete retryKey (data s) /\ stdTTL_ms s' = stdTTL_ms s.
Proof.
  unfold bind, ask, tell, ret.
  destruct (data s !! retryKey) as [d|] eqn:E.
  - destruct (expired now d) eqn:X.
    + rewrite has_gone by (unfold gone; by rewrite E). eauto.
    + rewrite (has_live _ _ _ d) by done. eexists; split; [done|]. done.
  - rewrite has_gone by (unfold gone; by rewrite E). eauto.
Qed.

(** No live counter: a window starts, a stale penalty entry is
    cleared. *)
Lemma checkRateLimit_fresh (s : store) :
  gone now (data s) key -> windows <> 0 ->
  exists s',
    checkRateLimit now c windows max s = (Ok c, s') /\
    data s' = <[key := Wrap (VNumber (max - 1)) (now + 1000 * windows)]>
                (delete retryKey (data s)).
Proof.
  intros Hgone Hw. enter.
  rewrite has_gone by done.
  set (s1 := with_data _ _).
  destruct (clear_penalty s1) as (s2 & E & Hd & Hstd).
  unfold bind, ask, tell, ret in E. rewrite E.
  eexists; split; [done|]. unfold seconds. simpl. rewrite Hd. subst s1. simpl.
  rewrite wrap_some by lia.
  by rewrite (delete_delete _ retryKey key), insert_delete_eq.
Qed.

(** A live counter above 0 is decremented and written back with the time
    it had left as time-to-live. *)
Lemma checkRateLimit_decrement (s : store) (n e : Z) :
  live now (data s) key (Wrap (VNumber n) e) -> n <> 0 ->
  checkRateLimit now c windows max s
  = (Ok c,
     Store (<[key := _wrap now (stdTTL_ms s) (VNumber (n - 1))
                       (Some (e - now))]> (data s))
       (stdTTL_ms s)
       (calls s ++ [Has key; Get key; GetTtl key;
                    Set_ key (VNumber (n - 1)) (Some (e - now))])).
Proof.
  intros Hlive Hn. enter.
  rewrite (has_live _ _ _ _ Hlive).
  rewrite (get_live _ _ _ (Wrap (VNumber n) e)) by done.
  cbn [v is_zero]. destruct (Z.eqb_spec n 0) as [|_]; [done|].
  rewrite (getTtl_live _ _ _ (Wrap (VNumber n) e)) by done.
  cbn. unfold set, with_data, logged. cbn.
  by rewrite <- !app_assoc.
Qed.

(** The counter is at 0 and there is no penalty entry: one is created. *)
Lemma checkRateLimit_first_denial (s : store) (e : Z) :
  live now (data s) key (Wrap (VNumber 0) e) ->
  gone now (data s) retryKey -> windows <> 0 ->
  exists s',
    checkRateLimit now c windows max s = (Throw TooManyRequest, s') /\
    data s' = <[retryKey := Wrap (VRetry (mkRetry (max * 2 - 1) 1))
                              (now + 1000 * windows)]> (data s).
Proof.
  intros Hlive Hgone Hw. enter.
  rewrite (has_live _ _ _ _ Hlive).
  rewrite (get_live _ _ _ (Wrap (VNumber 0) e)) by done.
  cbn [v is_zero Z.eqb]. unfold penalise, bind, ask, tell.
  rewrite has_gone by done. unfold throw.
  eexists; split; [done|]. unfold seconds. cbn.
  rewrite wrap_some by lia. by rewrite insert_delete_eq.
Qed.

(** The counter is at 0 and the penalty entry has calls left: one is
    taken. *)
Lemma checkRateLimit_penalty (s : store) (e e' : Z) (p : Retry) :
  live now (data s) key (Wrap (VNumber 0) e) ->
  live now (data s) retryKey (Wrap (VRetry p) e') ->
  count p <> 0 -> windows <> 0 ->
  exists s',
    checkRateLimit now c windows max s = (Throw TooManyRequest, s') /\
    data s' = <[retryKey := Wrap (VRetry (mkRetry (count p - 1) (retry p)))
                              (now + 1000 * windows)]> (data s).
Proof.
  intros Hlive Hretry Hp Hw. enter.
  rewrite (has_live _ _ _ _ Hlive).
  rewrite (get_live _ _ _ (Wrap (VNumber 0) e)) by done.
  cbn [v is_zero Z.eqb]. unfold penalise, bind, ask, tell.
  rewrite (has_live _ _ _ (Wrap (VRetry p) e')) by done.
  rewrite (get_live _ _ _ (Wrap (VRetry p) e')) by done.
  cbn [v]. destruct (Z.eqb_spec (count p) 0) as [|_]; [done|].
  unfold throw. eexists; split; [done|]. unfold seconds. cbn.
  by rewrite wrap_some by lia.
Qed.

(** The counter is at 0 and the penalty entry is used up: the escalation
    count goes up and the counter gets a window that many times as
    long. *)
Lemma checkRateLimit_escalate (s : store) (e e' : Z) (p : Retry) :
  live now (data s) key (Wrap (VNumber 0) e) ->
  live now (data s) retryKey (Wrap (VRetry p) e') ->
  count p = 0 -> windows <> 0 -> retry p + 1 <> 0 ->
  exists s',
    checkRateLimit now c windows max s = (Throw TooManyRequest, s') /\
    data s' =
      <[key := Wrap (VNumber 0) (now + 1000 * (windows * (retry p + 1)))]>
        (<[retryKey := Wrap (VRetry (mkRetry (2 * max - 1) (retry p + 1)))
                         (now + 1000 * windows)]> (data s)).
Proof.
  intros Hlive Hretry Hp Hw Hr. enter.
  rewrite (has_live _ _ _ _ Hlive).
  rewrite (get_live _ _ _ (Wrap (VNumber 0) e)) by done.
  cbn [v is_zero Z.eqb]. unfold penalise, bind, ask, tell.
  rewrite (has_live _ _ _ (Wrap (VRetry p) e')) by done.
  rewrite (get_live _ _ _ (Wrap (VRetry p) e')) by done.
  cbn [v]. rewrite Hp. cbn [Z.eqb].
  unfold throw. eexists; split; [done|]. unfold seconds. cbn.
  rewrite !wrap_some by nia. done.
Qed.

(** The same five cases, seen from the two entries of the key. *)

Lemma fresh_view (s : store) :
  gone now (data s) key -> windows <> 0 ->
  exists s',
    checkRateLimit now c windows max s = (Ok c, s') /\
    counterOf key s' = Some (Wrap (VNumber (max - 1)) (now + 1000 * windows)) /\
    penaltyOf key s' = None.
Proof.
  intros Hk Hw.
  destruct (checkRateLimit_fresh s) as (s' & E & Hd); [done|done|].
  exists s'. unfold counterOf, penaltyOf. rewrite Hd. fold retryKey.
  split; [done|]. split.
  - by rewrite lookup_insert_eq.
  - rewrite lookup_insert_ne by (symmetry; apply retryKey_ne).
    by rewrite lookup_delete_eq.
Qed.

Lemma decrement_view (s : store) (n e : Z) :
  counterOf key s = Some (Wrap (VNumber n) e) -> n <> 0 -> now < e ->
  exists s',
    checkRateLimit now c windows max s = (Ok c, s') /\
    counterOf key s' = Some (Wrap (VNumber (n - 1)) e) /\
    penaltyOf key s' = penaltyOf key s.
Proof.
  intros Hk Hn He.
  rewrite (checkRateLimit_decrement s n e); [|split; [done|]|done].
  2:{ apply expired_false. simpl. lia. }
  eexists; split; [done|]. unfold counterOf, penaltyOf. simpl.
  rewrite wrap_some by lia. split.
  - rewrite lookup_insert_eq. do 2 f_equal. lia.
  - by rewrite lookup_insert_ne by (symmetry; apply retryKey_ne).
Qed.

Lemma first_denial_view (s : store) (e : Z) :
  counterOf key s = Some (Wrap (VNumber 0) e) -> now <= e ->
  penaltyOf key s = None -> windows <> 0 ->
  exists s',
    checkRateLimit now c windows max s = (Throw TooManyRequest, s') /\
    counterOf key s' = Some (Wrap (VNumber 0) e) /\
    penaltyOf key s'
    = Some (Wrap (VRetry (mkRetry (max * 2 - 1) 1)) (now + 1000 * windows)).
Proof.
  intros Hk He Hr Hw.
  destruct (checkRateLimit_first_denial s e) as (s' & E & Hd); [| |done|].
  { split; [done|]. apply expired_false. simpl. lia. }
  { unfold gone. change (data s !! retryKey) with (penaltyOf key s).
    by rewrite Hr. }
  exists s'. unfold counterOf, penaltyOf. rewrite Hd. fold retryKey.
  split; [done|]. split.
  - by rewrite lookup_insert_ne by apply retryKey_ne.
  - by rewrite lookup_insert_eq.
Qed.

Lemma penalty_view (s : store) (e e' : Z) (p : Retry) :
  counterOf key s = Some (Wrap (VNumber 0) e) -> now <= e ->
  penaltyOf key s = Some (Wrap (VRetry p) e') -> now <= e' ->
  count p <> 0 -> windows <> 0 ->
  exists s',
    checkRateLimit now c windows max s = (Throw TooManyRequest, s') /\
    counterOf key s' = Some (Wrap (VNumber 0) e) /\
    penaltyOf key s'
    = Some (Wrap (VRetry (mkRetry (count p - 1) (retry p)))
              (now + 1000 * windows)).
Proof.
  intros Hk He Hr He' Hp Hw.
  destruct (checkRateLimit_penalty s e e' p) as (s' & E & Hd);
    [| |done|done|].
  { split; [done|]. apply expired_false. simpl. lia. }
  { split; [done|]. apply expired_false. simpl. lia. }
  exists s'. unfold counterOf, penaltyOf. rewrite Hd. fold retryKey.
  split; [done|]. split.
  - by rewrite lookup_insert_ne by apply retryKey_ne.
  - by rewrite lookup_insert_eq.
Qed.

Lemma escalate_view (s : store) (e e' : Z) (p : Retry) :
  counterOf key s = Some (Wrap (VNumber 0) e) -> now <= e ->
  penaltyOf key s = Some (Wrap (VRetry p) e') -> now <= e' ->
  count p = 0 -> windows <> 0 -> retry p + 1 <> 0 ->
  exists s',
    checkRateLimit now c windows max s = (Throw TooManyRequest, s') /\
    counterOf key s'
    = Some (Wrap (VNumber 0) (now + 1000 * (windows * (retry p + 1)))) /\
    penaltyOf key s'
    = Some (Wrap (VRetry (mkRetry (2 * max - 1) (retry p + 1)))
              (now + 1000 * windows)).
Proof.
  intros Hk He Hr He' Hp Hw Hr1.
  destruct (checkRateLimit_escalate s e e' p) as (s' & E & Hd);
    [| |done|done|done|].
  { split; [done|]. apply expired_false. simpl. lia. }
  { split; [done|]. apply expired_false. simpl. lia. }
  exists s'. unfold counterOf, penaltyOf. rewrite Hd. fold retryKey.
  split; [done|]. split.
  - by rewrite lookup_insert_eq.
  - rewrite lookup_insert_ne by (symmetry; apply retryKey_ne).
    by rewrite lookup_insert_eq.
Qed.
End RateLimiter.

(** C1 (as the code has it).  Window 10 s, at most 3 calls, one (path,
    address) key, ten requests inside the window the first one opens, that
    is, while the counter of request 1 lives: requests 1 to 3 pass and
    count the counter down; request 4 is refused with status 429 and
    creates the penalty entry with escalation 1 and 2 * 3 - 1 = 5 calls
    left; requests 5 to 9 are refused, each taking one of those calls and
    leaving the escalation at 1; request 10, the next refusal once none is
    left, raises the escalation to 2 and gives the counter a window of
    10 * 2 = 20 s.  What refuses requests 5 to 10 is the counter standing
    at 0; the penalty entry outlives it (it is set for ten seconds from
    the last refusal) and refuses nothing by itself. *)
Theorem C1_rate_limit_scenario (c : BaseChain) (a : IP) (r : cache_ref)
  (s0 : NodeCache.store) (t1 t2 t3 t4 t5 t6 t7 t8 t9 t10 : Z) :
  ip c = Some a -> cache c = Some r ->
  NodeCache.gone t1 (NodeCache.data s0) (rateKey c a) ->
  Forall (fun t => t1 <= t < t1 + 10000) [t2; t3; t4; t5; t6; t7; t8; t9; t10] ->
  let key := rateKey c a in
  let counter n e := Some (NodeCache.Wrap (NodeCache.VNumber n) e) in
  let penalty esc n e :=
    Some (NodeCache.Wrap (NodeCache.VRetry (NodeCache.mkRetry n esc)) e) in
  exists s1 s2 s3 s4 s5 s6 s7 s8 s9 s10,
    requests c 10 3 [t1; t2; t3; t4; t5; t6; t7; t8; t9; t10] s0
    = [(Ok c, s1); (Ok c, s2); (Ok c, s3);
       (Throw TooManyRequest, s4); (Throw TooManyRequest, s5);
       (Throw TooManyRequest, s6); (Throw TooManyRequest, s7);
       (Throw TooManyRequest, s8); (Throw TooManyRequest, s9);
       (Throw TooManyRequest, s10)] /\
    status_of TooManyRequest = Some 429 /\
    (counterOf key s1 = counter 2 (t1 + 10000) /\ penaltyOf key s1 = None) /\
    (counterOf key s2 = counter 1 (t1 + 10000) /\ penaltyOf key s2 = None) /\
    (counterOf key s3 = counter 0 (t1 + 10000) /\ penaltyOf key s3 = None) /\
    penaltyOf key s4 = penalty 1 5 (t4 + 10000) /\
    penaltyOf key s5 = penalty 1 4 (t5 + 10000) /\
    penaltyOf key s6 = penalty 1 3 (t6 + 10000) /\
    penaltyOf key s7 = penalty 1 2 (t7 + 10000) /\
    penaltyOf key s8 = penalty 1 1 (t8 + 10000) /\
    penaltyOf key s9 = penalty 1 0 (t9 + 10000) /\
    penaltyOf key s10 = penalty 2 5 (t10 + 10000) /\
    counterOf key s10 = counter 0 (t10 + 20000).
Proof.
  intros Hip Hcache Hgone Hts key counter penalty.
  repeat match goal with
         | H : Forall _ (_ :: _) |- _ => apply Forall_cons in H as [? H]
         end.
  destruct (fresh_view t1 10 3 c a r Hip Hcache s0) as (s1 & E1 & K1 & P1);
    [done|done|].
  destruct (decrement_view t2 10 3 c a r Hip Hcache s1 2 (t1 + 10000))
    as (s2 & E2 & K2 & P2); [done|done|lia|]. rewrite P1 in P2.
  destruct (decrement_view t3 10 3 c a r Hip Hcache s2 1 (t1 + 10000))
    as (s3 & E3 & K3 & P3); [done|done|lia|]. rewrite P2 in P3.
  destruct (first_denial_view t4 10 3 c a r Hip Hcache s3 (t1 + 10000))
    as (s4 & E4 & K4 & P4); [done|lia|done|done|].
  destruct (penalty_view t5 10 3 c a r Hip Hcache s4 _ _ _ K4 ltac:(lia) P4)
    as (s5 & E5 & K5 & P5); [lia|done|done|].
  destruct (penalty_view t6 10 3 c a r Hip Hcache s5 _ _ _ K5 ltac:(lia) P5)
    as (s6 & E6 & K6 & P6); [lia|done|done|].
  destruct (penalty_view t7 10 3 c a r Hip Hcache s6 _ _ _ K6 ltac:(lia) P6)
    as (s7 & E7 & K7 & P7); [lia|done|done|].
  destruct (penalty_view t8 10 3 c a r Hip Hcache s7 _ _ _ K7 ltac:(lia) P7)
    as (s8 & E8 & K8 & P8); [lia|done|done|].
  destruct (penalty_view t9 10 3 c a r Hip Hcache s8 _ _ _ K8 ltac:(lia) P8)
    as (s9 & E9 & K9 & P9); [lia|done|done|].
  destruct (escalate_view t10 10 3 c a r Hip Hcache s9 _ _ _ K9 ltac:(lia) P9)
    as (s10 & E10 & K10 & P10); [lia|done|done|done|].
  exists s1, s2, s3, s4, s5, s6, s7, s8, s9, s10.
  split.
  { cbn [requests]. rewrite E1; cbn [snd]. rewrite E2; cbn [snd].
    rewrite E3; cbn [snd]. rewrite E4; cbn [snd]. rewrite E5; cbn [snd].
    rewrite E6; cbn [snd]. rewrite E7; cbn [snd]. rewrite E8; cbn [snd].
    rewrite E9; cbn [snd]. rewrite E10; cbn [snd]. done. }
  split; [done|].
  unfold counter, penalty. simpl in *.
  repeat split; done.
Qed.

(** C1 (as stated).  The penalty entry living is not enough for a request
    to be refused.  Requests 1 to 3 at 1000, 1100 and 1200 ms, request 4 at
    10900 ms: it is refused and leaves a penalty entry that lives until
    20900 ms, while the counter ends at 11000 ms.  Request 5 at 12000 ms
    finds the penalty entry alive and the counter gone: it passes, the
    penalty entry is deleted and a new counter is started. *)
Lemma C1_counterexample :
  exists s1 s2 s3 s4 s5,
    requests Sample.chain 10 3 [1000; 1100; 1200; 10900; 12000]
      NodeCache.empty
    = [(Ok Sample.chain, s1); (Ok Sample.chain, s2); (Ok Sample.chain, s3);
       (Throw TooManyRequest, s4); (Ok Sample.chain, s5)] /\
    penaltyOf (rateKey Sample.chain Sample.client) s4
    = Some (NodeCache.Wrap (NodeCache.VRetry (NodeCache.mkRetry 5 1)) 20900) /\
    ~ NodeCache.gone 12000 (NodeCache.data s4)
        (retryKeyOf (rateKey Sample.chain Sample.client)) /\
    NodeCache.gone 12000 (NodeCache.data s4)
      (rateKey Sample.chain Sample.client) /\
    penaltyOf (rateKey Sample.chain Sample.client) s5 = None /\
    counterOf (rateKey Sample.chain Sample.client) s5
    = Some (NodeCache.Wrap (NodeCache.VNumber 2) 22000).
Proof.
  do 5 eexists. split; [vm_compute; reflexivity|].
  split; [vm_compute; reflexivity|].
  split; [vm_compute; intros H; discriminate H|].
  split; [vm_compute; reflexivity|].
  split; vm_compute; reflexivity.
Qed.

(** C5 (the code at the instant of expiry).  A counter written at time
    1000 with a 10 s window expires at 11000.  A request at exactly 11000
    still finds it, takes one call and writes it back with the time that
    is left, 0 -- which the cache reads as "never expires": the entry has
    lost its window boundary and is still there at any later time. *)
Theorem C5_decrement_at_expiry_instant :
  exists s1 s2,
    requests Sample.chain 10 3 [1000; 11000] NodeCache.empty
    = [(Ok Sample.chain, s1); (Ok Sample.chain, s2)] /\
    counterOf (rateKey Sample.chain Sample.client) s1
    = Some (NodeCache.Wrap (NodeCache.VNumber 2) 11000) /\
    counterOf (rateKey Sample.chain Sample.client) s2
    = Some (NodeCache.Wrap (NodeCache.VNumber 1) 0) /\
    last (NodeCache.calls s2)
    = Some (NodeCache.Set_ (rateKey Sample.chain Sample.client)
              (NodeCache.VNumber 1) (Some 0)) /\
    forall later,
      NodeCache.live later (NodeCache.data s2)
        (rateKey Sample.chain Sample.client)
        (NodeCache.Wrap (NodeCache.VNumber 1) 0).
Proof.
  do 2 eexists. split; [vm_compute; reflexivity|].
  split; [vm_compute; reflexivity|].
  split; [vm_compute; reflexivity|].
  split; [vm_compute; reflexivity|].
  intros later. split; [vm_compute; reflexivity|reflexivity].
Qed.

(** X1.  While the counter has calls and time left, a check lets the
    request pass, takes one call and writes the counter back with the time
    that was left as time-to-live: the expiry time stays what it was, the
    cache sees [has], [get], [getTtl] and [set] on the key and nothing
    else, and no other key changes. *)
Lemma decrement_keeps_boundary (now windows max : Z) (c : BaseChain) (a : IP)
  (r : cache_ref) (s : NodeCache.store) (n e : Z) :
  ip c = Some a -> cache c = Some r ->
  counterOf (rateKey c a) s = Some (NodeCache.Wrap (NodeCache.VNumber n) e) ->
  0 < n -> now < e ->
  exists s',
    checkRateLimit now c windows max s = (Ok c, s') /\
    counterOf (rateKey c a) s'
    = Some (NodeCache.Wrap (NodeCache.VNumber (n - 1)) e) /\
    NodeCache.calls s'
    = (NodeCache.calls s ++
       [NodeCache.Has (rateKey c a); NodeCache.Get (rateKey c a);
        NodeCache.GetTtl (rateKey c a);
        NodeCache.Set_ (rateKey c a) (NodeCache.VNumber (n - 1))
          (Some (e - now))])%list /\
    forall key', key' <> rateKey c a ->
      NodeCache.data s' !! key' = NodeCache.data s !! key'.
Proof.
  intros Hip Hcache Hk Hn He.
  rewrite (checkRateLimit_decrement now windows max c a r Hip Hcache s n e);
    [|split; [done|apply expired_false; simpl; lia]|lia].
  eexists; split; [done|]. unfold counterOf. simpl.
  rewrite wrap_some by lia. split; [|split; [done|]].
  - rewrite lookup_insert_eq. do 2 f_equal. lia.
  - intros key' Hne. by rewrite lookup_insert_ne.
Qed.

(** X3.  A check that finds no live counter opens a window: the counter
    is created with [max - 1] calls and the window as time-to-live, a
    penalty entry left over from before is cleared, and the request
    passes. *)
Lemma fresh_window_clears_penalty (now windows max : Z) (c : BaseChain)
  (a : IP) (r : cache_ref) (s : NodeCache.store) :
  ip c = Some a -> cache c = Some r ->
  NodeCache.gone now (NodeCache.data s) (rateKey c a) -> windows <> 0 ->
  exists s',
    checkRateLimit now c windows max s = (Ok c, s') /\
    counterOf (rateKey c a) s'
    = Some (NodeCache.Wrap (NodeCache.VNumber (max - 1))
              (now + 1000 * windows)) /\
    penaltyOf (rateKey c a) s' = None /\
    forall key',
      key' <> rateKey c a -> key' <> retryKeyOf (rateKey c a) ->
      NodeCache.data s' !! key' = NodeCache.data s !! key'.
Proof.
  intros Hip Hcache Hgone Hw.
  destruct (checkRateLimit_fresh now windows max c a r Hip Hcache s Hgone Hw)
    as (s' & E & Hd).
  exists s'. split; [exact E|]. unfold counterOf, penaltyOf. rewrite Hd.
  split; [by rewrite lookup_insert_eq|]. split.
  - rewrite lookup_insert_ne by (symmetry; apply retryKey_ne).
    by rewrite lookup_delete_eq.
  - intros key' Hk Hr.
    by rewrite lookup_insert_ne, lookup_delete_ne.
Qed.

(** C10.  A chain that was given no client address, or no cache, is never
    rate limited: [checkRateLimit] returns the chain at once and leaves
    the cache as it was, its record of calls included; and the constructor
    of such a chain does not touch the cache and does not refuse with
    status 429, whatever rate limit the endpoint declares. *)
Theorem C10_no_address_or_no_cache (now : Z) (s : NodeCache.store) :
  (forall (c : BaseChain) (windows max : Z),
      ip c = None \/ cache c = None ->
      checkRateLimit now c windows max s = (Ok c, s)) /\
  (forall model usr pth pre base ch addr,
      addr = None \/ ch = None ->
      snd (BaseChain_new now model usr pth pre base ch addr s) = s /\
      ~ throws_status (fst (BaseChain_new now model usr pth pre base ch addr s))
          429 /\
      forall c,
        fst (BaseChain_new now model usr pth pre base ch addr s) = Ok c ->
        ip c = addr /\ cache c = ch).
Proof.
  split.
  - intros c windows max [H|H]; unfold checkRateLimit; rewrite H; [done|].
    by destruct (ip c).
  - intros model usr pth pre base ch addr H.
    unfold BaseChain_new, bind, lift.
    set (c0 := mkBase _ _ _ _ _ _ _ _ _ _ _).
    assert (E : match ch, addr, (level usr ≫= (fun l => endpoints l pth))
                                 ≫= rateLimit with
                | Some _, Some _, Some rl =>
                    checkRateLimit now c0 (ttl rl) (max rl)
                | _, _, _ => ret c0
                end s = (Ok c0, s)).
    { destruct H as [-> | ->]; [by destruct ch|done]. }
    rewrite E. clear E.
    unfold when, visitorVisit, checkAction, checkIfUserIs, validateAction.
    repeat (case_match; simplify_eq/=);
      (split; [done|]); (split; [|try done]);
      try (intros (e & He & Hs); simplify_eq/=; done);
      try (intros c' Hc'; simplify_eq/=; done).
Qed.

(** ** Denied keys *)

Lemma get_prop_delete_eq (o : Obj) (k : string) :
  get_prop (delete_prop o k) k = JUndefined.
Proof.
  induction o as [|[k' x] o IH]; [done|].
  unfold delete_prop in *. rewrite filter_cons. simpl.
  case_decide as Hk; simpl; [|done].
  destruct (String.eqb_spec k' k); [done|]. apply IH.
Qed.

Lemma get_prop_delete_ne (o : Obj) (k k' : string) :
  k <> k' -> get_prop (delete_prop o k') k = get_prop o k.
Proof.
  intros Hne. induction o as [|[k0 x] o IH]; [done|].
  unfold delete_prop in *. rewrite filter_cons. simpl.
  case_decide as Hk; simpl.
  - by rewrite IH.
  - rewrite IH. destruct (String.eqb_spec k0 k); [congruence|done].
Qed.

Lemma has_prop_delete_ne (o : Obj) (k k' : string) :
  k <> k' -> has_prop (delete_prop o k') k = has_prop o k.
Proof.
  intros Hne. induction o as [|[k0 x] o IH]; [done|].
  unfold delete_prop, has_prop in *. rewrite filter_cons. simpl.
  case_decide as Hk; simpl.
  - by rewrite IH.
  - rewrite IH. destruct (String.eqb_spec k0 k); [congruence|done].
Qed.

Lemma falsy_not_truthy (x : jsval) : falsy x -> truthy x = false.
Proof. by intros [->|[->|[->|[->| ->]]]]. Qed.

(** In deletion mode the scanners cannot fail: they compute [dropKeys]
    and [dropValues]. *)
Lemma scanKeys_delete (c : BaseChain) (pa : option string)
  (keys : list string) (o : Obj) :
  scanKeys c pa true keys o = (Ok tt, dropKeys keys o).
Proof.
  revert o. induction keys as [|k keys IH]; intros o; [done|].
  simpl. destruct (truthy (get_prop o k)); apply IH.
Qed.

Lemma scanKeysValue_delete (c : BaseChain) (pa : option string)
  (record : KeyValue) (o : Obj) :
  scanKeysValue c pa true record o = (Ok tt, dropValues record o).
Proof.
  revert o. induction record as [|[k d] record IH]; intros o; [done|].
  simpl. destruct (truthy (get_prop o k)); simpl; [|apply IH].
  destruct (deniedMatch (get_prop o k) d); apply IH.
Qed.

(** A deletion elsewhere leaves a property as it is or takes it away. *)
Lemma dropKeys_get (keys : list string) (o : Obj) (k : string) :
  get_prop (dropKeys keys o) k = get_prop o k \/
  get_prop (dropKeys keys o) k = JUndefined.
Proof.
  revert o. induction keys as [|k' keys IH]; intros o; [by left|].
  simpl. destruct (truthy (get_prop o k')); [|apply IH].
  destruct (IH (delete_prop o k')) as [E|E]; [|by right].
  rewrite E. destruct (decide (k = k')) as [->|Hne].
  - right. apply get_prop_delete_eq.
  - left. by apply get_prop_delete_ne.
Qed.

Lemma dropValues_get (record : KeyValue) (o : Obj) (k : string) :
  get_prop (dropValues record o) k = get_prop o k \/
  get_prop (dropValues record o) k = JUndefined.
Proof.
  revert o. induction record as [|[k' d] record IH]; intros o; [by left|].
  simpl. destruct (truthy (get_prop o k') && deniedMatch (get_prop o k') d);
    [|apply IH].
  destruct (IH (delete_prop o k')) as [E|E]; [|by right].
  rewrite E. destruct (decide (k = k')) as [->|Hne].
  - right. apply get_prop_delete_eq.
  - left. by apply get_prop_delete_ne.
Qed.

(** After [dropKeys] no denied key has a truthy value. *)
Lemma dropKeys_clean (keys : list string) (o : Obj) (k : string) :
  k ∈ keys -> truthy (get_prop (dropKeys keys o) k) = false.
Proof.
  revert o. induction keys as [|k' keys IH]; intros o Hk.
  - by apply elem_of_nil in Hk.
  - apply elem_of_cons in Hk as [->|Hk]; [|by apply IH].
    simpl. destruct (truthy (get_prop o k')) eqn:T.
    + destruct (dropKeys_get keys (delete_prop o k') k') as [E|E];
        rewrite E; [by rewrite get_prop_delete_eq|done].
    + destruct (dropKeys_get keys o k') as [E|E]; rewrite E; done.
Qed.

(** After [dropValues] no key holds a value the record denies. *)
Lemma dropValues_clean (record : KeyValue) (o : Obj) (k : string)
  (d : denied) :
  (k, d) ∈ record ->
  truthy (get_prop (dropValues record o) k)
  && deniedMatch (get_prop (dropValues record o) k) d = false.
Proof.
  revert o. induction record as [|[k' d'] record IH]; intros o Hk.
  - by apply elem_of_nil in Hk.
  - apply elem_of_cons in Hk as [[= <- <-]|Hk]; [|by apply IH].
    simpl.
    destruct (truthy (get_prop o k) && deniedMatch (get_prop o k) d) eqn:T.
    + destruct (dropValues_get record (delete_prop o k) k) as [E|E];
        rewrite E; [by rewrite get_prop_delete_eq|done].
    + destruct (dropValues_get record o k) as [E|E]; rewrite E; done.
Qed.

(** A key whose value is falsy is passed over, in either mode: the scan
    goes as if the key were not on the list. *)
Lemma scanKeys_skip (c : BaseChain) (pa : option string) (sd : bool)
  (keys : list string) (o : Obj) (k : string) :
  truthy (get_prop o k) = false ->
  scanKeys c pa sd keys o
  = scanKeys c pa sd (filter (fun k' => k' <> k) keys) o.
Proof.
  revert o. induction keys as [|k' keys IH]; intros o Hk; [done|].
  rewrite filter_cons. case_decide as Hne.
  - simpl. destruct (truthy (get_prop o k')).
    + destruct sd.
      * apply IH. by rewrite get_prop_delete_ne.
      * unfold bind, lift. destruct (validateAction _ _); [by apply IH|done].
    + by apply IH.
  - assert (k' = k) as -> by (by destruct (decide (k' = k))).
    simpl. rewrite Hk. by apply IH.
Qed.

Lemma scanKeysValue_skip (c : BaseChain) (pa : option string) (sd : bool)
  (record : KeyValue) (o : Obj) (k : string) :
  truthy (get_prop o k) = false ->
  scanKeysValue c pa sd record o
  = scanKeysValue c pa sd (filter (fun kd => fst kd <> k) record) o.
Proof.
  revert o. induction record as [|[k' d] record IH]; intros o Hk; [done|].
  rewrite filter_cons. simpl. case_decide as Hne.
  - simpl. destruct (truthy (get_prop o k')); [|by apply IH].
    destruct (deniedMatch (get_prop o k') d); [|by apply IH].
    destruct sd.
    + apply IH. by rewrite get_prop_delete_ne.
    + unfold bind, lift. destruct (validateAction _ _); [by apply IH|done].
  - assert (k' = k) as -> by (by destruct (decide (k' = k))).
    rewrite Hk. by apply IH.
Qed.

(** C9.  The scanners react to truthy values only.  A denied key whose
    value in the object is falsy ([undefined], [null], [0], the empty
    string or [false]) is passed over in deletion mode and in rejection
    mode alike -- the scan goes as if that key had not been listed -- and
    an object in which every denied key is falsy comes back unchanged,
    without an error. *)
Theorem C9_falsy_values_are_passed_over (c : BaseChain) (obj : Obj)
  (prefixAction : option string) (shouldDelete : bool) :
  (forall keys key,
      falsy (get_prop obj key) ->
      _checkIfKeysExist c (Some obj) (Some keys) prefixAction shouldDelete
      = _checkIfKeysExist c (Some obj)
          (Some (filter (fun k => k <> key) keys)) prefixAction shouldDelete) /\
  (forall record key,
      falsy (get_prop obj key) ->
      _checkIfKeysValueExist c (Some obj) (Some record) prefixAction
        shouldDelete
      = _checkIfKeysValueExist c (Some obj)
          (Some (filter (fun kd => fst kd <> key) record)) prefixAction
          shouldDelete) /\
  (forall keys,
      Forall (fun key => falsy (get_prop obj key)) keys ->
      _checkIfKeysExist c (Some obj) (Some keys) prefixAction shouldDelete
      = (Ok tt, Some obj)) /\
  (forall record,
      Forall (fun kd => falsy (get_prop obj (fst kd))) record ->
      _checkIfKeysValueExist c (Some obj) (Some record) prefixAction
        shouldDelete
      = (Ok tt, Some obj)).
Proof.
  repeat split.
  - intros keys key H%falsy_not_truthy. unfold _checkIfKeysExist.
    by rewrite (scanKeys_skip _ _ _ _ _ key).
  - intros record key H%falsy_not_truthy. unfold _checkIfKeysValueExist.
    by rewrite (scanKeysValue_skip _ _ _ _ _ key).
  - intros keys H. unfold _checkIfKeysExist.
    induction H as [|k keys Hk _ IH]; [done|].
    simpl. by rewrite (falsy_not_truthy _ Hk).
  - intros record H. unfold _checkIfKeysValueExist.
    induction H as [|[k d] record Hk _ IH]; [done|].
    simpl in *. by rewrite (falsy_not_truthy _ Hk).
Qed.

Lemma stripped_clean (keys : list string) (record : option KeyValue)
  (o o' : Obj) (k : string) :
  stripped (Some keys) record (Some o) = Some o' -> k ∈ keys ->
  truthy (get_prop o' k) = false.
Proof.
  intros [= <-] Hk. simpl.
  destruct (dropValues_get (default [] record) (dropKeys keys o) k) as [E|E];
    rewrite E; [by apply dropKeys_clean|done].
Qed.

Lemma checkIfKeysExist_delete (c : BaseChain) (o : option Obj)
  (keys : option (list string)) :
  _checkIfKeysExist c o keys None true
  = (Ok tt, dropKeys (default [] keys) <$> o).
Proof.
  unfold _checkIfKeysExist. destruct o as [o|], keys as [ks|]; try done.
  by rewrite scanKeys_delete.
Qed.

Lemma checkIfKeysValueExist_delete (c : BaseChain) (o : option Obj)
  (record : option KeyValue) :
  _checkIfKeysValueExist c o record None true
  = (Ok tt, dropValues (default [] record) <$> o).
Proof.
  unfold _checkIfKeysValueExist.
  destruct o as [o|], record as [r|]; try done.
  by rewrite scanKeysValue_delete.
Qed.

Lemma ReadChain_prePerform_strips `{Collaborators} (c : ReadChain.t) :
  BaseChain_prePerform (ReadChain.base c) = Ok tt ->
  let q := endpoint (ReadChain.base c) ≫= query in
  ReadChain.prePerform c
  = ReadChain.validate
      (ReadChain.mk (ReadChain.base c)
         (parseNestedObject
            (stripped (q ≫= Query.deniedKeys) (q ≫= Query.deniedKeysValue)
               (ReadChain.filter c)))).
Proof.
  destruct c as [b f]. intros Hgate q. simpl in *.
  unfold ReadChain.prePerform, bind, this, lift, put. simpl. rewrite Hgate.
  fold q. unfold whenSome, ReadChain.scanFilter. simpl.
  destruct (q ≫= Query.deniedKeys) as [ks|],
           (q ≫= Query.deniedKeysValue) as [r|]; simpl;
    rewrite ?checkIfKeysExist_delete, ?checkIfKeysValueExist_delete; simpl;
    rewrite ?checkIfKeysValueExist_delete; by destruct f.
Qed.

Lemma CreateChain_prePerform_strips `{Collaborators} (c : CreateChain.t) :
  BaseChain_prePerform (CreateChain.base c) = Ok tt ->
  let b := endpoint (CreateChain.base c) ≫= body in
  CreateChain.prePerform c
  = CreateChain.validate
      (CreateChain.mk (CreateChain.base c)
         (stripped (b ≫= Body.deniedKeys) (b ≫= Body.deniedKeysValue)
            (CreateChain.doc c))).
Proof.
  destruct c as [b d]. intros Hgate q. simpl in *.
  unfold CreateChain.prePerform, bind, this, lift. simpl. rewrite Hgate.
  fold q. unfold whenSome, CreateChain.checkIfKeysExist,
    CreateChain.checkIfKeysValueExist. simpl.
  destruct (q ≫= Body.deniedKeys) as [ks|],
           (q ≫= Body.deniedKeysValue) as [r|]; simpl;
    rewrite ?checkIfKeysExist_delete, ?checkIfKeysValueExist_delete; simpl;
    rewrite ?checkIfKeysValueExist_delete; by destruct d.
Qed.

Lemma UpdateChain_prePerform_strips `{Collaborators} (c : UpdateChain.t) :
  BaseChain_prePerform (UpdateChain.base c) = Ok tt ->
  let q := endpoint (UpdateChain.base c) ≫= query in
  let b := endpoint (UpdateChain.base c) ≫= body in
  UpdateChain.prePerform c
  = UpdateChain.validate
      (UpdateChain.mk (UpdateChain.base c)
         (stripped (q ≫= Query.deniedKeys) (q ≫= Query.deniedKeysValue)
            (UpdateChain.filter c))
         (stripped (b ≫= Body.deniedKeys) (b ≫= Body.deniedKeysValue)
            (UpdateChain.update c))).
Proof.
  destruct c as [b f u]. intros Hgate q bd. simpl in *.
  unfold UpdateChain.prePerform, bind, this, lift. simpl. rewrite Hgate.
  fold q. fold bd. unfold whenSome, UpdateChain.scanFilter,
    UpdateChain.checkIfKeysExist, UpdateChain.checkIfKeysValueExist,
    UpdateChain.scanUpdate. simpl.
  destruct (q ≫= Query.deniedKeys) as [ks|],
           (q ≫= Query.deniedKeysValue) as [r|],
           (bd ≫= Body.deniedKeys) as [ks'|],
           (bd ≫= Body.deniedKeysValue) as [r'|]; simpl;
    repeat (rewrite ?checkIfKeysExist_delete, ?checkIfKeysValueExist_delete;
            simpl);
    by destruct f, u.
Qed.

(** C2 (as the code has it).  [prePerform] scans in deletion mode in the
    Read chain and just as well in the Create and Update chains: once the
    predicate gate is passed, the denied keys and values are dropped from
    the filter (Read, Update) and from the body (Create, Update) without
    any error, and the schema step runs on what is left; no denied key
    keeps a truthy value. *)
Theorem C2_prePerform_scans_in_deletion_mode `{Collaborators} :
  (forall c : ReadChain.t,
      BaseChain_prePerform (ReadChain.base c) = Ok tt ->
      let q := endpoint (ReadChain.base c) ≫= query in
      ReadChain.prePerform c
      = ReadChain.validate
          (ReadChain.mk (ReadChain.base c)
             (parseNestedObject
                (stripped (q ≫= Query.deniedKeys) (q ≫= Query.deniedKeysValue)
                   (ReadChain.filter c))))) /\
  (forall c : CreateChain.t,
      BaseChain_prePerform (CreateChain.base c) = Ok tt ->
      let b := endpoint (CreateChain.base c) ≫= body in
      CreateChain.prePerform c
      = CreateChain.validate
          (CreateChain.mk (CreateChain.base c)
             (stripped (b ≫= Body.deniedKeys) (b ≫= Body.deniedKeysValue)
                (CreateChain.doc c)))) /\
  (forall c : UpdateChain.t,
      BaseChain_prePerform (UpdateChain.base c) = Ok tt ->
      let q := endpoint (UpdateChain.base c) ≫= query in
      let b := endpoint (UpdateChain.base c) ≫= body in
      UpdateChain.prePerform c
      = UpdateChain.validate
          (UpdateChain.mk (UpdateChain.base c)
             (stripped (q ≫= Query.deniedKeys) (q ≫= Query.deniedKeysValue)
                (UpdateChain.filter c))
             (stripped (b ≫= Body.deniedKeys) (b ≫= Body.deniedKeysValue)
                (UpdateChain.update c)))) /\
  (forall keys record o o' key,
      stripped (Some keys) record (Some o) = Some o' -> key ∈ keys ->
      truthy (get_prop o' key) = false).
Proof.
  split; [apply @ReadChain_prePerform_strips|].
  split; [apply @CreateChain_prePerform_strips|].
  split; [apply @UpdateChain_prePerform_strips|].
  intros keys record o o' key. apply stripped_clean.
Qed.

(** C2 (as stated).  The sample Create and Update chains are handed a body
    with the denied key [role]; neither [prePerform] ends in a 403 with
    the body untouched: both go through and the key is gone. *)
Lemma C2_counterexample :
  let E := Sample.collaborators in
  let create := Sample.create Sample.adminDoc in
  let update := Sample.update [] Sample.adminDoc in
  (endpoint (CreateChain.base create) ≫= body) ≫= Body.deniedKeys
  = Some ["role"] /\
  truthy (get_prop Sample.adminDoc "role") = true /\
  ~ (exists e c',
        CreateChain.prePerform create = (Throw e, c') /\
        status_of e = Some 403 /\
        CreateChain.doc c' = CreateChain.doc create) /\
  ~ (exists e c',
        UpdateChain.prePerform update = (Throw e, c') /\
        status_of e = Some 403 /\
        UpdateChain.update c' = UpdateChain.update update) /\
  fst (CreateChain.prePerform create) = Ok tt /\
  CreateChain.doc (snd (CreateChain.prePerform create))
  = Some [("name", JStr "Bob")] /\
  fst (UpdateChain.prePerform update) = Ok tt /\
  UpdateChain.update (snd (UpdateChain.prePerform update))
  = Some [("name", JStr "Bob")].
Proof.
  intros E create update.
  split; [reflexivity|]. split; [reflexivity|].
  split.
  { intros (e & c' & H & _). vm_compute in H. discriminate H. }
  split.
  { intros (e & c' & H & _). vm_compute in H. discriminate H. }
  repeat split; vm_compute; reflexivity.
Qed.

(** ** The schema matcher *)

Section Matcher.
Context `{Collaborators}.
Variables (data d : jsval).
Hypothesis Hdata : excludeFields data = Ok d.

Lemma findIndex_none (subs : list jsval) (ess : list (list ErrorObject))
  (i : nat) (errs : Errors) :
  Forall2 (fun sub es => ajv sub d = Invalid es) subs ess ->
  findIndex data subs i errs
  = Ok (None, match last ess with Some es => Some es | None => errs end).
Proof.
  intros HF. revert i errs.
  induction HF as [|sub es subs ess Hsub HF IH]; intros i errs; [done|].
  simpl. rewrite Hdata. simpl. rewrite Hsub, IH.
  destruct ess as [|es' ess]; [done|]. rewrite last_cons_cons.
  destruct (last (es' :: ess)) eqn:L; [done|]. by apply last_None in L.
Qed.

Lemma findIndex_first (subs : list jsval) (k : nat) (sub : jsval) (i : nat)
  (errs : Errors) :
  subs !! k = Some sub -> ajv sub d = Valid ->
  (forall j s, (j < k)%nat -> subs !! j = Some s -> ajv s d <> Valid) ->
  exists errs', findIndex data subs i errs = Ok (Some (i + k)%nat, errs').
Proof.
  revert k i errs. induction subs as [|s0 subs IH]; intros k i errs Hk Hv Hlt.
  - done.
  - simpl. rewrite Hdata. simpl. destruct k as [|k].
    + injection Hk as ->. rewrite Hv. rewrite Nat.add_0_r. eauto.
    + destruct (ajv s0 d) eqn:E.
      * exfalso. by apply (Hlt 0%nat s0); [lia| |].
      * destruct (IH k (S i) (Some errs0)) as [errs' E']; [done|done| |].
        { intros j s Hj Hs. apply (Hlt (S j) s); [lia|done]. }
        rewrite E'. replace (S i + k)%nat with (i + S k)%nat by lia. eauto.
Qed.
End Matcher.

(** Any-of mode as the code has it.  The branches are tried in the order
    they are declared and the first one that validates wins.  The winner's
    own default (options) is used if it is truthy; otherwise the fallback
    default (options) is used, indexed by the winner's position if the
    fallback is an array and unchanged if it is not. *)
Lemma anyOf_first_valid_branch_wins `{Collaborators} (data d : jsval)
  (schema : Obj) (subs : list jsval) (index : nat) (sub own ownOpt : jsval)
  (defaultData defaultOpt : jsval) :
  get_prop schema "anyOf" = JArr subs ->
  excludeFields data = Ok d ->
  subs !! index = Some sub ->
  ajv sub d = Valid ->
  (forall j s, (j < index)%nat -> subs !! j = Some s -> ajv s d <> Valid) ->
  prop sub "default" = Ok own ->
  prop sub "options" = Ok ownOpt ->
  exists r,
    validateDataSchema data (JObj schema) defaultData defaultOpt = Ok r /\
    isValid r = true /\
    defaultValue r
    = (if truthy own then own
       else match defaultData with
            | JArr xs => default JUndefined (xs !! index)
            | _ => defaultData
            end) /\
    defaultOption r
    = (if truthy ownOpt then ownOpt
       else match defaultOpt with
            | JArr xs => default JUndefined (xs !! index)
            | _ => defaultOpt
            end).
Proof.
  intros Hany Hd Hsub Hv Hlt Hown Hopt.
  unfold validateDataSchema. simpl. rewrite Hany. simpl.
  destruct (findIndex_first data d Hd subs index sub 0%nat None Hsub Hv Hlt)
    as [errs' E].
  rewrite E. simpl. rewrite Hsub. simpl. rewrite Hown. simpl. rewrite Hopt.
  simpl. eexists; split; [done|]. done.
Qed.

(** C3.  A declared default that is falsy is lost in any-of mode.  Let
    the winning branch declare a default that is present ([undefined] and
    [null] apart) but falsy: [false], [0], the empty string.  In any-of
    mode the code tests it with the conditional operator and returns the
    fallback default for the branch's position in its place.  Handed the
    same branch as the whole schema, the same function tests with [??] and
    returns the branch's own default.  It is the same for the options. *)
Theorem C3_anyOf_loses_falsy_default `{Collaborators} (data d : jsval)
  (schema branch : Obj) (subs : list jsval) (index : nat) (own : jsval)
  (defaultData defaultOpt : jsval) :
  get_prop schema "anyOf" = JArr subs ->
  excludeFields data = Ok d ->
  subs !! index = Some (JObj branch) ->
  ajv (JObj branch) d = Valid ->
  (forall j s, (j < index)%nat -> subs !! j = Some s -> ajv s d <> Valid) ->
  truthy (get_prop branch "anyOf") = false ->
  get_prop branch "default" = own ->
  own <> JUndefined -> own <> JNull -> truthy own = false ->
  (exists r,
      validateDataSchema data (JObj schema) defaultData defaultOpt = Ok r /\
      isValid r = true /\
      defaultValue r = getDefault defaultData index) /\
  (exists r,
      validateDataSchema data (JObj branch) defaultData defaultOpt = Ok r /\
      isValid r = true /\
      defaultValue r = own).
Proof.
  intros Hany Hd Hsub Hv Hlt Hplain Hown Hu Hn Hf. split.
  - destruct (anyOf_first_valid_branch_wins data d schema subs index
                (JObj branch) own (get_prop branch "options")
                defaultData defaultOpt)
      as (r & E & V & D & _); try done.
    { simpl. by rewrite Hown. }
    exists r. split; [done|]. split; [done|]. by rewrite D, Hf.
  - unfold validateDataSchema. simpl. rewrite Hplain, Hd. simpl.
    rewrite Hv, Hown. simpl. eexists. split; [done|]. split; [done|].
    simpl. by destruct own as [[]| |].
Qed.

(** C4.  In any-of mode, when every branch rejects the data, the result
    is invalid and its errors are those of the last branch alone (none if
    no branch was declared); the fallbacks come back as they were. *)
Theorem C4_no_branch_matches `{Collaborators} (data d : jsval)
  (schema : Obj) (subs : list jsval) (ess : list (list ErrorObject))
  (defaultData defaultOpt : jsval) :
  get_prop schema "anyOf" = JArr subs ->
  excludeFields data = Ok d ->
  Forall2 (fun sub es => ajv sub d = Invalid es) subs ess ->
  validateDataSchema data (JObj schema) defaultData defaultOpt
  = Ok (mkValidation (last ess) defaultData defaultOpt false).
Proof.
  intros Hany Hd HF.
  unfold validateDataSchema. simpl. rewrite Hany. simpl.
  rewrite (findIndex_none data d Hd subs ess 0%nat None HF). simpl.
  by destruct (last ess).
Qed.

(** ** Schema mismatch in the Create chain *)

(** C6.  A Create chain whose endpoint declares [body.schemas]: if the
    document (after the denied keys were dropped) does not match, then
    [prePerform] throws the 403 error titled "Restricted Data" with the
    matcher's errors attached, and [perform] ends in that same throw: it
    produces no descriptor. *)
Theorem C6_schema_mismatch_stops_create `{Collaborators} (c : CreateChain.t)
  (schemas : Obj) (options : jsval) (r : ValidationResult) :
  BaseChain_prePerform (CreateChain.base c) = Ok tt ->
  let b := endpoint (CreateChain.base c) ≫= body in
  b ≫= Body.schemas = Some schemas ->
  validateDataSchema
    (data_of (stripped (b ≫= Body.deniedKeys) (b ≫= Body.deniedKeysValue)
                (CreateChain.doc c)))
    (JObj schemas) (default JUndefined (Body.default <$> b)) JUndefined
  = Ok r ->
  isValid r = false ->
  let e :=
    EStatus (mkStatusError 403 "Restricted Data"
               "The data you provided violates some of our policies. Check it or consulate support."
               (errors r)) in
  exists c',
    CreateChain.prePerform c = (Throw e, c') /\
    CreateChain.perform options c = (Throw e, c') /\
    (forall descriptor, fst (CreateChain.perform options c) <> Ok descriptor).
Proof.
  intros Hgate b Hs Hv Hr e.
  assert (E : CreateChain.prePerform c
              = (Throw e,
                 CreateChain.mk (CreateChain.base c)
                   (stripped (b ≫= Body.deniedKeys)
                      (b ≫= Body.deniedKeysValue) (CreateChain.doc c)))).
  { rewrite CreateChain_prePerform_strips by done. fold b.
    unfold CreateChain.validate, bind, this, lift, throw. simpl. fold b.
    rewrite Hs, Hv. simpl. by rewrite Hr. }
  eexists. split; [exact E|].
  assert (E' : CreateChain.perform options c
               = (Throw e,
                  CreateChain.mk (CreateChain.base c)
                    (stripped (b ≫= Body.deniedKeys)
                       (b ≫= Body.deniedKeysValue) (CreateChain.doc c)))).
  { unfold CreateChain.perform, bind. by rewrite E. }
  split; [exact E'|]. intros descriptor. by rewrite E'.
Qed.

(** ** Authentication and authorization errors *)

Lemma quiet_ret {S A} (a : A) : quiet (S := S) (ret a).
Proof. intros s (e & He & _). done. Qed.

Lemma quiet_this {S} : quiet (S := S) this.
Proof. intros s (e & He & _). done. Qed.

Lemma quiet_put {S} (s0 : S) : quiet (put s0).
Proof. intros s (e & He & _). done. Qed.

Lemma quiet_lift {S A} (r : result A) : not401 r -> quiet (S := S) (lift r).
Proof. intros Hr s. exact Hr. Qed.

Lemma quiet_throw {S A} (e : exn) :
  status_of e <> Some 401 -> quiet (S := S) (A := A) (throw e).
Proof. intros He s (e' & [= <-] & Hs). done. Qed.

Lemma quiet_bind {S A B} (m : ST S A) (k : A -> ST S B) :
  quiet m -> (forall a, quiet (k a)) -> quiet (bind m k).
Proof.
  intros Hm Hk s. unfold bind. specialize (Hm s).
  destruct (m s) as [[a|e] s'] eqn:E; simpl in *; [apply Hk|].
  intros (e' & [= <-] & Hs). apply Hm. by exists e.
Qed.

Lemma quiet_whenSome {S A} (o : option A) (f : A -> ST S unit) :
  (forall a, quiet (f a)) -> quiet (whenSome o f).
Proof. intros Hf. destruct o; [apply Hf|apply quiet_ret]. Qed.

Lemma not401_Ok {A} (a : A) : not401 (Ok a).
Proof. intros (e & He & _). done. Qed.

Lemma not401_Throw {A} (e : exn) :
  status_of e <> Some 401 -> not401 (A := A) (Throw e).
Proof. intros He (e' & [= <-] & Hs). done. Qed.

Lemma not401_rbind {A B} (r : result A) (k : A -> result B) :
  not401 r -> (forall a, not401 (k a)) -> not401 (rbind r k).
Proof.
  intros Hr Hk. destruct r as [a|e]; simpl; [apply Hk|].
  intros (e' & [= <-] & Hs). apply Hr. by exists e.
Qed.

Lemma validateAction_not401 (action : string) (granted : list string) :
  not401 (validateAction action granted).
Proof.
  unfold validateAction. case_bool_decide;
    [apply not401_Ok|by apply not401_Throw].
Qed.

Lemma checkAction_not401 (c : BaseChain) (base0 : option string) :
  not401 (checkAction c base0).
Proof.
  unfold checkAction. case_match; [|by apply not401_Throw].
  apply not401_rbind; [apply validateAction_not401|].
  intros _. apply not401_Ok.
Qed.

Lemma checkIfUserIs_not401 (c : BaseChain) (users : list UserType) :
  not401 (checkIfUserIs c users).
Proof.
  unfold checkIfUserIs. case_match; [apply not401_Ok|by apply not401_Throw].
Qed.

Lemma checkUser_not401 (c : BaseChain) (u : UserType)
  (allowed : list UserType) :
  not401 (checkUser c u allowed).
Proof.
  unfold checkUser. case_match; [apply not401_Ok|by apply not401_Throw].
Qed.

Lemma gate_not401 (c : BaseChain) : not401 (BaseChain_prePerform c).
Proof.
  unfold BaseChain_prePerform.
  repeat case_match; try apply not401_Ok. by apply not401_Throw.
Qed.

Lemma scanKeys_quiet (c : BaseChain) (pa : option string) (sd : bool)
  (keys : list string) :
  quiet (scanKeys c pa sd keys).
Proof.
  induction keys as [|k keys IH]; [apply quiet_ret|].
  intros o. simpl. destruct (truthy (get_prop o k)); [|apply IH].
  destruct sd; [apply IH|].
  apply quiet_bind; [apply quiet_lift, validateAction_not401|by intros _].
Qed.

Lemma scanKeysValue_quiet (c : BaseChain) (pa : option string) (sd : bool)
  (record : KeyValue) :
  quiet (scanKeysValue c pa sd record).
Proof.
  induction record as [|[k d] record IH]; [apply quiet_ret|].
  intros o. simpl. destruct (truthy (get_prop o k)); [|apply IH].
  destruct (deniedMatch (get_prop o k) d); [|apply IH].
  destruct sd; [apply IH|].
  apply quiet_bind; [apply quiet_lift, validateAction_not401|by intros _].
Qed.

Lemma checkIfKeysExist_not401 (c : BaseChain) (obj : option Obj)
  (keys : option (list string)) (pa : option string) (sd : bool) :
  not401 (fst (_checkIfKeysExist c obj keys pa sd)).
Proof.
  unfold _checkIfKeysExist. destruct obj as [o|], keys as [ks|];
    try apply not401_Ok.
  pose proof (scanKeys_quiet c pa sd ks o) as Hq.
  by destruct (scanKeys c pa sd ks o).
Qed.

Lemma checkIfKeysValueExist_not401 (c : BaseChain) (obj : option Obj)
  (record : option KeyValue) (pa : option string) (sd : bool) :
  not401 (fst (_checkIfKeysValueExist c obj record pa sd)).
Proof.
  unfold _checkIfKeysValueExist. destruct obj as [o|], record as [r|];
    try apply not401_Ok.
  pose proof (scanKeysValue_quiet c pa sd r o) as Hq.
  by destruct (scanKeysValue c pa sd r o).
Qed.

Lemma excludeFields_not401 (x : jsval) : not401 (excludeFields x).
Proof.
  unfold excludeFields.
  repeat case_match; try apply not401_Ok; by apply not401_Throw.
Qed.

Lemma prop_not401 (x : jsval) (name : string) : not401 (prop x name).
Proof.
  unfold prop.
  repeat case_match; try apply not401_Ok; by apply not401_Throw.
Qed.

Lemma findIndex_not401 `{Collaborators} (data : jsval) (subs : list jsval)
  (i : nat) (errs : Errors) :
  not401 (findIndex data subs i errs).
Proof.
  revert i errs. induction subs as [|s subs IH]; intros i errs;
    [apply not401_Ok|].
  simpl. apply not401_rbind; [apply excludeFields_not401|].
  intros d. destruct (ajv s d); [apply not401_Ok|apply IH].
Qed.

Lemma validateDataSchema_not401 `{Collaborators} (data schema : jsval)
  (defaultData defaultOpt : jsval) :
  not401 (validateDataSchema data schema defaultData defaultOpt).
Proof.
  unfold validateDataSchema.
  apply not401_rbind; [apply prop_not401|]. intros anyOf.
  destruct (truthy anyOf).
  - destruct anyOf; try by apply not401_Throw.
    apply not401_rbind; [apply findIndex_not401|]. intros [[i|] errs]; simpl.
    + apply not401_rbind; [apply prop_not401|]. intros dflt.
      apply not401_rbind; [apply prop_not401|]. intros opt.
      apply not401_Ok.
    + apply not401_Ok.
  - apply not401_rbind; [apply excludeFields_not401|]. intros d.
    destruct (ajv schema d); [|apply not401_Ok].
    apply not401_rbind; [apply prop_not401|]. intros dflt.
    apply not401_rbind; [apply prop_not401|]. intros opt.
    apply not401_Ok.
Qed.

Local Ltac quiet_step :=
  first
    [ apply quiet_ret | apply quiet_this | apply quiet_put
    | apply quiet_lift; first [apply gate_not401
                              |apply validateDataSchema_not401]
    | apply quiet_throw; done
    | apply quiet_whenSome; intros ?
    | apply quiet_bind; [|intros ?] ].

Lemma scanned_quiet {T} (c : BaseChain) (o : option Obj) (mk : option Obj -> T)
  (scan : result unit * option Obj) :
  not401 (fst scan) -> not401 (fst (let '(r, f) := scan in (r, mk f))).
Proof. by destruct scan. Qed.

Lemma CreateChain_validate_quiet `{Collaborators} :
  quiet CreateChain.validate.
Proof.
  unfold CreateChain.validate. repeat quiet_step.
  repeat first [quiet_step | case_match].
Qed.

Lemma CreateChain_prePerform_quiet `{Collaborators} :
  quiet CreateChain.prePerform.
Proof.
  unfold CreateChain.prePerform.
  repeat first [apply CreateChain_validate_quiet | quiet_step].
  - intros s. unfold CreateChain.checkIfKeysExist.
    apply (scanned_quiet (CreateChain.base s) (CreateChain.doc s)),
      checkIfKeysExist_not401.
  - intros s. unfold CreateChain.checkIfKeysValueExist.
    apply (scanned_quiet (CreateChain.base s) (CreateChain.doc s)),
      checkIfKeysValueExist_not401.
Qed.

Lemma ReadChain_validate_quiet `{Collaborators} : quiet ReadChain.validate.
Proof.
  unfold ReadChain.validate. repeat first [quiet_step | case_match].
Qed.

Lemma ReadChain_prePerform_quiet `{Collaborators} :
  quiet ReadChain.prePerform.
Proof.
  unfold ReadChain.prePerform.
  repeat first [apply ReadChain_validate_quiet | quiet_step].
  - intros s. unfold ReadChain.scanFilter.
    apply (scanned_quiet (ReadChain.base s) (ReadChain.filter s)),
      checkIfKeysExist_not401.
  - intros s. unfold ReadChain.scanFilter.
    apply (scanned_quiet (ReadChain.base s) (ReadChain.filter s)),
      checkIfKeysValueExist_not401.
Qed.

Lemma UpdateChain_validate_quiet `{Collaborators} :
  quiet UpdateChain.validate.
Proof.
  unfold UpdateChain.validate. repeat first [quiet_step | case_match].
Qed.

Lemma UpdateChain_prePerform_quiet `{Collaborators} :
  quiet UpdateChain.prePerform.
Proof.
  unfold UpdateChain.prePerform.
  repeat first [apply UpdateChain_validate_quiet | quiet_step].
  - intros s. unfold UpdateChain.scanFilter.
    apply (scanned_quiet (UpdateChain.base s) (UpdateChain.filter s)),
      checkIfKeysExist_not401.
  - intros s. unfold UpdateChain.scanFilter.
    apply (scanned_quiet (UpdateChain.base s) (UpdateChain.filter s)),
      checkIfKeysValueExist_not401.
  - intros s. unfold UpdateChain.checkIfKeysExist, UpdateChain.scanUpdate.
    apply (scanned_quiet (UpdateChain.base s) (UpdateChain.update s)),
      checkIfKeysExist_not401.
  - intros s. unfold UpdateChain.checkIfKeysValueExist,
      UpdateChain.scanUpdate.
    apply (scanned_quiet (UpdateChain.base s) (UpdateChain.update s)),
      checkIfKeysValueExist_not401.
Qed.

Lemma DeleteChain_validate_quiet `{Collaborators} :
  quiet DeleteChain.validate.
Proof.
  unfold DeleteChain.validate. repeat first [quiet_step | case_match].
Qed.

Lemma DeleteChain_prePerform_quiet `{Collaborators} :
  quiet DeleteChain.prePerform.
Proof.
  unfold DeleteChain.prePerform.
  repeat first [apply DeleteChain_validate_quiet | quiet_step].
  - intros s. unfold DeleteChain.checkIfKeysExist, DeleteChain.scanFilter.
    apply (scanned_quiet (DeleteChain.base s) (DeleteChain.filter s)),
      checkIfKeysExist_not401.
  - intros s. unfold DeleteChain.checkIfKeysValueExist,
      DeleteChain.scanFilter.
    apply (scanned_quiet (DeleteChain.base s) (DeleteChain.filter s)),
      checkIfKeysValueExist_not401.
Qed.

Lemma quiet_ask {S A} (f : S -> A * S) : quiet (ask f).
Proof. intros s (e & He & _). unfold ask in He. by destruct (f s). Qed.

Lemma quiet_tell {S} (f : S -> S) : quiet (tell f).
Proof. intros s (e & He & _). done. Qed.

Lemma checkRateLimit_quiet (now : Z) (c : BaseChain) (windows max : Z) :
  quiet (checkRateLimit now c windows max).
Proof.
  unfold checkRateLimit, penalise.
  repeat first
    [ apply quiet_ret | apply quiet_ask | apply quiet_tell
    | apply quiet_throw; done
    | apply quiet_bind; [|intros ?]
    | case_match ].
Qed.

Lemma checkRateLimit_returns_this (now : Z) (c c' : BaseChain)
  (windows max : Z) (s : NodeCache.store) :
  fst (checkRateLimit now c windows max s) = Ok c' -> c' = c.
Proof.
  unfold checkRateLimit, penalise, bind, ask, tell, ret, throw.
  repeat case_match; simplify_eq/=; try done; by intros [= ->].
Qed.

(** C8.  [visitorVisit(canVisit)] throws the 401 error "Unauthorized"
    exactly when [canVisit] is false and the principal is a visitor, and
    passes the chain on otherwise.  No other check produces status 401:
    not the action, user-type and predicate checks, the denied-key
    scanners, the rate limiter, the schema matcher or the [prePerform] of
    any of the four chains; and when the constructor ends in a 401, the
    principal is a visitor on an endpoint that is closed to visitors. *)
Theorem C8_only_visitorVisit_gives_401 `{Collaborators} :
  (forall c canVisit,
      throws_status (visitorVisit c canVisit) 401 <->
      canVisit = false /\ type (user c) = Some Visitor) /\
  (forall c canVisit,
      ~ (canVisit = false /\ type (user c) = Some Visitor) ->
      visitorVisit c canVisit = Ok c) /\
  (forall c canVisit e,
      visitorVisit c canVisit = Throw e ->
      e = EStatus (mkStatusError 401 "Unauthorized"
                     "You need to login to access this service." None)) /\
  (forall c base, not401 (checkAction c base)) /\
  (forall c u allowed, not401 (checkUser c u allowed)) /\
  (forall c users, not401 (checkIfUserIs c users)) /\
  (forall c, not401 (BaseChain_prePerform c)) /\
  (forall c obj keys pa sd,
      not401 (fst (_checkIfKeysExist c obj keys pa sd))) /\
  (forall c obj record pa sd,
      not401 (fst (_checkIfKeysValueExist c obj record pa sd))) /\
  (forall now c windows max, quiet (checkRateLimit now c windows max)) /\
  (forall data schema defaultData defaultOpt,
      not401 (validateDataSchema data schema defaultData defaultOpt)) /\
  quiet CreateChain.prePerform /\
  quiet ReadChain.prePerform /\
  quiet UpdateChain.prePerform /\
  quiet DeleteChain.prePerform /\
  (forall now model usr pth pre base ch addr s,
      throws_status
        (fst (BaseChain_new now model usr pth pre base ch addr s)) 401 ->
      type usr = Some Visitor /\
      default false ((level usr ≫= fun l => endpoints l pth)
                       ≫= canVisitorVisit) = false).
Proof.
  split.
  { intros c canVisit. unfold visitorVisit. split.
    - intros (e & He & Hs). destruct canVisit; simpl in *; [done|].
      by case_bool_decide.
    - intros [-> Hv]. simpl. rewrite bool_decide_eq_true_2 by done.
      by exists Unauthorized. }
  split.
  { intros c canVisit Hn. unfold visitorVisit.
    destruct canVisit; simpl; [done|]. case_bool_decide; [|done].
    by destruct Hn. }
  split.
  { intros c canVisit e. unfold visitorVisit. case_match; [|done].
    by intros [= <-]. }
  split; [apply checkAction_not401|].
  split; [apply checkUser_not401|].
  split; [apply checkIfUserIs_not401|].
  split; [apply gate_not401|].
  split; [apply checkIfKeysExist_not401|].
  split; [apply checkIfKeysValueExist_not401|].
  split; [apply checkRateLimit_quiet|].
  split; [apply @validateDataSchema_not401|].
  split; [apply @CreateChain_prePerform_quiet|].
  split; [apply @ReadChain_prePerform_quiet|].
  split; [apply @UpdateChain_prePerform_quiet|].
  split; [apply @DeleteChain_prePerform_quiet|].
  intros now model usr pth pre base ch addr s.
  unfold BaseChain_new.
  set (ep := level usr ≫= _).
  set (c0 := mkBase _ _ _ _ _ _ _ _ _ _ _).
  set (rate := match ch with Some _ => _ | None => _ end).
  assert (Hrate : quiet rate).
  { unfold rate. repeat case_match; try apply quiet_ret.
    apply checkRateLimit_quiet. }
  assert (Hthis : forall c1, fst (rate s) = Ok c1 -> c1 = c0).
  { unfold rate. repeat case_match; try (by intros c1 [= <-]).
    intros c1. apply checkRateLimit_returns_this. }
  unfold bind at 1. specialize (Hrate s).
  destruct (rate s) as [[c1|e1] s1] eqn:E; simpl in *.
  2:{ intros (e & [= <-] & Hs). exfalso. apply Hrate. by exists e1. }
  rewrite (Hthis c1 eq_refl). clear Hthis Hrate E c1.
  unfold bind at 1, lift at 1, when at 1.
  change (endpoint c0) with ep.
  destruct (default false (ep ≫= canVisitorVisit)) eqn:Ev; simpl.
  - intros Hthrow. exfalso. revert Hthrow.
    apply (quiet_bind (S := NodeCache.store)
             (lift (when _ _ c0)) _); [|intros c3].
    + apply quiet_lift. unfold when. case_match; [|apply not401_Ok].
      apply checkAction_not401.
    + apply quiet_lift. repeat case_match; try apply not401_Ok.
      apply checkIfUserIs_not401.
  - unfold visitorVisit. simpl. case_bool_decide as Hv; simpl.
    + done.
    + intros Hthrow. exfalso. revert Hthrow.
      apply (quiet_bind (S := NodeCache.store)
               (lift (when _ _ c0)) _); [|intros c3].
      * apply quiet_lift. unfold when. case_match; [|apply not401_Ok].
        apply checkAction_not401.
      * apply quiet_lift. repeat case_match; try apply not401_Ok.
        apply checkIfUserIs_not401.
Qed.

(** ** [setCurrentUser] and the caller's object *)

Lemma jsval_ind (P : jsval -> Prop) :
  (forall p, P (JPrim p)) ->
  (forall xs, Forall P xs -> P (JArr xs)) ->
  (forall fs, Forall (fun kv => P (snd kv)) fs -> P (JObj fs)) ->
  forall t, P t.
Proof.
  intros Hp Ha Ho. fix IH 1. intros [p|xs|fs].
  - apply Hp.
  - apply Ha. induction xs as [|x xs IHxs];
      [constructor|constructor; [apply IH|exact IHxs]].
  - apply Ho. induction fs as [|[k x] fs IHfs];
      [constructor|constructor; [apply IH|exact IHfs]].
Qed.

Section HeapFacts.
Import Heap.
Implicit Types (h : heap) (x y : hval) (t : jsval) (l : loc).

Lemma represents_arr (P : loc -> Prop) h (ts : list jsval) x :
  represents P h (JArr ts) x <->
  exists l xs,
    x = HRef l /\ P l /\ h !! l = Some (CArr xs) /\
    Forall2 (represents P h) ts xs.
Proof.
  simpl. split; intros (l & xs & -> & Hl & Hh & Hall); exists l, xs;
    (split; [done|]); (split; [done|]); (split; [done|]); clear Hh.
  - revert xs Hall. induction ts as [|t ts IH]; intros [|x xs] Hall;
      try done; try constructor; [by destruct Hall|].
    apply IH. by destruct Hall.
  - induction Hall as [|t x ts xs Ht _ IH]; [done|by split].
Qed.

Lemma represents_obj (P : loc -> Prop) h (fs : Obj) x :
  represents P h (JObj fs) x <->
  exists l gs,
    x = HRef l /\ P l /\ h !! l = Some (CObj gs) /\
    Forall2 (fun kt kx => fst kt = fst kx /\ represents P h (snd kt) (snd kx))
      fs gs.
Proof.
  simpl. split; intros (l & gs & -> & Hl & Hh & Hall); exists l, gs;
    (split; [done|]); (split; [done|]); (split; [done|]); clear Hh.
  - revert gs Hall. induction fs as [|[k t] fs IH]; intros [|[k' x] gs] Hall;
      try done; try constructor; [by destruct Hall as (-> & Ht & _)|].
    apply IH. by destruct Hall as (_ & _ & Hall).
  - induction Hall as [|[k t] [k' x] fs gs [Hk Ht] _ IH]; [done|].
    simpl in *. by subst.
Qed.

(** A representation only looks at the cells it names. *)
Lemma represents_agree (P Q : loc -> Prop) h h' t x :
  (forall l c, P l -> h !! l = Some c -> Q l /\ h' !! l = Some c) ->
  represents P h t x -> represents Q h' t x.
Proof.
  intros Hagree. revert x.
  induction t as [p|ts IH|fs IH] using jsval_ind; intros x.
  - done.
  - rewrite !represents_arr. intros (l & xs & -> & Hl & Hh & Hall).
    destruct (Hagree l _ Hl Hh) as [Hq Hh'].
    exists l, xs. repeat split; try done.
    clear Hh Hh'. induction Hall as [|t x ts xs Ht _ IHall]; [constructor|].
    apply Forall_cons in IH as [IHt IHts].
    constructor; [by apply IHt|by apply IHall].
  - rewrite !represents_obj. intros (l & gs & -> & Hl & Hh & Hall).
    destruct (Hagree l _ Hl Hh) as [Hq Hh'].
    exists l, gs. repeat split; try done.
    clear Hh Hh'. induction Hall as [|kt kx fs gs [Hk Ht] _ IHall];
      [constructor|].
    apply Forall_cons in IH as [IHt IHts].
    constructor; [split; [done|by apply IHt]|by apply IHall].
Qed.

Lemma represents_mono (P : loc -> Prop) h h' t x :
  h ⊆ h' -> represents P h t x -> represents P h' t x.
Proof.
  intros Hsub. apply represents_agree. intros l c Hl Hh. split; [done|].
  by eapply lookup_weaken.
Qed.
End HeapFacts.

Section CloneFacts.
Import Heap.
Context {S : Type}.
Variables (u : UserDocument) (cb : option (string -> hval -> S -> S))
  (stringify : bool).
Implicit Types (h : heap) (x y : hval) (t : jsval) (l : loc) (s : S).

Let cust := userCustomizer u cb stringify.
Let expected := substituted (identity u stringify).
Let anywhere : loc -> Prop := fun _ => True.

(** [good clone t]: on every value that stands for [t], in every store,
    [clone] returns a value that stands for the substituted tree, made of
    cells that were not in the store before, which is otherwise kept. *)
Let good (clone : hval -> pkey -> heap * S -> option (hval * (heap * S)))
  (t : jsval) : Prop :=
  forall x key h s,
    represents anywhere h t x ->
    exists y h' s',
      clone x key (h, s) = Some (y, (h', s')) /\
      h ⊆ h' /\
      represents (fun l => l ∉ dom h) h' (expected t) y.

Lemma expected_prim (p : prim) :
  expected (JPrim p)
  = JPrim (if bool_decide (p = PStr sentinel)
           then default p (identity u stringify) else p).
Proof.
  unfold expected, substituted. destruct (identity u stringify); simpl;
    by case_bool_decide.
Qed.

Lemma expected_arr (ts : list jsval) :
  expected (JArr ts) = JArr (map expected ts).
Proof.
  unfold expected, substituted. destruct (identity u stringify); simpl;
    [done|]. by rewrite map_id.
Qed.

Lemma expected_obj (fs : Obj) :
  expected (JObj fs) = JObj (map (fun kv => (fst kv, expected (snd kv))) fs).
Proof.
  unfold expected, substituted. destruct (identity u stringify); simpl;
    [done|]. f_equal. induction fs as [|[k t] fs IH]; [done|].
  simpl. by rewrite <- IH.
Qed.

Lemma cloneEach_good clone (ts : list jsval) (kids : list (pkey * hval)) h s :
  Forall (good clone) ts ->
  Forall2 (fun t kx => represents anywhere h t (snd kx)) ts kids ->
  exists ys h' s',
    cloneEach clone kids (h, s) = Some (ys, (h', s')) /\
    h ⊆ h' /\
    Forall2 (fun t y => represents (fun l => l ∉ dom h) h' (expected t) y)
      ts ys.
Proof.
  intros Hgood. revert kids h s.
  induction Hgood as [|t ts Ht _ IH]; intros kids h s Hrep.
  - apply Forall2_nil_inv_l in Hrep as ->. exists [], h, s.
    repeat split; [done|constructor].
  - apply Forall2_cons_inv_l in Hrep as ([k x] & kids' & Hx & Hrep & ->).
    simpl in *.
    destruct (Ht x k h s Hx) as (y & h1 & s1 & E1 & Hsub1 & Hy).
    destruct (IH kids' h1 s1) as (ys & h' & s' & E & Hsub & Hys).
    { eapply Forall2_impl; [exact Hrep|].
      intros t' kx. by apply represents_mono. }
    rewrite E1, E. exists (y :: ys), h', s'.
    split; [done|]. split; [by etrans|].
    constructor; [by eapply represents_mono|].
    eapply Forall2_impl; [exact Hys|]. intros t' y'.
    apply represents_agree. intros l c Hl Hc. split; [|done].
    intros Hin. apply Hl. by eapply (subseteq_dom h h1).
Qed.

Lemma height_elem (ts : list jsval) (t : jsval) :
  t ∈ ts -> (height t <= foldr (fun t n => Nat.max (height t) n) 0 ts)%nat.
Proof.
  induction ts as [|t' ts IH]; intros Hin; [by apply elem_of_nil in Hin|].
  apply elem_of_cons in Hin as [->|Hin]; simpl; [lia|].
  specialize (IH Hin). lia.
Qed.

Lemma height_field (fs : Obj) (kv : string * jsval) :
  kv ∈ fs ->
  (height (snd kv)
   <= foldr (fun kv n => Nat.max (height (snd kv)) n) 0 fs)%nat.
Proof.
  induction fs as [|kv' fs IH]; intros Hin; [by apply elem_of_nil in Hin|].
  apply elem_of_cons in Hin as [->|Hin]; simpl; [lia|].
  specialize (IH Hin). lia.
Qed.

Lemma Forall2_imap_snd {A B C} (R : A -> B -> Prop) (f : nat -> C)
  (la : list A) (lb : list B) :
  Forall2 R la lb ->
  Forall2 (fun a kb => R a (snd kb)) la (imap (fun i b => (f i, b)) lb).
Proof.
  intros HF. revert f. induction HF as [|a b la lb Hab _ IH]; intros f;
    [constructor|].
  simpl. constructor; [done|]. apply (IH (f ∘ Datatypes.S)).
Qed.

Lemma customizer_prim (p : prim) (key : pkey) s :
  fst (cust (HPrim p) key s)
  = if bool_decide (p = PStr sentinel)
    then HPrim <$> identity u stringify else None.
Proof.
  unfold cust, userCustomizer. simpl. destruct p; try done.
  case_bool_decide as Hs.
  - injection Hs as ->. by rewrite String.eqb_refl.
  - destruct (String.eqb_spec s0 sentinel); [by subst|done].
Qed.

Lemma insert_fresh_subseteq h (c : cell) : h ⊆ <[fresh (dom h) := c]> h.
Proof. apply insert_subseteq, not_elem_of_dom, is_fresh. Qed.

Lemma customizer_ref l (key : pkey) s : fst (cust (HRef l) key s) = None.
Proof. done. Qed.

Lemma baseClone_unfold (n : nat) x (key : pkey) h s :
  baseClone cust (Datatypes.S n) x key (h, s)
  = match cust x key s with
    | (Some r, s') => Some (r, (h, s'))
    | (None, s') =>
        match x with
        | HPrim _ => Some (x, (h, s'))
        | HRef l =>
            match h !! l with
            | None => None
            | Some c =>
                match cloneEach (baseClone cust n) (children c)
                        (<[fresh (dom h) := hollow c]> h, s') with
                | Some (ys, (h1, s1)) =>
                    Some (HRef (fresh (dom h)),
                          (<[fresh (dom h) := rebuild c ys]> h1, s1))
                | None => None
                end
            end
        end
    end.
Proof. done. Qed.

Lemma baseClone_good (t : jsval) (fuel : nat) :
  (height t < fuel)%nat -> good (baseClone cust fuel) t.
Proof.
  revert fuel. induction t as [p|ts IH|fs IH] using jsval_ind;
    intros [|n] Hfuel; try lia; intros x key h s Hrep.
  - simpl in Hrep. subst x. rewrite baseClone_unfold.
    pose proof (customizer_prim p key s) as Hc.
    destruct (cust (HPrim p) key s) as [o s'] eqn:E. simpl in Hc. subst o.
    rewrite expected_prim.
    case_bool_decide as Hp; [destruct (identity u stringify) as [q|]|];
      simpl; eauto 10.
  - apply represents_arr in Hrep as (l & xs & -> & _ & Hl & Hall).
    rewrite baseClone_unfold. pose proof (customizer_ref l key s) as Hc.
    destruct (cust (HRef l) key s) as [o s'] eqn:E. simpl in Hc. subst o.
    rewrite Hl. cbn [children hollow rebuild].
    set (l' := fresh (dom h)). set (h0 := <[l' := CArr []]> h).
    destruct (cloneEach_good (baseClone cust n) ts
                (imap (fun i x => (KIndex i, x)) xs) h0 s')
      as (ys & h1 & s1 & Eall & Hsub & Hys).
    { apply Forall_forall. intros t Ht.
      rewrite Forall_forall in IH. apply IH; [done|].
      pose proof (height_elem ts t Ht). simpl in Hfuel. lia. }
    { apply Forall2_imap_snd. eapply Forall2_impl; [exact Hall|].
      intros t x. apply represents_mono, insert_fresh_subseteq. }
    rewrite Eall. exists (HRef l'), (<[l' := CArr ys]> h1), s1.
    split; [done|]. split.
    { apply insert_subseteq_r; [apply not_elem_of_dom, is_fresh|].
      etrans; [apply insert_fresh_subseteq|exact Hsub]. }
    rewrite expected_arr. apply represents_arr.
    exists l', ys. split; [done|]. split; [apply is_fresh|].
    split; [by rewrite lookup_insert_eq|].
    apply Forall2_fmap_l. eapply Forall2_impl; [exact Hys|].
    intros t y. apply represents_agree. intros l0 c Hl0 Hc.
    assert (l0 <> l').
    { intros ->. apply Hl0. unfold h0. rewrite dom_insert_L. set_solver. }
    split; [|by rewrite lookup_insert_ne].
    intros Hin. apply Hl0. unfold h0. rewrite dom_insert_L. set_solver.
  - apply represents_obj in Hrep as (l & gs & -> & _ & Hl & Hall).
    rewrite baseClone_unfold. pose proof (customizer_ref l key s) as Hc.
    destruct (cust (HRef l) key s) as [o s'] eqn:E. simpl in Hc. subst o.
    rewrite Hl. cbn [children hollow rebuild].
    set (l' := fresh (dom h)). set (h0 := <[l' := CObj []]> h).
    destruct (cloneEach_good (baseClone cust n) (map snd fs)
                (map (fun kv => (KName (fst kv), snd kv)) gs) h0 s')
      as (ys & h1 & s1 & Eall & Hsub & Hys).
    { apply Forall_forall. intros t Ht.
      apply list_elem_of_fmap in Ht as (kv & -> & Hkv).
      rewrite Forall_forall in IH. apply IH; [done|].
      pose proof (height_field fs kv Hkv). simpl in Hfuel. lia. }
    { apply Forall2_fmap. eapply Forall2_impl; [exact Hall|].
      intros kt kx [_ Hr]. simpl.
      eapply represents_mono; [apply insert_fresh_subseteq|exact Hr]. }
    rewrite Eall.
    exists (HRef l'), (<[l' := CObj (zip (map fst gs) ys)]> h1), s1.
    split; [done|]. split.
    { apply insert_subseteq_r; [apply not_elem_of_dom, is_fresh|].
      etrans; [apply insert_fresh_subseteq|exact Hsub]. }
    rewrite expected_obj. apply represents_obj.
    exists l', (zip (map fst gs) ys). split; [done|].
    split; [apply is_fresh|]. split; [by rewrite lookup_insert_eq|].
    assert (Hys' :
      Forall2 (fun t y => represents (fun l => l ∉ dom h)
                            (<[l' := CObj (zip (map fst gs) ys)]> h1)
                            (expected t) y) (map snd fs) ys).
    { eapply Forall2_impl; [exact Hys|].
      intros t y. apply represents_agree. intros l0 c Hl0 Hc.
      assert (l0 <> l').
      { intros ->. apply Hl0. unfold h0. rewrite dom_insert_L. set_solver. }
      split; [|by rewrite lookup_insert_ne].
      intros Hin. apply Hl0. unfold h0. rewrite dom_insert_L. set_solver. }
    clear Hys Eall IH Hl Hfuel.
    generalize dependent (<[l' := CObj (zip (map fst gs) ys)]> h1).
    intros hf Hys'. revert ys Hys'.
    induction Hall as [|kt kx fs gs [Hk _] _ IHall]; intros ys Hys'.
    + apply Forall2_nil_inv_l in Hys' as ->. constructor.
    + apply Forall2_cons_inv_l in Hys' as (y & ys' & Hy & Hys' & ->).
      simpl. constructor; [by split|]. by apply IHall.
Qed.
End CloneFacts.

(** X2.  On value trees [setCurrentUser] is the substitution: every
    scalar equal to the sentinel becomes the principal's identity, and
    for a principal without an [_id] the data comes back as it was. *)
Lemma setCurrentUser_substitutes {S} (c : BaseChain) (data : jsval)
  (cb : option (string -> jsval -> S -> S)) (stringify : bool) (s : S) :
  fst (setCurrentUser c data cb stringify s)
  = substituted (identity (user c) stringify) data.
Proof.
  unfold setCurrentUser, cloneDeepWith. generalize KNone. revert s.
  induction data as [p|xs IH|fs IH] using jsval_ind; intros s key.
  - simpl. unfold substituted. destruct p; simpl;
      try (by destruct (identity (user c) stringify)).
    destruct (String.eqb_spec s0 sentinel) as [->|Hne].
    + rewrite bool_decide_eq_true_2 by done.
      by destruct (identity (user c) stringify).
    + destruct (identity (user c) stringify); simpl; [|done].
      rewrite bool_decide_eq_false_2; [done|congruence].
  - simpl. set (s' := match cb with Some _ => _ | None => _ end).
    assert (E : forall i s0,
      fst ((fix elements (xs0 : list jsval) (i0 : nat) (s1 : S) {struct xs0} :=
              match xs0 with
              | [] => ([], s1)
              | x :: xs' =>
                  let '(y, s2) :=
                    baseClone (userCustomizer (user c) cb stringify) x
                      (KIndex i0) s1 in
                  let '(ys, s3) := elements xs' (Datatypes.S i0) s2 in
                  (y :: ys, s3)
              end) xs i s0)
      = map (substituted (identity (user c) stringify)) xs).
    { induction IH as [|x xs Hx _ IHxs]; intros i s0; [done|].
      specialize (Hx s0 (KIndex i)).
      destruct (baseClone _ x (KIndex i) s0) as [y s2]. simpl in Hx. subst y.
      specialize (IHxs (Datatypes.S i) s2).
      destruct ((fix elements (xs0 : list jsval) (i0 : nat) (s1 : S) := _)
                  xs (Datatypes.S i) s2) as [ys s3].
      simpl in *. by subst ys. }
    specialize (E 0%nat s').
    destruct ((fix elements (xs0 : list jsval) (i0 : nat) (s1 : S) := _)
                xs 0%nat s') as [ys s3].
    simpl in *. subst ys. unfold substituted.
    destruct (identity (user c) stringify); simpl; [done|by rewrite map_id].
  - simpl. set (s' := match cb with Some _ => _ | None => _ end).
    assert (E : forall s0,
      fst ((fix properties (fs0 : Obj) (s1 : S) {struct fs0} :=
              match fs0 with
              | [] => ([], s1)
              | (k, x) :: fs' =>
                  let '(y, s2) :=
                    baseClone (userCustomizer (user c) cb stringify) x
                      (KName k) s1 in
                  let '(gs, s3) := properties fs' s2 in
                  ((k, y) :: gs, s3)
              end) fs s0)
      = map (fun kv => (fst kv,
                        substituted (identity (user c) stringify) (snd kv)))
          fs).
    { induction IH as [|[k x] fs Hx _ IHfs]; intros s0; [done|].
      specialize (Hx s0 (KName k)). simpl in Hx.
      destruct (baseClone _ x (KName k) s0) as [y s2]. simpl in Hx. subst y.
      specialize (IHfs s2).
      destruct ((fix properties (fs0 : Obj) (s1 : S) := _) fs s2) as [gs s3].
      simpl in *. by subst gs. }
    specialize (E s').
    destruct ((fix properties (fs0 : Obj) (s1 : S) := _) fs s') as [gs s3].
    simpl in *. subst gs. unfold substituted.
    destruct (identity (user c) stringify); simpl; [done|].
    f_equal. induction fs as [|[k t] fs IHfs]; [done|].
    simpl. apply Forall_cons in IH as [_ IH]. by rewrite IHfs.
Qed.

(** C7.  [setCurrentUser] on data held in memory, for a principal with an
    [_id]: the call returns, and what it returns is the data with every
    scalar equal to the sentinel replaced by the identity (its string if
    [stringify], the [_id] itself otherwise), held in cells none of which
    existed before; every cell that existed keeps its content, so the
    argument still is the data it was. *)
Theorem C7_setCurrentUser_copies {S} (c : BaseChain) (o : ObjectId)
  (cb : option (string -> Heap.hval -> S -> S)) (stringify : bool)
  (data : jsval) (x : Heap.hval) (h : Heap.heap) (s : S) (fuel : nat) :
  _id (user c) = Some o ->
  Heap.represents (fun _ => True) h data x ->
  (Heap.height data < fuel)%nat ->
  exists y h' s',
    Heap.setCurrentUser fuel c x cb stringify (h, s) = Some (y, (h', s')) /\
    Heap.represents (fun l => l ∉ dom h) h'
      (substituteIdentity
         (JPrim (if stringify then PStr (hex o) else PId o)) data) y /\
    (forall l cell, h !! l = Some cell -> h' !! l = Some cell) /\
    Heap.represents (fun _ => True) h' data x.
Proof.
  intros Hid Hrep Hfuel.
  destruct (baseClone_good (user c) cb stringify data fuel Hfuel x KNone h s
              Hrep) as (y & h' & s' & E & Hsub & Hy).
  exists y, h', s'. split; [exact E|].
  split.
  { unfold substituted, identity in Hy. by rewrite Hid in Hy. }
  split.
  { intros l cell Hl. by eapply lookup_weaken. }
  by eapply represents_mono.
Qed.

(** ** The theorems at the sample request *)

(** The sample chain is what the constructor builds for the sample user,
    and building it is the first request of a window. *)
Lemma sample_chain_constructed :
  exists s,
    CreateChain.new 1000 "User" (Some Sample.adminDoc) Sample.alice "/users"
      (Some "User") (Some SharedCache) (Some Sample.client) NodeCache.empty
    = (Ok (Sample.create Sample.adminDoc), s) /\
    counterOf (rateKey Sample.chain Sample.client) s
    = Some (NodeCache.Wrap (NodeCache.VNumber 2) 11000).
Proof. eexists. split; vm_compute; reflexivity. Qed.

Lemma C1_witness :
  exists s,
    last (requests Sample.chain 10 3
            [1000; 1400; 1800; 2200; 2600; 3000; 3400; 3800; 4200; 4600]
            NodeCache.empty)
    = Some (Throw TooManyRequest, s) /\
    counterOf (rateKey Sample.chain Sample.client) s
    = Some (NodeCache.Wrap (NodeCache.VNumber 0) 24600) /\
    penaltyOf (rateKey Sample.chain Sample.client) s
    = Some (NodeCache.Wrap (NodeCache.VRetry (NodeCache.mkRetry 5 2)) 14600).
Proof.
  destruct (C1_rate_limit_scenario Sample.chain Sample.client SharedCache
              NodeCache.empty 1000 1400 1800 2200 2600 3000 3400 3800 4200
              4600)
    as (s1 & s2 & s3 & s4 & s5 & s6 & s7 & s8 & s9 & s10 & E & _ & _ & _ & _
        & _ & _ & _ & _ & _ & _ & P10 & K10).
  - reflexivity.
  - reflexivity.
  - exact I.
  - repeat constructor; lia.
  - exists s10. rewrite E. split; [reflexivity|]. split; [exact K10|exact P10].
Defined.

Lemma C2_witness :
  let E := Sample.collaborators in
  let c := Sample.create Sample.adminDoc in
  let b := endpoint (CreateChain.base c) ≫= body in
  CreateChain.prePerform c
  = CreateChain.validate
      (CreateChain.mk (CreateChain.base c)
         (stripped (b ≫= Body.deniedKeys) (b ≫= Body.deniedKeysValue)
            (CreateChain.doc c))) /\
  stripped (b ≫= Body.deniedKeys) (b ≫= Body.deniedKeysValue)
    (CreateChain.doc c)
  = Some [("name", JStr "Bob")].
Proof.
  intros E c b. split; [|reflexivity].
  apply (proj1 (proj2 (@C2_prePerform_scans_in_deletion_mode E)) c).
  reflexivity.
Defined.

Lemma anyOf_first_valid_branch_wins_sample :
  let E := Sample.collaborators in
  exists r,
    validateDataSchema (JObj [("title", JStr "Notes")])
      (JObj [("anyOf", JArr [JObj Sample.nameSchema; Sample.titleSchema])])
      (JArr [JStr "first"; JStr "second"]) JUndefined
    = Ok r /\
    isValid r = true /\
    defaultValue r = JStr "second" /\
    defaultOption r = JUndefined.
Proof.
  intros E.
  apply (anyOf_first_valid_branch_wins
           (JObj [("title", JStr "Notes")]) (JObj [("title", JStr "Notes")])
           [("anyOf", JArr [JObj Sample.nameSchema; Sample.titleSchema])]
           [JObj Sample.nameSchema; Sample.titleSchema] 1
           Sample.titleSchema JUndefined JUndefined
           (JArr [JStr "first"; JStr "second"]) JUndefined);
    try reflexivity.
  intros j s Hj Hs. destruct j as [|j]; [|lia].
  injection Hs as <-. discriminate.
Defined.

Lemma C3_witness :
  let E := Sample.collaborators in
  let branch := [("type", JStr "object"); ("default", JBool false)] in
  let fallback := JArr [JObj [("active", JBool true)]] in
  (exists r,
      validateDataSchema (JObj []) (JObj [("anyOf", JArr [JObj branch])])
        fallback JUndefined = Ok r /\
      isValid r = true /\
      defaultValue r = JObj [("active", JBool true)]) /\
  (exists r,
      validateDataSchema (JObj []) (JObj branch) fallback JUndefined = Ok r /\
      isValid r = true /\
      defaultValue r = JBool false).
Proof.
  intros E branch fallback.
  apply (C3_anyOf_loses_falsy_default (JObj []) (JObj [])
           [("anyOf", JArr [JObj branch])] branch [JObj branch] 0
           (JBool false) fallback JUndefined);
    try reflexivity; try discriminate.
  intros j s Hj. lia.
Defined.

Lemma C4_witness :
  let E := Sample.collaborators in
  validateDataSchema (JObj [("name", JNum 123)])
    (JObj [("anyOf", JArr [JObj Sample.nameSchema; Sample.titleSchema])])
    (JStr "fallback") JUndefined
  = Ok (mkValidation
          (Some [mkErrorObject "must have required property"])
          (JStr "fallback") JUndefined false).
Proof.
  intros E.
  apply (C4_no_branch_matches
           (JObj [("name", JNum 123)]) (JObj [("name", JNum 123)])
           [("anyOf", JArr [JObj Sample.nameSchema; Sample.titleSchema])]
           [JObj Sample.nameSchema; Sample.titleSchema]
           [[mkErrorObject "must match the type of name"];
            [mkErrorObject "must have required property"]]
           (JStr "fallback") JUndefined);
    [reflexivity|reflexivity|].
  repeat constructor.
Defined.

Lemma C6_witness :
  let E := Sample.collaborators in
  exists c',
    CreateChain.perform JUndefined (Sample.create Sample.numberDoc)
    = (Throw (EStatus (mkStatusError 403 "Restricted Data"
                         "The data you provided violates some of our policies. Check it or consulate support."
                         (Some [mkErrorObject "must match the type of name"]))),
       c').
Proof.
  intros E.
  destruct (C6_schema_mismatch_stops_create
              (Sample.create Sample.numberDoc) Sample.nameSchema JUndefined
              (mkValidation
                 (Some [mkErrorObject "must match the type of name"])
                 JUndefined JUndefined false))
    as (c' & _ & Hperform & _); try reflexivity.
  exists c'. exact Hperform.
Defined.

Lemma C7_witness :
  exists y h' s',
    Heap.setCurrentUser 2 Sample.chain (Heap.HRef 1) None false
      (SampleHeap.ownerHeap, tt)
    = Some (y, (h', s')) /\
    Heap.represents (fun l => l ∉ dom SampleHeap.ownerHeap) h'
      (JObj [("owner", JPrim (PId (mkObjectId "64b0c0ffee")))]) y /\
    h' !! 1%positive
    = Some (Heap.CObj [("owner", Heap.HPrim (PStr sentinel))]).
Proof.
  destruct (C7_setCurrentUser_copies Sample.chain (mkObjectId "64b0c0ffee")
              None false SampleHeap.ownerTree (Heap.HRef 1)
              SampleHeap.ownerHeap tt 2)
    as (y & h' & s' & E & Hy & Hkeep & _).
  - reflexivity.
  - simpl. eexists 1%positive, _. repeat split; reflexivity.
  - simpl. lia.
  - exists y, h', s'. split; [exact E|]. split; [exact Hy|].
    apply Hkeep. reflexivity.
Defined.

Lemma C8_witness :
  let E := Sample.collaborators in
  throws_status (visitorVisit Sample.visitorChain false) 401 /\
  visitorVisit Sample.chain false = Ok Sample.chain.
Proof.
  intros E. split.
  - apply (proj1 (@C8_only_visitorVisit_gives_401 E)). split; reflexivity.
  - apply (proj1 (proj2 (@C8_only_visitorVisit_gives_401 E))).
    intros [_ Hv]. discriminate Hv.
Defined.

Lemma C9_witness :
  _checkIfKeysExist Sample.chain
    (Some [("role", JNum 0); ("name", JStr "Bob")]) (Some ["role"]) None false
  = (Ok tt, Some [("role", JNum 0); ("name", JStr "Bob")]) /\
  _checkIfKeysValueExist Sample.chain
    (Some [("role", JStr ""); ("name", JStr "Bob")])
    (Some [("role", OneValue "")]) None true
  = (Ok tt, Some [("role", JStr ""); ("name", JStr "Bob")]).
Proof.
  split.
  - apply (proj1 (proj2 (proj2
             (C9_falsy_values_are_passed_over Sample.chain
                [("role", JNum 0); ("name", JStr "Bob")] None false)))).
    constructor; [|constructor]. right. right. left. reflexivity.
  - apply (proj2 (proj2 (proj2
             (C9_falsy_values_are_passed_over Sample.chain
                [("role", JStr ""); ("name", JStr "Bob")] None true)))).
    constructor; [|constructor]. right. right. right. left. reflexivity.
Defined.

Lemma C10_witness :
  checkRateLimit 1000 (Sample.chainOf "Create" (Some SharedCache) None) 10 3
    NodeCache.empty
  = (Ok (Sample.chainOf "Create" (Some SharedCache) None), NodeCache.empty).
Proof.
  apply (proj1 (C10_no_address_or_no_cache 1000 NodeCache.empty)).
  left. reflexivity.
Defined.

Lemma X1_witness :
  let key := rateKey Sample.chain Sample.client in
  let s := NodeCache.Store
             {[ key := NodeCache.Wrap (NodeCache.VNumber 2) 11000 ]} 0 [] in
  exists s',
    checkRateLimit 5000 Sample.chain 10 3 s = (Ok Sample.chain, s') /\
    counterOf key s' = Some (NodeCache.Wrap (NodeCache.VNumber 1) 11000).
Proof.
  intros key s.
  destruct (decrement_keeps_boundary 5000 10 3 Sample.chain Sample.client
              SharedCache s 2 11000)
    as (s' & E & K & _); try reflexivity.
  exists s'. split; [exact E|exact K].
Defined.

Lemma X3_witness :
  exists s',
    checkRateLimit 1000 Sample.chain 10 3 NodeCache.empty
    = (Ok Sample.chain, s') /\
    counterOf (rateKey Sample.chain Sample.client) s'
    = Some (NodeCache.Wrap (NodeCache.VNumber 2) 11000).
Proof.
  destruct (fresh_window_clears_penalty 1000 10 3 Sample.chain Sample.client
              SharedCache NodeCache.empty)
    as (s' & E & K & _); try reflexivity; try exact I; try discriminate.
  exists s'. split; [exact E|exact K].
Defined.

(** * Further properties *)

(** ** The rate limiter: the entries a check may touch *)

Section Confined.
Import NodeCache.
Variable K : list string.

Lemma confined_ret {A} (a : A) : confined K (ret a).
Proof. by intros s k _. Qed.

Lemma confined_throw {A} (e : exn) : confined K (throw (A := A) e).
Proof. by intros s k _. Qed.

Lemma confined_lift {A} (r : result A) : confined K (lift r).
Proof. by intros s k _. Qed.

Lemma confined_bind {A B} (m : M A) (f : A -> M B) :
  confined K m -> (forall a, confined K (f a)) -> confined K (bind m f).
Proof.
  intros Hm Hf s k Hk. unfold bind. specialize (Hm s k Hk).
  destruct (m s) as [[a|e] s1]; simpl in *; [|done].
  destruct (Hf a s1 k Hk) as [E1 E2]. destruct Hm as [E3 E4].
  split; congruence.
Qed.

Lemma check_elsewhere now key (s : store) k :
  k <> key ->
  data (snd (_check now key s)) !! k = data s !! k /\
  stdTTL_ms (snd (_check now key s)) = stdTTL_ms s.
Proof.
  intros Hne. unfold _check.
  destruct (data s !! key) as [d|]; [destruct (expired now d)|]; simpl;
    try done.
  by rewrite lookup_delete_ne.
Qed.

Lemma confined_has now key : key ∈ K -> confined K (ask (has now key)).
Proof.
  intros Hin s k Hk. unfold ask, has.
  assert (Hne : k <> key) by (by intros ->).
  pose proof (check_elsewhere now key (logged s (Has key)) k Hne) as E.
  by destruct (_check now key (logged s (Has key))).
Qed.

Lemma confined_get now key : key ∈ K -> confined K (ask (get now key)).
Proof.
  intros Hin s k Hk. unfold ask, get.
  assert (Hne : k <> key) by (by intros ->).
  pose proof (check_elsewhere now key (logged s (Get key)) k Hne) as E.
  by destruct (_check now key (logged s (Get key))).
Qed.

Lemma confined_getTtl now key : key ∈ K -> confined K (ask (getTtl now key)).
Proof.
  intros Hin s k Hk. unfold ask, getTtl.
  assert (Hne : k <> key) by (by intros ->).
  pose proof (check_elsewhere now key (logged s (GetTtl key)) k Hne) as E.
  by destruct (_check now key (logged s (GetTtl key))).
Qed.

Lemma confined_set now key x ttl :
  key ∈ K -> confined K (tell (set now key x ttl)).
Proof.
  intros Hin s k Hk. unfold tell, set. simpl.
  assert (Hne : key <> k) by (by intros ->).
  by rewrite lookup_insert_ne.
Qed.

Lemma confined_del key : key ∈ K -> confined K (tell (del key)).
Proof.
  intros Hin s k Hk. unfold tell, del. simpl.
  assert (Hne : key <> k) by (by intros ->).
  by rewrite lookup_delete_ne.
Qed.
End Confined.

Lemma checkRateLimit_confined (now : Z) (c : BaseChain) (a : IP)
  (windows max : Z) :
  ip c = Some a ->
  confined [rateKey c a; retryKeyOf (rateKey c a)]
    (checkRateLimit now c windows max).
Proof.
  intros Hip. unfold checkRateLimit, penalise. rewrite Hip.
  destruct (cache c); [|apply confined_ret].
  repeat first
    [ apply confined_ret | apply confined_throw
    | apply confined_has; by repeat constructor
    | apply confined_get; by repeat constructor
    | apply confined_getTtl; by repeat constructor
    | apply confined_set; by repeat constructor
    | apply confined_del; by repeat constructor
    | apply confined_bind; [|intros ?]
    | case_match ].
Qed.

(** X4.  A rate-limit check reads and writes the cache under two keys
    only, the counter key [path-address] of the client and its penalty key
    [path-address-retry]: whatever the outcome, every other entry of the
    shared cache and the cache's standard time-to-live stay as they were.
    The same holds for the constructor of a chain. *)
Theorem rate_limit_touches_own_keys_only (now : Z) (s : NodeCache.store)
  (other : string) :
  (forall (c : BaseChain) (a : IP) (windows max : Z),
      ip c = Some a ->
      other <> rateKey c a -> other <> retryKeyOf (rateKey c a) ->
      let s' := snd (checkRateLimit now c windows max s) in
      NodeCache.data s' !! other = NodeCache.data s !! other /\
      NodeCache.stdTTL_ms s' = NodeCache.stdTTL_ms s) /\
  (forall model usr pth pre base ch (a : IP),
      other <> pth +:+ "-" +:+ address a ->
      other <> retryKeyOf (pth +:+ "-" +:+ address a) ->
      let s' := snd (BaseChain_new now model usr pth pre base ch (Some a) s) in
      NodeCache.data s' !! other = NodeCache.data s !! other /\
      NodeCache.stdTTL_ms s' = NodeCache.stdTTL_ms s).
Proof.
  split.
  - intros c a windows max Hip H1 H2.
    apply (checkRateLimit_confined now c a windows max Hip).
    rewrite !not_elem_of_cons. by repeat split; try apply not_elem_of_nil.
  - intros model usr pth pre base ch a H1 H2.
    assert (Hc : confined [pth +:+ "-" +:+ address a;
                           retryKeyOf (pth +:+ "-" +:+ address a)]
                   (BaseChain_new now model usr pth pre base ch (Some a))).
    { unfold BaseChain_new.
      apply confined_bind; [|intros c1].
      - repeat case_match; try apply confined_ret.
        match goal with
        | |- confined _ (checkRateLimit _ ?c0 _ _) =>
            exact (checkRateLimit_confined now c0 a _ _ eq_refl)
        end.
      - repeat first [apply confined_lift | apply confined_bind; [|intros ?]]. }
    apply Hc. rewrite !not_elem_of_cons. by repeat split; try apply not_elem_of_nil.
Qed.

(** ** The rate limiter: who is refused *)

Section Outcome.
Import NodeCache.
Variables (now windows max : Z) (c : BaseChain) (a : IP) (r : cache_ref).
Hypothesis Hip : ip c = Some a.
Hypothesis Hcache : cache c = Some r.

Let key := rateKey c a.
Let retryKey := retryKeyOf key.

Local Ltac enter :=
  unfold checkRateLimit; rewrite Hip, Hcache;
  fold key; fold retryKey; unfold bind, ask, tell, ret, throw.

Lemma wrap_v std (x : value) ttl_ms : v (_wrap now std x ttl_ms) = x.
Proof. unfold _wrap. by repeat case_match. Qed.

(** No live counter, whatever the window: the request passes and the
    counter is written. *)
Lemma checkRateLimit_opens (s : store) :
  gone now (data s) key ->
  exists s',
    checkRateLimit now c windows max s = (Ok c, s') /\
    data s' = <[key := _wrap now (stdTTL_ms s) (VNumber (max - 1))
                         (seconds windows)]>
                (delete retryKey (data s)).
Proof.
  intros Hgone. enter.
  rewrite has_gone by done.
  set (s1 := with_data _ _).
  destruct (clear_penalty now c a s1) as (s2 & E & Hd & Hstd).
  fold key in E, Hd. fold retryKey in E, Hd.
  unfold bind, ask, tell, ret in E. rewrite E.
  eexists; split; [done|]. simpl. rewrite Hd, Hstd. subst s1. simpl.
  by rewrite (delete_delete _ retryKey key), insert_delete_eq.
Qed.

(** A live counter at 0 and a penalty entry that, if there is one, is a
    [Retry] object: the request is refused, and only the two entries are
    written. *)
Lemma checkRateLimit_refuses (s : store) (e : Z) :
  live now (data s) key (Wrap (VNumber 0) e) ->
  (forall d, data s !! retryKey = Some d -> exists p, v d = VRetry p) ->
  exists s' p' ttl1,
    checkRateLimit now c windows max s = (Throw TooManyRequest, s') /\
    (data s' = <[retryKey := _wrap now (stdTTL_ms s) (VRetry p') ttl1]> (data s)
     \/ exists ttl2,
         data s' = <[key := _wrap now (stdTTL_ms s) (VNumber 0) ttl2]>
                     (<[retryKey := _wrap now (stdTTL_ms s) (VRetry p') ttl1]>
                        (data s))).
Proof.
  intros Hlive Hty. enter.
  rewrite (has_live _ _ _ _ Hlive).
  rewrite (get_live _ _ _ (Wrap (VNumber 0) e)) by done.
  cbn [v is_zero Z.eqb]. unfold penalise, bind, ask, tell, throw.
  destruct (data s !! retryKey) as [d|] eqn:E.
  - destruct (expired now d) eqn:X.
    + rewrite has_gone by (unfold gone; simpl; by rewrite E).
      do 3 eexists. split; [done|]. left. simpl.
      by rewrite insert_delete_eq.
    + destruct (Hty d eq_refl) as [p Hp]. destruct d as [x e']. simpl in Hp.
      subst x.
      rewrite (has_live _ _ _ (Wrap (VRetry p) e')) by done.
      rewrite (get_live _ _ _ (Wrap (VRetry p) e')) by done.
      cbn [v]. destruct (count p =? 0).
      * do 3 eexists. split; [done|]. right. eexists. simpl. done.
      * do 3 eexists. split; [done|]. left. simpl. done.
  - rewrite has_gone by (unfold gone; simpl; by rewrite E).
    do 3 eexists. split; [done|]. left. simpl.
    by rewrite insert_delete_eq.
Qed.

Lemma wellTyped_step (s : store) :
  wellTyped key s ->
  (fst (checkRateLimit now c windows max s) = Ok c /\
   ~ (exists e, live now (data s) key (Wrap (VNumber 0) e))
   \/ fst (checkRateLimit now c windows max s) = Throw TooManyRequest /\
      exists e, live now (data s) key (Wrap (VNumber 0) e)) /\
  wellTyped key (snd (checkRateLimit now c windows max s)).
Proof.
  intros [Hk Hr]. unfold counterOf, penaltyOf in Hk, Hr. fold retryKey in Hr.
  destruct (data s !! key) as [d|] eqn:E.
  - destruct (expired now d) eqn:X.
    + destruct (checkRateLimit_opens s) as (s' & Es & Hd).
      { unfold gone. by rewrite E. }
      rewrite Es. simpl. split.
      * left. split; [done|]. intros (e & Hl & Hx). congruence.
      * unfold wellTyped, counterOf, penaltyOf. fold retryKey. rewrite Hd.
        split; intros d0.
        -- rewrite lookup_insert_eq. intros [= <-]. rewrite wrap_v. eauto.
        -- rewrite lookup_insert_ne by (symmetry; apply retryKey_ne).
           by rewrite lookup_delete_eq.
    + destruct (Hk d eq_refl) as [n Hn]. destruct d as [x e]. simpl in Hn.
      subst x. destruct (decide (n = 0)) as [->|Hn0].
      * destruct (checkRateLimit_refuses s e) as (s' & p' & ttl1 & Es & Hd);
          [done|done|].
        rewrite Es. simpl. split.
        -- right. split; [done|]. by exists e.
        -- unfold wellTyped, counterOf, penaltyOf. fold retryKey.
           destruct Hd as [Hd|[ttl2 Hd]]; rewrite Hd; split; intros d0.
           ++ rewrite lookup_insert_ne by apply retryKey_ne.
              rewrite E. intros [= <-]. simpl. eauto.
           ++ rewrite lookup_insert_eq. intros [= <-]. rewrite wrap_v. eauto.
           ++ rewrite lookup_insert_eq. intros [= <-]. rewrite wrap_v. eauto.
           ++ rewrite lookup_insert_ne by (symmetry; apply retryKey_ne).
              rewrite lookup_insert_eq. intros [= <-]. rewrite wrap_v. eauto.
      * rewrite (checkRateLimit_decrement now windows max c a r Hip Hcache
                   s n e) by done.
        simpl. split.
        -- left. split; [done|]. intros (e' & Hl & _).
           fold key in E. rewrite E in Hl. congruence.
        -- unfold wellTyped, counterOf, penaltyOf. fold key. fold retryKey.
           simpl. split; intros d0.
           ++ rewrite lookup_insert_eq. intros [= <-]. rewrite wrap_v. eauto.
           ++ rewrite lookup_insert_ne by (symmetry; apply retryKey_ne).
              apply Hr.
  - destruct (checkRateLimit_opens s) as (s' & Es & Hd).
    { unfold gone. by rewrite E. }
    rewrite Es. simpl. split.
    + left. split; [done|]. intros (e & Hl & Hx). congruence.
    + unfold wellTyped, counterOf, penaltyOf. fold retryKey. rewrite Hd.
      split; intros d0.
      * rewrite lookup_insert_eq. intros [= <-]. rewrite wrap_v. eauto.
      * rewrite lookup_insert_ne by (symmetry; apply retryKey_ne).
        by rewrite lookup_delete_eq.
Qed.
End Outcome.

(** X5.  On a cache that holds what the rate limiter itself wrote (a
    number under the counter key, a [Retry] object under the penalty key,
    or nothing), a check refuses with the 429 error exactly when it finds
    a live counter at 0, and lets the chain pass otherwise; it never ends
    in another error, and it leaves the cache in such a state again, so
    that the same holds for every later request. *)
Theorem rate_limit_refuses_iff_exhausted (now windows max : Z) (c : BaseChain)
  (a : IP) (r : cache_ref) (s : NodeCache.store) :
  ip c = Some a -> cache c = Some r ->
  wellTyped (rateKey c a) s ->
  let exhausted :=
    exists e, NodeCache.live now (NodeCache.data s) (rateKey c a)
                (NodeCache.Wrap (NodeCache.VNumber 0) e) in
  (fst (checkRateLimit now c windows max s) = Throw TooManyRequest
   <-> exhausted) /\
  (fst (checkRateLimit now c windows max s) = Ok c <-> ~ exhausted) /\
  wellTyped (rateKey c a) (snd (checkRateLimit now c windows max s)) /\
  forall ts,
    Forall (fun res => fst res = Ok c \/ fst res = Throw TooManyRequest)
      (requests c windows max ts s).
Proof.
  intros Hip Hcache Hty exhausted.
  destruct (wellTyped_step now windows max c a r Hip Hcache s Hty)
    as [Hout Hty'].
  split; [|split; [|split; [exact Hty'|]]].
  - split.
    + intros E. destruct Hout as [[E' _]|[_ H]]; [congruence|exact H].
    + intros H. destruct Hout as [[_ Hn]|[E _]]; [by destruct Hn|exact E].
  - split.
    + intros E. destruct Hout as [[_ Hn]|[E' _]]; [exact Hn|congruence].
    + intros Hn. destruct Hout as [[E _]|[_ H]]; [exact E|by destruct Hn].
  - clear Hout Hty' exhausted. intros ts. revert s Hty.
    induction ts as [|t ts IH]; intros s Hty; simpl; [constructor|].
    destruct (wellTyped_step t windows max c a r Hip Hcache s Hty)
      as [Hout Hty'].
    constructor; [|by apply IH].
    destruct Hout as [[E _]|[E _]]; [by left|by right].
Qed.
(** ** The rate limiter: the budget of a window *)

Section Budget.
Import NodeCache.
Variables (windows max t0 : Z) (c : BaseChain) (a : IP) (r : cache_ref).
Hypothesis Hip : ip c = Some a.
Hypothesis Hcache : cache c = Some r.
Hypothesis Hw : 0 < windows.

Let key := rateKey c a.
Let retryKey := retryKeyOf key.
Let e0 := t0 + 1000 * windows.

(** Once the counter is at 0, every request up to the end of the window
    is refused: a refusal leaves the counter at 0 and never shortens its
    life. *)
Lemma refusal_phase (ts : list Z) (s : store) (e : Z) :
  counterOf key s = Some (Wrap (VNumber 0) e) -> e0 <= e ->
  (forall d, penaltyOf key s = Some d ->
             exists p, v d = VRetry p /\ 1 <= retry p) ->
  Forall (fun t => t0 <= t < e0) ts ->
  map fst (requests c windows max ts s)
  = replicate (length ts) (Throw TooManyRequest).
Proof.
  revert s e. induction ts as [|t ts IH]; intros s e Hk He Hp Hts; [done|].
  apply Forall_cons in Hts as [Ht Hts].
  assert (Hlive : live t (data s) key (Wrap (VNumber 0) e)).
  { split; [done|]. apply expired_false. simpl. lia. }
  assert (Hfirst : gone t (data s) retryKey ->
                   map fst (requests c windows max (t :: ts) s)
                   = replicate (length (t :: ts)) (Throw TooManyRequest)).
  { intros Hgone.
    destruct (checkRateLimit_first_denial t windows max c a r Hip Hcache s e)
      as (s' & E & Hd); [done|done|lia|].
    fold key in Hd. fold retryKey in Hd.
    cbn [requests map length replicate]. rewrite E. cbn [fst snd]. f_equal.
    apply (IH s' e); [|done| |done].
    - unfold counterOf. rewrite Hd.
      by rewrite lookup_insert_ne by apply retryKey_ne.
    - intros d. unfold penaltyOf. rewrite Hd. fold key. fold retryKey.
      rewrite lookup_insert_eq. intros [= <-]. simpl. eexists; split; [done|simpl; lia]. }
  destruct (penaltyOf key s) as [d|] eqn:Ep.
  2:{ apply Hfirst. unfold gone.
      change (data s !! retryKey) with (penaltyOf key s). by rewrite Ep. }
  destruct (expired t d) eqn:X.
  { apply Hfirst. unfold gone.
    change (data s !! retryKey) with (penaltyOf key s). by rewrite Ep. }
  destruct (Hp d eq_refl) as (p & Hv & Hr). destruct d as [x e']. simpl in Hv.
  subst x.
  assert (Hpen : live t (data s) retryKey (Wrap (VRetry p) e')) by done.
  destruct (decide (count p = 0)) as [Hc|Hc].
  - destruct (checkRateLimit_escalate t windows max c a r Hip Hcache s e e' p)
      as (s' & E & Hd); [done|done|done|lia|lia|].
    fold key in Hd. fold retryKey in Hd.
    cbn [requests map length replicate]. rewrite E. cbn [fst snd]. f_equal.
    apply (IH s' (t + 1000 * (windows * (retry p + 1)))); [| | |done].
    + unfold counterOf. rewrite Hd. by rewrite lookup_insert_eq.
    + unfold e0. nia.
    + intros d. unfold penaltyOf. rewrite Hd. fold key. fold retryKey.
      rewrite lookup_insert_ne by (symmetry; apply retryKey_ne).
      rewrite lookup_insert_eq. intros [= <-]. simpl. eexists; split; [done|simpl; lia].
  - destruct (checkRateLimit_penalty t windows max c a r Hip Hcache s e e' p)
      as (s' & E & Hd); [done|done|done|lia|].
    fold key in Hd. fold retryKey in Hd.
    cbn [requests map length replicate]. rewrite E. cbn [fst snd]. f_equal.
    apply (IH s' e); [|done| |done].
    + unfold counterOf. rewrite Hd.
      by rewrite lookup_insert_ne by apply retryKey_ne.
    + intros d. unfold penaltyOf. rewrite Hd. fold key. fold retryKey.
      rewrite lookup_insert_eq. intros [= <-]. simpl.
      eexists; split; [done|simpl; lia].
Qed.

(** A counter with as many calls left as requests follow lets them all
    pass; what comes after them in the window is refused. *)
Lemma budget_phase (ts1 ts2 : list Z) (s : store) :
  counterOf key s = Some (Wrap (VNumber (Z.of_nat (length ts1))) e0) ->
  penaltyOf key s = None ->
  Forall (fun t => t0 <= t < e0) (ts1 ++ ts2)%list ->
  map fst (requests c windows max (ts1 ++ ts2)%list s)
  = (replicate (length ts1) (Ok c)
     ++ replicate (length ts2) (Throw TooManyRequest))%list.
Proof.
  revert s. induction ts1 as [|t ts1 IH]; intros s Hk Hp Hts.
  - simpl in *. apply (refusal_phase ts2 s e0); [done|lia| |done].
    intros d. by rewrite Hp.
  - simpl in Hts. apply Forall_cons in Hts as [Ht Hts].
    destruct (decrement_view t windows max c a r Hip Hcache s
                (Z.of_nat (length (t :: ts1))) e0)
      as (s' & E & Hk' & Hp'); [done|simpl; lia|lia|].
    fold key in Hp'.
    cbn [app requests map length replicate]. rewrite E. cbn [fst snd].
    f_equal. apply IH; [|congruence|done].
    fold key in Hk'. rewrite Hk'. do 3 f_equal. simpl. lia.
Qed.
End Budget.

(** X6.  The budget of a window.  With a limit of [max >= 1] calls per
    window, the request that opens a window and the next [max - 1]
    requests inside it pass, and every further request inside that window
    is refused with the 429 error, however many there are and in whatever
    order the requests are stamped. *)
Theorem rate_limit_budget (c : BaseChain) (a : IP) (r : cache_ref)
  (windows max t0 : Z) (ts1 ts2 : list Z) (s : NodeCache.store) :
  ip c = Some a -> cache c = Some r ->
  0 < windows -> 1 <= max ->
  NodeCache.gone t0 (NodeCache.data s) (rateKey c a) ->
  length ts1 = Z.to_nat (max - 1) ->
  Forall (fun t => t0 <= t < t0 + 1000 * windows) (ts1 ++ ts2)%list ->
  map fst (requests c windows max (t0 :: ts1 ++ ts2)%list s)
  = (replicate (Z.to_nat max) (Ok c)
     ++ replicate (length ts2) (Throw TooManyRequest))%list.
Proof.
  intros Hip Hcache Hw Hmax Hgone Hlen Hts.
  destruct (fresh_view t0 windows max c a r Hip Hcache s)
    as (s1 & E & Hk & Hp); [done|lia|].
  cbn [requests map]. rewrite E. cbn [fst snd].
  replace (Z.to_nat max) with (S (length ts1)) by lia.
  cbn [replicate app]. f_equal.
  apply (budget_phase windows max t0 c a r Hip Hcache Hw); [|done|done].
  rewrite Hk. do 3 f_equal. lia.
Qed.

(** X7.  A limit of 0 calls (or a negative one) refuses nobody.  The
    window is opened with the counter at [max - 1], below 0; the check for
    exhaustion is [count === 0], so every later request only counts the
    counter further down and passes. *)
Theorem nonpositive_max_never_refuses (c : BaseChain) (a : IP) (r : cache_ref)
  (windows max : Z) (ts : list Z) (s : NodeCache.store) :
  ip c = Some a -> cache c = Some r ->
  max <= 0 ->
  (forall d, counterOf (rateKey c a) s = Some d ->
             exists n, NodeCache.v d = NodeCache.VNumber n /\ n < 0) ->
  Forall (fun res => fst res = Ok c) (requests c windows max ts s).
Proof.
  intros Hip Hcache Hmax. revert s.
  induction ts as [|t ts IH]; intros s Hneg; simpl; [constructor|].
  assert (Hstep : fst (checkRateLimit t c windows max s) = Ok c /\
                  forall d,
                    counterOf (rateKey c a)
                      (snd (checkRateLimit t c windows max s)) = Some d ->
                    exists n, NodeCache.v d = NodeCache.VNumber n /\ n < 0).
  { unfold counterOf in *.
    destruct (NodeCache.data s !! rateKey c a) as [d|] eqn:E.
    - destruct (NodeCache.expired t d) eqn:X.
      + destruct (checkRateLimit_opens t windows max c a r Hip Hcache s)
          as (s' & Es & Hd).
        { unfold NodeCache.gone. by rewrite E. }
        rewrite Es. simpl. split; [done|]. intros d0. rewrite Hd.
        rewrite lookup_insert_eq. intros [= <-]. rewrite wrap_v.
        eexists; split; [done|lia].
      + destruct (Hneg d eq_refl) as (n & Hn & Hlt). destruct d as [x e].
        simpl in Hn. subst x.
        rewrite (checkRateLimit_decrement t windows max c a r Hip Hcache
                   s n e) by (done || lia).
        simpl. split; [done|]. intros d0.
        rewrite lookup_insert_eq. intros [= <-]. rewrite wrap_v.
        eexists; split; [done|lia].
    - destruct (checkRateLimit_opens t windows max c a r Hip Hcache s)
        as (s' & Es & Hd).
      { unfold NodeCache.gone. by rewrite E. }
      rewrite Es. simpl. split; [done|]. intros d0. rewrite Hd.
      rewrite lookup_insert_eq. intros [= <-]. rewrite wrap_v.
      eexists; split; [done|lia]. }
  destruct Hstep as [Hok Hnext]. constructor; [done|by apply IH].
Qed.

(** X8.  The bookkeeping of a refusal.  A request that finds the live
    counter at 0 is refused with status 429 and recorded in the penalty
    entry, whose time-to-live is reset to the window each time:
    - no penalty entry (or one that ran out): it is created with
      escalation 1 and [2 * max - 1] calls, whatever the escalation had
      been before;
    - calls left: one is taken, the escalation stays;
    - no call left: the escalation goes up by one, the calls are reset
      to [2 * max - 1], and the counter, still at 0, gets a window
      lengthened by the new escalation as factor.
    In the first two cases the counter keeps its expiry time. *)
Theorem refusal_bookkeeping (now windows max : Z) (c : BaseChain) (a : IP)
  (r : cache_ref) (s : NodeCache.store) (e : Z) :
  ip c = Some a -> cache c = Some r -> 0 < windows ->
  counterOf (rateKey c a) s
  = Some (NodeCache.Wrap (NodeCache.VNumber 0) e) ->
  now <= e ->
  let key := rateKey c a in
  let penalty n esc :=
    Some (NodeCache.Wrap (NodeCache.VRetry (NodeCache.mkRetry n esc))
            (now + 1000 * windows)) in
  status_of TooManyRequest = Some 429 /\
  (NodeCache.gone now (NodeCache.data s) (retryKeyOf key) ->
   exists s',
     checkRateLimit now c windows max s = (Throw TooManyRequest, s') /\
     counterOf key s' = counterOf key s /\
     penaltyOf key s' = penalty (max * 2 - 1) 1) /\
  (forall p e',
      NodeCache.live now (NodeCache.data s) (retryKeyOf key)
        (NodeCache.Wrap (NodeCache.VRetry p) e') ->
      NodeCache.count p <> 0 ->
      exists s',
        checkRateLimit now c windows max s = (Throw TooManyRequest, s') /\
        counterOf key s' = counterOf key s /\
        penaltyOf key s'
        = penalty (NodeCache.count p - 1) (NodeCache.retry p)) /\
  (forall p e',
      NodeCache.live now (NodeCache.data s) (retryKeyOf key)
        (NodeCache.Wrap (NodeCache.VRetry p) e') ->
      NodeCache.count p = 0 -> 0 <= NodeCache.retry p ->
      exists s',
        checkRateLimit now c windows max s = (Throw TooManyRequest, s') /\
        counterOf key s'
        = Some (NodeCache.Wrap (NodeCache.VNumber 0)
                  (now + 1000 * (windows * (NodeCache.retry p + 1)))) /\
        penaltyOf key s' = penalty (2 * max - 1) (NodeCache.retry p + 1)).
Proof.
  intros Hip Hcache Hw Hk He key penalty.
  assert (Hlive : NodeCache.live now (NodeCache.data s) key
                    (NodeCache.Wrap (NodeCache.VNumber 0) e)).
  { split; [done|]. apply expired_false. simpl. lia. }
  split; [done|]. split; [|split].
  - intros Hgone.
    destruct (checkRateLimit_first_denial now windows max c a r Hip Hcache s e)
      as (s' & E & Hd); [done|done|lia|].
    exists s'. split; [done|]. unfold counterOf, penaltyOf, penalty.
    rewrite Hd. fold key. split.
    + by rewrite lookup_insert_ne by apply retryKey_ne.
    + by rewrite lookup_insert_eq.
  - intros p e' Hpen Hc.
    destruct (checkRateLimit_penalty now windows max c a r Hip Hcache s e e' p)
      as (s' & E & Hd); [done|done|done|lia|].
    exists s'. split; [done|]. unfold counterOf, penaltyOf, penalty.
    rewrite Hd. fold key. split.
    + by rewrite lookup_insert_ne by apply retryKey_ne.
    + by rewrite lookup_insert_eq.
  - intros p e' Hpen Hc Hr.
    destruct (checkRateLimit_escalate now windows max c a r Hip Hcache s e e'
                p) as (s' & E & Hd); [done|done|done|lia|lia|].
    exists s'. split; [done|]. unfold counterOf, penaltyOf, penalty.
    rewrite Hd. fold key. split.
    + by rewrite lookup_insert_eq.
    + rewrite lookup_insert_ne by (symmetry; apply retryKey_ne).
      by rewrite lookup_insert_eq.
Qed.
(** ** The constructor *)

(** The rate-limit step of the constructor hands on the chain it was
    given, or throws. *)
Lemma rate_step_returns_this (now : Z) (c0 c1 : BaseChain)
  (ch : option cache_ref) (addr : option IP) (rl : option RateLimit)
  (s : NodeCache.store) :
  fst (match ch, addr, rl with
       | Some _, Some _, Some rl => checkRateLimit now c0 (ttl rl) (max rl)
       | _, _, _ => ret c0
       end s) = Ok c1 ->
  c1 = c0.
Proof.
  repeat case_match; try (by intros [= <-]).
  apply checkRateLimit_returns_this.
Qed.

(** What a constructor call that returns has checked, and the chain it
    returns. *)
Lemma BaseChain_new_Ok (now : Z) (model : string)
  (usr : UserDocument) (pth : string) (pre base : option string)
  (ch : option cache_ref) (addr : option IP) (s : NodeCache.store)
  (c : BaseChain) :
  fst (BaseChain_new now model usr pth pre base ch addr s) = Ok c ->
  let ep := level usr ≫= fun l => endpoints l pth in
  let granted := default [] (level usr ≫= lv_actions) in
  let checked := negb (bool_decide (ep ≫= shouldCheckAction = Some false)) in
  (type usr = Some Visitor -> ep ≫= canVisitorVisit = Some true) /\
  (checked = true ->
   exists b,
     str_or (ep ≫= ep_baseAction) base = Some b /\
     constructAction (Some b) pre None None ∈ granted) /\
  (forall us,
      ep ≫= allowedUsers = Some us -> us <> [] ->
      exists ty, type usr = Some ty /\ ty ∈ us) /\
  c = mkBase model usr pth pre
        (if checked then str_or base (ep ≫= ep_baseAction) else base)
        ch addr None None ep granted.
Proof.
  intros Hnew ep granted checked. revert Hnew.
  unfold BaseChain_new. fold ep. fold granted.
  set (c0 := mkBase _ _ _ _ _ _ _ _ _ _ _).
  set (rate := match ch with Some _ => _ | None => _ end).
  unfold bind at 1.
  destruct (rate s) as [[c1|e1] s1] eqn:E; [|done].
  assert (c1 = c0) as ->.
  { apply (rate_step_returns_this now c0 c1 ch addr (ep ≫= rateLimit) s).
    fold rate. by rewrite E. }
  clear E rate.
  unfold bind, lift, when. change (endpoint c0) with ep.
  unfold visitorVisit. change (type (user c0)) with (type usr).
  destruct (ep ≫= canVisitorVisit) as [[|]|] eqn:Ev; simpl.
  all: try (case_bool_decide as Hvis; simpl; [done|]).
  all: fold checked; destruct checked eqn:Ec; simpl.
  all: unfold checkAction, validateAction, checkIfUserIs, includes;
    change (endpoint c0) with ep; change (baseAction c0) with base;
    change (type (user c0)) with (type usr); simpl;
    change (actions _) with granted.
  all: destruct (ep ≫= ep_baseAction) as [x|] eqn:Eb;
    destruct base as [y|]; simpl;
    repeat (case_match; simplify_eq/=; try done).
  all: intros Hc; simplify_eq/=.
  all: repeat split; try done.
  all: try (by intros us' [= <-]).
  all: try (intros _; eexists; split; [reflexivity|]).
  all: try (intros us' [= <-] _; eexists; split; [reflexivity|]).
  all: match goal with
       | H : bool_decide ?P = true |- ?P => exact (bool_decide_eq_true_1 _ H)
       end.
Qed.

(** X9.  A chain is only ever constructed for a principal that passed
    every check the endpoint asks for.  If [new BaseChain(...)] returns,
    then: a visitor was let in by [canVisitorVisit]; unless the endpoint
    sets [shouldCheckAction] to [false], a base action was found (the
    endpoint's before the constructor's) and the action composed from it
    and the prefix is among the principal's granted actions; and if the
    endpoint lists [allowedUsers], the principal's type is one of them.
    The chain carries the arguments, the endpoint found for the path and
    the granted actions; its base action is the constructor's, or the
    endpoint's when the constructor got none and the action was
    checked. *)
Theorem constructor_returns_only_authorized (now : Z) (model : string)
  (usr : UserDocument) (pth : string) (pre base : option string)
  (ch : option cache_ref) (addr : option IP) (s : NodeCache.store)
  (c : BaseChain) :
  fst (BaseChain_new now model usr pth pre base ch addr s) = Ok c ->
  let ep := level usr ≫= fun l => endpoints l pth in
  let granted := default [] (level usr ≫= lv_actions) in
  let checked := negb (bool_decide (ep ≫= shouldCheckAction = Some false)) in
  (type usr = Some Visitor -> ep ≫= canVisitorVisit = Some true) /\
  (checked = true ->
   exists b,
     str_or (ep ≫= ep_baseAction) base = Some b /\
     constructAction (Some b) pre None None ∈ granted) /\
  (forall us,
      ep ≫= allowedUsers = Some us -> us <> [] ->
      exists ty, type usr = Some ty /\ ty ∈ us) /\
  c = mkBase model usr pth pre
        (if checked then str_or base (ep ≫= ep_baseAction) else base)
        ch addr None None ep granted.
Proof.
  apply BaseChain_new_Ok.
Qed.

(** Without a cache, an address or a declared rate limit the constructor
    starts with the visitor check. *)
Lemma rate_step_skipped (now : Z) (c0 : BaseChain) (ch : option cache_ref)
  (addr : option IP) (rl : option RateLimit) (s : NodeCache.store) :
  ch = None \/ addr = None \/ rl = None ->
  match ch, addr, rl with
  | Some _, Some _, Some rl => checkRateLimit now c0 (ttl rl) (max rl)
  | _, _, _ => ret c0
  end s = (Ok c0, s).
Proof. intros [->|[->| ->]]; by repeat case_match. Qed.

(** X10.  The order of the constructor's checks decides which error a
    request gets when several apply.
    - The rate limit comes first: a client whose counter is exhausted
      gets the 429 error, and the refusal is recorded in the cache,
      whoever the principal is and whatever it may do.  And a request
      that a later check refuses has been counted all the same: a
      visitor turned away with the 401 error has used up a call of its
      address.
    - Then the visitor check: a visitor on an endpoint that is not open
      to visitors gets the 401 error, whether or not the action would
      have been granted.
    - Then the action check: without a base action (neither the
      endpoint's nor the constructor's) the plain [Error], which carries
      no status; with one, the error of [validateAction] if the composed
      action is not granted -- in both cases whatever [allowedUsers]
      says. *)
Theorem constructor_check_order (now : Z) (model : string)
  (usr : UserDocument) (pth : string) (pre base : option string)
  (s : NodeCache.store) :
  let ep := level usr ≫= fun l => endpoints l pth in
  let granted := default [] (level usr ≫= lv_actions) in
  (forall ch (a : IP) rl e,
      ep ≫= rateLimit = Some rl ->
      wellTyped (pth +:+ "-" +:+ address a) s ->
      NodeCache.live now (NodeCache.data s) (pth +:+ "-" +:+ address a)
        (NodeCache.Wrap (NodeCache.VNumber 0) e) ->
      let res := BaseChain_new now model usr pth pre base (Some ch) (Some a) s in
      fst res = Throw TooManyRequest /\
      is_Some (penaltyOf (pth +:+ "-" +:+ address a) (snd res))) /\
  (forall ch (a : IP) rl,
      ep ≫= rateLimit = Some rl -> ttl rl <> 0 ->
      NodeCache.gone now (NodeCache.data s) (pth +:+ "-" +:+ address a) ->
      type usr = Some Visitor ->
      default false (ep ≫= canVisitorVisit) = false ->
      exists s',
        BaseChain_new now model usr pth pre base (Some ch) (Some a) s
        = (Throw Unauthorized, s') /\
        counterOf (pth +:+ "-" +:+ address a) s'
        = Some (NodeCache.Wrap (NodeCache.VNumber (max rl - 1))
                  (now + 1000 * ttl rl))) /\
  (forall ch addr,
      ch = None \/ addr = None \/ ep ≫= rateLimit = None ->
      type usr = Some Visitor ->
      default false (ep ≫= canVisitorVisit) = false ->
      BaseChain_new now model usr pth pre base ch addr s
      = (Throw Unauthorized, s)) /\
  (forall ch addr,
      ch = None \/ addr = None \/ ep ≫= rateLimit = None ->
      type usr <> Some Visitor \/ ep ≫= canVisitorVisit = Some true ->
      ep ≫= shouldCheckAction <> Some false ->
      str_or (str_or (ep ≫= ep_baseAction) base) None = None ->
      BaseChain_new now model usr pth pre base ch addr s
      = (Throw (EError "You have not set a base action to check."), s)) /\
  (forall ch addr b e,
      ch = None \/ addr = None \/ ep ≫= rateLimit = None ->
      type usr <> Some Visitor \/ ep ≫= canVisitorVisit = Some true ->
      ep ≫= shouldCheckAction <> Some false ->
      str_or (ep ≫= ep_baseAction) base = Some b -> b <> "" ->
      validateAction (constructAction (Some b) pre None None) granted
      = Throw e ->
      BaseChain_new now model usr pth pre base ch addr s = (Throw e, s)).
Proof.
  intros ep granted.
  split; [|split; [|split; [|split]]].
  - intros ch a rl e Hrl [_ Hty] Hlive res. subst res.
    set (c0 := mkBase model usr pth pre base (Some ch) (Some a) None None ep
                 granted).
    destruct (checkRateLimit_refuses now (ttl rl) (max rl) c0 a ch
                eq_refl eq_refl s e Hlive Hty)
      as (s' & p' & ttl1 & E & Hd).
    assert (Enew : BaseChain_new now model usr pth pre base (Some ch)
                     (Some a) s = (Throw TooManyRequest, s')).
    { unfold BaseChain_new. fold ep. fold granted. rewrite Hrl. fold c0.
      unfold bind at 1. by rewrite E. }
    rewrite Enew. simpl. split; [done|].
    unfold penaltyOf.
    change (rateKey c0 a) with (pth +:+ "-" +:+ address a) in Hd.
    destruct Hd as [Hd|[ttl2 Hd]]; rewrite Hd.
    + by rewrite lookup_insert_eq.
    + rewrite lookup_insert_ne by (symmetry; apply retryKey_ne).
      by rewrite lookup_insert_eq.
  - intros ch a rl Hrl Hw Hgone Hv Hclosed.
    set (c0 := mkBase model usr pth pre base (Some ch) (Some a) None None ep
                 granted).
    destruct (fresh_view now (ttl rl) (max rl) c0 a ch eq_refl eq_refl s
                Hgone Hw) as (s' & E & K & _).
    exists s'. split; [|exact K].
    unfold BaseChain_new. fold ep. fold granted. rewrite Hrl. fold c0.
    unfold bind at 1. rewrite E.
    unfold bind, lift, when. change (endpoint c0) with ep.
    rewrite Hclosed. simpl. unfold visitorVisit. simpl.
    by rewrite bool_decide_eq_true_2.
  - intros ch addr Hrate Hv Hclosed.
    unfold BaseChain_new. fold ep. fold granted.
    set (c0 := mkBase _ _ _ _ _ _ _ _ _ _ _).
    unfold bind at 1. rewrite rate_step_skipped by done.
    unfold bind, lift, when. change (endpoint c0) with ep.
    rewrite Hclosed. simpl. unfold visitorVisit. simpl.
    by rewrite bool_decide_eq_true_2.
  - intros ch addr Hrate Hv Hcheck Hbase.
    unfold BaseChain_new. fold ep. fold granted.
    set (c0 := mkBase _ _ _ _ _ _ _ _ _ _ _).
    unfold bind at 1. rewrite rate_step_skipped by done.
    unfold bind, lift, when. change (endpoint c0) with ep.
    assert (Hvis : (if negb (default false (ep ≫= canVisitorVisit))
                    then visitorVisit c0 false else Ok c0) = Ok c0).
    { destruct Hv as [Hv| ->]; [|done].
      destruct (default false (ep ≫= canVisitorVisit)); simpl; [done|].
      unfold visitorVisit. simpl. by rewrite bool_decide_eq_false_2. }
    rewrite Hvis. rewrite bool_decide_eq_false_2 by done. simpl.
    unfold checkAction. change (endpoint c0) with ep.
    change (baseAction c0) with base.
    revert Hbase. unfold str_or.
    destruct (ep ≫= ep_baseAction) as [x|], base as [y|];
      repeat (case_match; simplify_eq/=; try done).
  - intros ch addr b e Hrate Hv Hcheck Hbase Hb Hdenied.
    unfold BaseChain_new. fold ep. fold granted.
    set (c0 := mkBase _ _ _ _ _ _ _ _ _ _ _).
    unfold bind at 1. rewrite rate_step_skipped by done.
    unfold bind, lift, when. change (endpoint c0) with ep.
    assert (Hvis : (if negb (default false (ep ≫= canVisitorVisit))
                    then visitorVisit c0 false else Ok c0) = Ok c0).
    { destruct Hv as [Hv| ->]; [|done].
      destruct (default false (ep ≫= canVisitorVisit)); simpl; [done|].
      unfold visitorVisit. simpl. by rewrite bool_decide_eq_false_2. }
    rewrite Hvis. rewrite bool_decide_eq_false_2 by done. simpl.
    unfold checkAction. change (endpoint c0) with ep.
    change (baseAction c0) with base. rewrite Hbase.
    assert (Hne : String.eqb b "" = false) by (by apply String.eqb_neq).
    simpl. rewrite Hne. simpl. rewrite Hne. simpl.
    change (actions _) with granted. by rewrite Hdenied.
Qed.
(** ** The predicate gate *)

(** X11.  A predicate that came out false stops every chain at the first
    step of [prePerform]: the 403 error "Predicate Not Succeeded" (with
    the caller's message, or the standard one) is thrown before any scan
    or validation, so the chain -- document, filter, endpoint -- is left
    exactly as it was, and [perform] ends in the same throw.  A predicate
    that came out true lets the gate pass, the last [predicate] call with
    a callback is the one that counts, and a call without callback
    changes nothing. *)
Theorem failed_predicate_stops_every_chain `{Collaborators} `{Utility}
  (b : BaseChain) (msg : option string) :
  let e := PredicateNotSucceeded msg in
  let gated := predicate b (Some false) msg in
  e = EStatus (mkStatusError 403 "Predicate Not Succeeded"
                 (str_or_else msg
                    "You are not allowed to process further, because the provided predicate mismatches.")
                 None) /\
  (forall d options,
      let c := CreateChain.mk gated d in
      CreateChain.prePerform c = (Throw e, c) /\
      CreateChain.perform options c = (Throw e, c)) /\
  (forall f,
      let c := ReadChain.mk gated f in
      ReadChain.prePerform c = (Throw e, c)) /\
  (forall f u,
      let c := UpdateChain.mk gated f u in
      UpdateChain.prePerform c = (Throw e, c) /\
      UpdateChain_perform c = (Throw e, c)) /\
  (forall f options,
      let c := DeleteChain.mk gated f in
      DeleteChain.prePerform c = (Throw e, c) /\
      DeleteChain_perform options c = (Throw e, c)) /\
  BaseChain_prePerform (predicate b (Some true) msg) = Ok tt /\
  (forall r1 m1 r2 m2,
      predicate (predicate b (Some r1) m1) (Some r2) m2
      = predicate b (Some r2) m2) /\
  predicate b None msg = b.
Proof.
  intros e gated.
  split; [done|]. split; [|split; [|split; [|split]]].
  - intros d options c.
    assert (E : CreateChain.prePerform c = (Throw e, c)) by done.
    split; [exact E|]. unfold CreateChain.perform, bind. by rewrite E.
  - done.
  - intros f u c.
    assert (E : UpdateChain.prePerform c = (Throw e, c)) by done.
    split; [exact E|]. unfold UpdateChain_perform, bind. by rewrite E.
  - intros f options c.
    assert (E : DeleteChain.prePerform c = (Throw e, c)) by done.
    split; [exact E|]. unfold DeleteChain_perform, bind. by rewrite E.
  - done.
Qed.

(** ** Denied keys: what deletion mode computes *)

Lemma filter_delete_prop (P : string * jsval -> Prop)
  `{forall x, Decision (P x)} (o : Obj) (k : string) :
  filter P (delete_prop o k) = filter (fun kv => P kv /\ fst kv <> k) o.
Proof. unfold delete_prop. apply list_filter_filter. Qed.

Lemma filter_all {A} (P : A -> Prop) `{forall x, Decision (P x)}
  (l : list A) :
  (forall x, P x) -> filter P l = l.
Proof.
  intros HP. induction l as [|x l IH]; [done|].
  rewrite filter_cons_True by done. by f_equal.
Qed.

Lemma dropKeys_filter (keys : list string) (o : Obj) :
  dropKeys keys o
  = filter (fun kv => ~ (fst kv ∈ keys /\ truthy (get_prop o (fst kv)) = true))
      o.
Proof.
  revert o. induction keys as [|k keys IH]; intros o.
  - simpl. symmetry. apply filter_all. intros kv [Hin _].
    by apply elem_of_nil in Hin.
  - simpl. destruct (truthy (get_prop o k)) eqn:T.
    + rewrite IH, filter_delete_prop.
      apply list_filter_iff. intros [k' x]. simpl. split.
      * intros [Hn Hne] [Hin Ht]. apply Hn.
        apply elem_of_cons in Hin as [->|Hin]; [done|].
        split; [done|]. by rewrite get_prop_delete_ne.
      * intros Hn. assert (Hne : k' <> k).
        { intros ->. apply Hn. split; [apply elem_of_cons; by left|done]. }
        split; [|done]. intros [Hin Ht]. apply Hn.
        split; [apply elem_of_cons; by right|].
        by rewrite get_prop_delete_ne in Ht.
    + rewrite IH. apply list_filter_iff. intros [k' x]. simpl. split.
      * intros Hn [Hin Ht]. apply elem_of_cons in Hin as [->|Hin].
        -- congruence.
        -- by apply Hn.
      * intros Hn [Hin Ht]. apply Hn.
        split; [apply elem_of_cons; by right|done].
Qed.

Lemma dropValues_filter (record : KeyValue) (o : Obj) :
  dropValues record o
  = filter (fun kv => ~ deniedBy record o (fst kv)) o.
Proof.
  revert o. induction record as [|[k d] record IH]; intros o.
  - simpl. symmetry. apply filter_all. intros kv Hex.
    by apply Exists_nil in Hex.
  - simpl.
    destruct (truthy (get_prop o k) && deniedMatch (get_prop o k) d) eqn:T.
    + rewrite IH, filter_delete_prop.
      apply list_filter_iff. intros [k' x]. unfold deniedBy. simpl. split.
      * intros [Hn Hne] Hex. apply Hn.
        apply Exists_cons in Hex as [[Hk _]|Hex]; [by simpl in Hk|].
        eapply Exists_impl; [exact Hex|]. intros [k0 d0] [Hk Ht]. simpl in *.
        split; [done|]. by rewrite get_prop_delete_ne.
      * intros Hn. assert (Hne : k' <> k).
        { intros ->. apply Hn. by apply Exists_cons_hd. }
        split; [|done]. intros Hex. apply Hn. apply Exists_cons_tl.
        eapply Exists_impl; [exact Hex|]. intros [k0 d0] [Hk Ht]. simpl in *.
        split; [done|]. by rewrite get_prop_delete_ne in Ht.
    + rewrite IH. apply list_filter_iff. intros [k' x]. unfold deniedBy.
      simpl. split.
      * intros Hn Hex. apply Exists_cons in Hex as [[Hk Ht]|Hex].
        -- simpl in *. subst k'. congruence.
        -- by apply Hn.
      * intros Hn Hex. apply Hn. by apply Exists_cons_tl.
Qed.

(** X12.  What deletion mode computes.  Scanning denied keys with
    [shouldDelete] never fails and keeps exactly the properties that are
    not denied: a property goes if and only if its key is listed and the
    value the object held under that key was truthy (for denied values:
    and was one of the values listed for the key).  The properties that
    stay keep their value and their order; the order of the denied keys
    and repetitions among them make no difference. *)
Theorem deletion_mode_is_a_filter (c : BaseChain) (o : Obj)
  (pa : option string) :
  (forall keys,
      _checkIfKeysExist c (Some o) (Some keys) pa true
      = (Ok tt,
         Some (filter (fun kv => ~ (fst kv ∈ keys /\
                                    truthy (get_prop o (fst kv)) = true)) o))) /\
  (forall record,
      _checkIfKeysValueExist c (Some o) (Some record) pa true
      = (Ok tt, Some (filter (fun kv => ~ deniedBy record o (fst kv)) o))) /\
  (forall keys keys',
      (forall k, k ∈ keys <-> k ∈ keys') ->
      _checkIfKeysExist c (Some o) (Some keys) pa true
      = _checkIfKeysExist c (Some o) (Some keys') pa true).
Proof.
  split; [|split].
  - intros keys. unfold _checkIfKeysExist.
    by rewrite scanKeys_delete, dropKeys_filter.
  - intros record. unfold _checkIfKeysValueExist.
    by rewrite scanKeysValue_delete, dropValues_filter.
  - intros keys keys' Hsame. unfold _checkIfKeysExist.
    rewrite !scanKeys_delete, !dropKeys_filter. do 2 f_equal.
    apply list_filter_iff. intros kv. by rewrite Hsame.
Qed.

(** ** Denied keys: running [prePerform] again *)

Lemma dropKeys_id (keys : list string) (o : Obj) :
  (forall k, k ∈ keys -> truthy (get_prop o k) = false) ->
  dropKeys keys o = o.
Proof.
  intros Hk. induction keys as [|k keys IH]; [done|].
  simpl. rewrite Hk by (apply elem_of_cons; by left).
  apply IH. intros k' Hin. apply Hk, elem_of_cons. by right.
Qed.

Lemma dropValues_id (record : KeyValue) (o : Obj) :
  (forall k d, (k, d) ∈ record ->
               truthy (get_prop o k) && deniedMatch (get_prop o k) d = false) ->
  dropValues record o = o.
Proof.
  intros Hk. induction record as [|[k d] record IH]; [done|].
  simpl. rewrite Hk by (apply elem_of_cons; by left).
  apply IH. intros k' d' Hin. apply Hk, elem_of_cons. by right.
Qed.

Lemma stripped_idem (keys : option (list string)) (record : option KeyValue)
  (o : option Obj) :
  stripped keys record (stripped keys record o) = stripped keys record o.
Proof.
  destruct o as [o|]; [|done]. simpl. f_equal.
  set (ks := default [] keys). set (r := default [] record).
  set (o2 := dropValues r (dropKeys ks o)).
  assert (E : dropKeys ks o2 = o2).
  { apply dropKeys_id. intros k Hk. unfold o2.
    destruct (dropValues_get r (dropKeys ks o) k) as [E|E]; rewrite E;
      [by apply dropKeys_clean|done]. }
  rewrite E. apply dropValues_id. intros k d Hin. by apply dropValues_clean.
Qed.

Lemma UpdateChain_validate_state `{Collaborators} (c : UpdateChain.t) :
  snd (UpdateChain.validate c) = c.
Proof.
  unfold UpdateChain.validate, bind, this, ret, throw. simpl.
  repeat (case_match; simplify_eq/=; try done).
Qed.

(** The schema step of the Create chain leaves the document, the
    predicate and the endpoint's denied keys as they are. *)
Lemma CreateChain_validate_keeps `{Collaborators} (c : CreateChain.t) :
  let c' := snd (CreateChain.validate c) in
  CreateChain.doc c' = CreateChain.doc c /\
  BaseChain_prePerform (CreateChain.base c')
  = BaseChain_prePerform (CreateChain.base c) /\
  (endpoint (CreateChain.base c') ≫= body) ≫= Body.deniedKeys
  = (endpoint (CreateChain.base c) ≫= body) ≫= Body.deniedKeys /\
  (endpoint (CreateChain.base c') ≫= body) ≫= Body.deniedKeysValue
  = (endpoint (CreateChain.base c) ≫= body) ≫= Body.deniedKeysValue.
Proof.
  destruct c as [[m u p pr ba ch ad cb cm [[rl cv sc eb au q [bd|]]|] acts] d];
    unfold CreateChain.validate, CreateChain.set_body_default, bind, this,
      ret, throw, lift, put; simpl;
    repeat (case_match; simplify_eq/=; try done).
Qed.

(** X13.  Running the preparation a second time is harmless.  For the
    Update chain a second [prePerform] leaves the chain as the first one
    left it and ends the same way; for the Create chain the document
    after a second [prePerform] is the document after the first. *)
Theorem prePerform_twice `{Collaborators} :
  (forall (c c' : UpdateChain.t) r,
      UpdateChain.prePerform c = (r, c') ->
      UpdateChain.prePerform c' = (r, c')) /\
  (forall c : CreateChain.t,
      CreateChain.doc
        (snd (CreateChain.prePerform (snd (CreateChain.prePerform c))))
      = CreateChain.doc (snd (CreateChain.prePerform c))).
Proof.
  split.
  - intros c c' r E.
    destruct (BaseChain_prePerform (UpdateChain.base c)) as [[]|e] eqn:G.
    + rewrite UpdateChain_prePerform_strips in E by done.
      set (c1 := UpdateChain.mk _ _ _) in E.
      pose proof (UpdateChain_validate_state c1) as Hs.
      rewrite E in Hs. simpl in Hs. subst c'.
      rewrite UpdateChain_prePerform_strips by done.
      unfold c1 at 1 2 3 4 5 6. simpl. by rewrite !stripped_idem.
    + unfold UpdateChain.prePerform, bind, this, lift in E. simpl in E.
      rewrite G in E. injection E as <- <-.
      unfold UpdateChain.prePerform, bind, this, lift. simpl. by rewrite G.
  - intros c.
    destruct (BaseChain_prePerform (CreateChain.base c)) as [[]|e] eqn:G.
    + rewrite (CreateChain_prePerform_strips c) by done.
      set (c1 := CreateChain.mk _ _).
      destruct (CreateChain_validate_keeps c1) as (Hd & Hg & Hk & Hv).
      set (c2 := snd (CreateChain.validate c1)) in *.
      rewrite (CreateChain_prePerform_strips c2) by (by rewrite Hg).
      set (c3 := CreateChain.mk _ _).
      destruct (CreateChain_validate_keeps c3) as (Hd3 & _).
      rewrite Hd3. unfold c3. simpl. rewrite Hk, Hv, Hd. unfold c1. simpl.
      by rewrite stripped_idem.
    + assert (E : CreateChain.prePerform c = (Throw e, c)).
      { unfold CreateChain.prePerform, bind, this, lift. simpl.
        by rewrite G. }
      by rewrite E; simpl; rewrite E.
Qed.

(** ** Denied keys: rejection mode *)

Lemma scanKeys_reject (c : BaseChain) (pa : option string)
  (keys : list string) (o : Obj) :
  snd (scanKeys c pa false keys o) = o /\
  (fst (scanKeys c pa false keys o) = Ok tt <->
   Forall (fun key =>
             truthy (get_prop o key) = true ->
             validateAction (trim (scanAction c key pa)) (actions c) = Ok tt)
     keys).
Proof.
  induction keys as [|k keys [IH1 IH2]]; [by split; [|split; [constructor|]]|].
  simpl. destruct (truthy (get_prop o k)) eqn:T.
  - unfold bind, lift.
    destruct (validateAction _ _) as [[]|e] eqn:V.
    + split; [done|]. rewrite IH2. split.
      * intros HF. by constructor.
      * intros HF. by apply Forall_cons in HF as [_ HF].
    + simpl. split; [done|]. split; [done|].
      intros HF. apply Forall_cons in HF as [Hk _].
      specialize (Hk T). congruence.
  - split; [done|]. rewrite IH2. split.
    + intros HF. constructor; [intros; congruence|done].
    + intros HF. by apply Forall_cons in HF as [_ HF].
Qed.

Lemma scanKeysValue_reject (c : BaseChain) (pa : option string)
  (record : KeyValue) (o : Obj) :
  snd (scanKeysValue c pa false record o) = o /\
  (fst (scanKeysValue c pa false record o) = Ok tt <->
   Forall (fun kd =>
             truthy (get_prop o (fst kd))
             && deniedMatch (get_prop o (fst kd)) (snd kd) = true ->
             validateAction (scanAction c (fst kd) pa) (actions c) = Ok tt)
     record).
Proof.
  induction record as [|[k d] record [IH1 IH2]];
    [by split; [|split; [constructor|]]|].
  simpl. destruct (truthy (get_prop o k)) eqn:T; simpl.
  - destruct (deniedMatch (get_prop o k) d) eqn:D.
    + unfold bind, lift.
      destruct (validateAction _ _) as [[]|e] eqn:V.
      * split; [done|]. rewrite IH2. split.
        -- intros HF. by constructor.
        -- intros HF. by apply Forall_cons in HF as [_ HF].
      * simpl. split; [done|]. split; [done|].
        intros HF. apply Forall_cons in HF as [Hk _]. simpl in Hk.
        rewrite T, D in Hk. specialize (Hk eq_refl). congruence.
    + split; [done|]. rewrite IH2. split.
      * intros HF. constructor; [|done]. simpl. rewrite T, D. done.
      * intros HF. by apply Forall_cons in HF as [_ HF].
  - split; [done|]. rewrite IH2. split.
    + intros HF. constructor; [|done]. simpl. rewrite T. done.
    + intros HF. by apply Forall_cons in HF as [_ HF].
Qed.


(** ** The Delete chain *)

Lemma checkIfKeysExist_reject (c : BaseChain) (o : option Obj)
  (keys : option (list string)) (pa : option string) :
  _checkIfKeysExist c o keys pa false
  = (fst (_checkIfKeysExist c o keys pa false), o).
Proof.
  destruct o as [o|], keys as [keys|]; try done. unfold _checkIfKeysExist.
  destruct (scanKeys_reject c pa keys o) as [E _].
  destruct (scanKeys c pa false keys o). simpl in *. by subst.
Qed.

Lemma checkIfKeysValueExist_reject (c : BaseChain) (o : option Obj)
  (record : option KeyValue) (pa : option string) :
  _checkIfKeysValueExist c o record pa false
  = (fst (_checkIfKeysValueExist c o record pa false), o).
Proof.
  destruct o as [o|], record as [record|]; try done.
  unfold _checkIfKeysValueExist.
  destruct (scanKeysValue_reject c pa record o) as [E _].
  destruct (scanKeysValue c pa false record o). simpl in *. by subst.
Qed.

Lemma DeleteChain_validate_filter `{Collaborators} (c : DeleteChain.t) :
  DeleteChain.filter (snd (DeleteChain.validate c)) = DeleteChain.filter c.
Proof.
  unfold DeleteChain.validate, bind, this, ret, throw, lift, put. simpl.
  repeat (case_match; simplify_eq/=; try done).
Qed.

(** [prePerform] of the Delete chain: the gate and the two scans, none
    of which changes the chain, then the schema step. *)
Lemma DeleteChain_prePerform_unfold `{Collaborators} (c : DeleteChain.t) :
  let b := DeleteChain.base c in
  let q := endpoint b ≫= query in
  DeleteChain.prePerform c
  = match (BaseChain_prePerform b ;;?
           fst (_checkIfKeysExist b (DeleteChain.filter c)
                  (q ≫= Query.deniedKeys) None false) ;;?
           fst (_checkIfKeysValueExist b (DeleteChain.filter c)
                  (q ≫= Query.deniedKeysValue) None false))%res with
    | Ok _ => DeleteChain.validate c
    | Throw e => (Throw e, c)
    end.
Proof.
  destruct c as [b0 f]. simpl.
  unfold DeleteChain.prePerform, bind, this, lift. simpl.
  destruct (BaseChain_prePerform b0) as [[]|e]; simpl; [|done].
  unfold whenSome, DeleteChain.checkIfKeysExist,
    DeleteChain.checkIfKeysValueExist, DeleteChain.scanFilter. simpl.
  destruct ((endpoint b0 ≫= query) ≫= Query.deniedKeys) as [ks|]; simpl.
  - rewrite checkIfKeysExist_reject.
    destruct (fst (_checkIfKeysExist b0 f (Some ks) None false))
      as [[]|e]; simpl; [|done].
    destruct ((endpoint b0 ≫= query) ≫= Query.deniedKeysValue) as [r|];
      simpl.
    + rewrite checkIfKeysValueExist_reject.
      by destruct (fst (_checkIfKeysValueExist b0 f (Some r) None false))
        as [[]|e].
    + by destruct f.
  - assert (E0 : fst (_checkIfKeysExist b0 f None None false) = Ok tt)
      by (by destruct f).
    rewrite E0. simpl.
    destruct ((endpoint b0 ≫= query) ≫= Query.deniedKeysValue) as [r|];
      simpl.
    + rewrite checkIfKeysValueExist_reject.
      by destruct (fst (_checkIfKeysValueExist b0 f (Some r) None false))
        as [[]|e].
    + by destruct f.
Qed.

(** X15.  The Delete chain checks its filter but never rewrites it.  Its
    [prePerform] runs the predicate gate and then both denied-key scans in
    rejection mode: the first of these that throws ends [prePerform] and
    [perform] with its error and leaves the chain as it was; if none
    throws, the schema step runs on the unchanged chain.  Whatever the
    outcome, the filter after [prePerform] and after [perform] is the
    filter the chain was constructed with. *)
Theorem DeleteChain_checks_but_never_rewrites `{Collaborators} `{Utility}
  (c : DeleteChain.t) (options : jsval) :
  let b := DeleteChain.base c in
  let q := endpoint b ≫= query in
  let checks :=
    (BaseChain_prePerform b ;;?
     fst (_checkIfKeysExist b (DeleteChain.filter c) (q ≫= Query.deniedKeys)
            None false) ;;?
     fst (_checkIfKeysValueExist b (DeleteChain.filter c)
            (q ≫= Query.deniedKeysValue) None false))%res in
  (forall e,
      checks = Throw e ->
      DeleteChain.prePerform c = (Throw e, c) /\
      DeleteChain_perform options c = (Throw e, c)) /\
  (checks = Ok tt -> DeleteChain.prePerform c = DeleteChain.validate c) /\
  DeleteChain.filter (snd (DeleteChain.prePerform c)) = DeleteChain.filter c /\
  DeleteChain.filter (snd (DeleteChain_perform options c))
  = DeleteChain.filter c.
Proof.
  intros b q checks.
  pose proof (DeleteChain_prePerform_unfold c) as E. simpl in E.
  fold b in E. fold q in E. fold checks in E.
  split; [|split; [|split]].
  - intros e He. rewrite He in E. split; [exact E|].
    unfold DeleteChain_perform, bind. by rewrite E.
  - intros He. by rewrite He in E.
  - rewrite E. destruct checks; [apply DeleteChain_validate_filter|done].
  - unfold DeleteChain_perform, bind, this, lift, ret.
    pose proof (DeleteChain_validate_filter c) as Hv.
    rewrite E. destruct checks as [[]|e]; [|done].
    destruct (DeleteChain.validate c) as [[[]|e] c']; simpl in *; [|done].
    by destruct (makeQuery _ _ _ _).
Qed.

(** ** The schema matcher: what the validator is shown *)

Lemma findIndex_ext `{Collaborators} (data data' : jsval) (subs : list jsval)
  (i : nat) (errs : Errors) :
  excludeFields data = excludeFields data' ->
  findIndex data subs i errs = findIndex data' subs i errs.
Proof.
  intros E. revert i errs. induction subs as [|sub subs IH]; intros i errs;
    [done|].
  simpl. rewrite E. destruct (excludeFields data') as [d|e]; simpl; [|done].
  destruct (ajv sub d); [done|apply IH].
Qed.

Lemma validateDataSchema_ext `{Collaborators} (data data' schema : jsval)
  (defaultData defaultOpt : jsval) :
  excludeFields data = excludeFields data' ->
  validateDataSchema data schema defaultData defaultOpt
  = validateDataSchema data' schema defaultData defaultOpt.
Proof.
  intros E. unfold validateDataSchema.
  destruct (prop schema "anyOf") as [anyOf|e]; simpl; [|done].
  destruct (truthy anyOf).
  - destruct anyOf as [p|subs|fs]; try done.
    by rewrite (findIndex_ext data data').
  - by rewrite E.
Qed.

Lemma delete_prop_twice (o : Obj) (k1 k2 : string) :
  delete_prop (delete_prop (delete_prop (delete_prop o k1) k2) k1) k2
  = delete_prop (delete_prop o k1) k2.
Proof.
  unfold delete_prop. rewrite !list_filter_filter.
  apply list_filter_iff. intros kv. tauto.
Qed.

(** X16.  The validator is never shown [sort] or [locale].  Before the
    data reaches the schema engine, in any-of mode and in single-schema
    mode alike, these two properties are taken out of a copy of it; so
    the outcome of [validateDataSchema] does not depend on whether the
    data carries them, nor on what they hold. *)
Theorem validators_never_see_sort_and_locale `{Collaborators}
  (schema defaultData defaultOpt : jsval) (fs : Obj) :
  validateDataSchema (JObj fs) schema defaultData defaultOpt
  = validateDataSchema (JObj (delete_prop (delete_prop fs "sort") "locale"))
      schema defaultData defaultOpt /\
  (forall x y,
      validateDataSchema (JObj (("sort", x) :: ("locale", y) :: fs)) schema
        defaultData defaultOpt
      = validateDataSchema (JObj fs) schema defaultData defaultOpt) /\
  (forall fs',
      delete_prop (delete_prop fs "sort") "locale"
      = delete_prop (delete_prop fs' "sort") "locale" ->
      validateDataSchema (JObj fs) schema defaultData defaultOpt
      = validateDataSchema (JObj fs') schema defaultData defaultOpt).
Proof.
  split; [|split].
  - apply validateDataSchema_ext. simpl. by rewrite delete_prop_twice.
  - intros x y. by apply validateDataSchema_ext.
  - intros fs' E. apply validateDataSchema_ext. simpl. by rewrite E.
Qed.

(** ** The schema matcher: the errors of a valid result *)

Lemma findIndex_after `{Collaborators} (data d : jsval)
  (failing : list jsval) (ess : list (list ErrorObject)) (sub : jsval)
  (rest : list jsval) (i : nat) (errs : Errors) :
  excludeFields data = Ok d ->
  Forall2 (fun s es => ajv s d = Invalid es) failing ess ->
  ajv sub d = Valid ->
  findIndex data (failing ++ sub :: rest)%list i errs
  = Ok (Some (i + length failing)%nat,
        match last ess with Some es => Some es | None => errs end).
Proof.
  intros Hd HF Hv. revert i errs.
  induction HF as [|s es failing ess Hs HF IH]; intros i errs.
  - simpl. rewrite Hd. simpl. rewrite Hv. by rewrite Nat.add_0_r.
  - simpl. rewrite Hd. simpl. rewrite Hs, IH.
    replace (S i + length failing)%nat with (i + S (length failing))%nat
      by lia.
    do 2 f_equal. destruct ess as [|es' ess]; [done|].
    rewrite last_cons_cons.
    destruct (last (es' :: ess)) eqn:L; [done|]. by apply last_None in L.
Qed.

(** X17.  In any-of mode a valid result can carry errors.  [errors] is
    assigned by every branch that fails and never cleared: when the
    winning branch is not the first one, the result is valid and its
    [errors] are those of the branch tried just before the winner; only
    when the first branch wins are there none. *)
Theorem valid_result_may_carry_errors `{Collaborators} (data d : jsval)
  (schema : Obj) (failing : list jsval) (ess : list (list ErrorObject))
  (sub : jsval) (rest : list jsval) (own ownOpt : jsval)
  (defaultData defaultOpt : jsval) :
  get_prop schema "anyOf" = JArr (failing ++ sub :: rest)%list ->
  excludeFields data = Ok d ->
  Forall2 (fun s es => ajv s d = Invalid es) failing ess ->
  ajv sub d = Valid ->
  prop sub "default" = Ok own ->
  prop sub "options" = Ok ownOpt ->
  exists r,
    validateDataSchema data (JObj schema) defaultData defaultOpt = Ok r /\
    isValid r = true /\
    errors r = last ess.
Proof.
  intros Hany Hd HF Hv Hown Hopt.
  unfold validateDataSchema. simpl. rewrite Hany. simpl.
  rewrite (findIndex_after data d failing ess sub rest 0%nat None Hd HF Hv).
  simpl. rewrite list_lookup_middle by done. simpl.
  rewrite Hown. simpl. rewrite Hopt. simpl.
  eexists; split; [done|]. split; [done|]. simpl. by destruct (last ess).
Qed.

(** ** The schema matcher: data that is missing *)

(** X18.  Data that is [undefined] or [null] does not give an invalid
    result but a [TypeError]: taking [sort] out of a copy of it throws,
    in single-schema mode and at the first branch in any-of mode.  So a
    Create chain without a document, on an endpoint that declares such
    [body.schemas], ends [prePerform] and [perform] with a [TypeError],
    which carries no status, and not with the 403 error "Restricted
    Data". *)
Theorem missing_data_is_a_TypeError `{Collaborators} (data : jsval)
  (schema : Obj) (defaultData defaultOpt : jsval) :
  data = JUndefined \/ data = JNull ->
  truthy (get_prop schema "anyOf") = false \/
  (exists sub rest, get_prop schema "anyOf" = JArr (sub :: rest)) ->
  validateDataSchema data (JObj schema) defaultData defaultOpt
  = Throw ETypeError /\
  status_of ETypeError = None /\
  forall (c : CreateChain.t) (options : jsval),
    BaseChain_prePerform (CreateChain.base c) = Ok tt ->
    CreateChain.doc c = None ->
    (endpoint (CreateChain.base c) ≫= body) ≫= Body.schemas = Some schema ->
    CreateChain.prePerform c = (Throw ETypeError, c) /\
    CreateChain.perform options c = (Throw ETypeError, c).
Proof.
  intros Hdata Hschema.
  assert (Hx : excludeFields data = Throw ETypeError)
    by (by destruct Hdata as [-> | ->]).
  assert (Hv : forall dd dopt,
             validateDataSchema JUndefined (JObj schema) dd dopt
             = Throw ETypeError).
  { intros dd dopt. unfold validateDataSchema. simpl.
    destruct Hschema as [Hf|(sub & rest & Hs)].
    - by rewrite Hf.
    - by rewrite Hs. }
  split; [|split; [done|]].
  - unfold validateDataSchema. simpl.
    destruct Hschema as [Hf|(sub & rest & Hs)].
    + rewrite Hf. by rewrite Hx.
    + rewrite Hs. simpl. by rewrite Hx.
  - intros c options Hgate Hdoc Hs.
    assert (E : CreateChain.prePerform c = (Throw ETypeError, c)).
    { rewrite CreateChain_prePerform_strips by done.
      destruct c as [b d]. simpl in *. subst d. simpl.
      unfold CreateChain.validate, bind, this, lift. simpl.
      rewrite Hs. simpl. by rewrite Hv. }
    split; [exact E|]. unfold CreateChain.perform, bind. by rewrite E.
Qed.

(** ** The schema step of the Update chain *)

(** X19.  The Update chain consults a schema only for what is not empty,
    and reports both kinds of violation under the query's texts.  After
    the denied keys are dropped:
    - if neither filter nor update has a property left, [prePerform]
      passes, whatever [query.schemas] and [body.schemas] demand -- an
      update made of denied keys only is such a case;
    - a filter that violates [query.schemas] gives the 403 error titled
      [query.errorTitle] (or "Restricted Query"), without detail, before
      the update is looked at;
    - an update that violates [body.schemas] gives the 403 error whose
      title and message are again [query.errorTitle] and
      [query.errorMessage] when these are set (else "Restricted Body"),
      with the engine's errors as detail. *)
Theorem UpdateChain_schema_step `{Collaborators} (c : UpdateChain.t) :
  BaseChain_prePerform (UpdateChain.base c) = Ok tt ->
  let q := endpoint (UpdateChain.base c) ≫= query in
  let b := endpoint (UpdateChain.base c) ≫= body in
  let f := stripped (q ≫= Query.deniedKeys) (q ≫= Query.deniedKeysValue)
             (UpdateChain.filter c) in
  let u := stripped (b ≫= Body.deniedKeys) (b ≫= Body.deniedKeysValue)
             (UpdateChain.update c) in
  let c' := UpdateChain.mk (UpdateChain.base c) f u in
  (isEmpty_obj f = true -> isEmpty_obj u = true ->
   UpdateChain.prePerform c = (Ok tt, c')) /\
  (forall qs es,
      q ≫= Query.schemas = Some qs -> isEmpty_obj f = false ->
      ajv (JObj qs) (data_of f) = Invalid es ->
      UpdateChain.prePerform c
      = (Throw (EStatus (mkStatusError 403
                  (str_or_else (q ≫= Query.errorTitle) "Restricted Query")
                  (str_or_else (q ≫= Query.errorMessage)
                     "The query you provided is not allowed by the system.")
                  None)), c')) /\
  (forall bs es,
      (q ≫= Query.schemas = None \/ isEmpty_obj f = true \/
       exists qs, q ≫= Query.schemas = Some qs /\
                  ajv (JObj qs) (data_of f) = Valid) ->
      b ≫= Body.schemas = Some bs -> isEmpty_obj u = false ->
      ajv (JObj bs) (data_of u) = Invalid es ->
      UpdateChain.prePerform c
      = (Throw (EStatus (mkStatusError 403
                  (str_or_else (q ≫= Query.errorTitle) "Restricted Body")
                  (str_or_else (q ≫= Query.errorMessage)
                     "The body you provided is not allowed by the system.")
                  (Some es))), c')).
Proof.
  intros Hgate q b f u c'.
  rewrite UpdateChain_prePerform_strips by done.
  fold q. fold b. fold f. fold u. fold c'.
  unfold UpdateChain.validate, bind, this, ret, throw. simpl.
  fold q. fold b.
  split; [|split].
  - intros Hf Hu. rewrite Hf, Hu.
    by destruct (q ≫= Query.schemas), (b ≫= Body.schemas).
  - intros qs es Hq Hf Hbad. by rewrite Hq, Hf, Hbad.
  - intros bs es Hq Hb Hu Hbad. rewrite Hb, Hu, Hbad.
    destruct Hq as [-> |[Hf|(qs & -> & Hok)]]; [done| |].
    + rewrite Hf. by destruct (q ≫= Query.schemas).
    + rewrite Hok. by destruct (isEmpty_obj f).
Qed.

(** ** The schema step of the Create chain without [body.schemas] *)

(** X20.  A Create chain whose endpoint declares no [body.schemas]
    validates the document against the model's own schema, unless the
    endpoint sets [useDefaultSchema] to [false].  This is so even when
    the principal's level has no endpoint for the path at all.  The
    engine is shown the document as it is after the denied keys were
    dropped; an invalid document gives the 403 error "Restricted Data"
    with the engine's errors. *)
Theorem CreateChain_default_schema `{Collaborators} (c : CreateChain.t) :
  BaseChain_prePerform (CreateChain.base c) = Ok tt ->
  let b := endpoint (CreateChain.base c) ≫= body in
  b ≫= Body.schemas = None ->
  let d := stripped (b ≫= Body.deniedKeys) (b ≫= Body.deniedKeysValue)
             (CreateChain.doc c) in
  let verdict_of :=
    match ajv (getEntity (iModel (CreateChain.base c))) (data_of d) with
    | Valid => Ok tt
    | Invalid es => Throw (RestrictedData (Some es))
    end in
  CreateChain.prePerform c
  = (if bool_decide (b ≫= Body.useDefaultSchema = Some false) then Ok tt
     else verdict_of,
     CreateChain.mk (CreateChain.base c) d) /\
  (endpoint (CreateChain.base c) = None ->
   CreateChain.prePerform c
   = (match ajv (getEntity (iModel (CreateChain.base c)))
              (data_of (CreateChain.doc c)) with
      | Valid => Ok tt
      | Invalid es => Throw (RestrictedData (Some es))
      end, c)).
Proof.
  intros Hgate b Hs d verdict_of.
  assert (E : CreateChain.prePerform c
              = (if bool_decide (b ≫= Body.useDefaultSchema = Some false)
                 then Ok tt else verdict_of,
                 CreateChain.mk (CreateChain.base c) d)).
  { rewrite CreateChain_prePerform_strips by done. fold b. fold d.
    unfold CreateChain.validate, bind, this, ret, throw. simpl. fold b.
    rewrite Hs. unfold verdict_of.
    destruct (b ≫= Body.useDefaultSchema) as [[|]|]; simpl;
      by destruct (ajv _ _). }
  split; [exact E|].
  intros Hep. rewrite E. unfold verdict_of, d, b. rewrite Hep. simpl.
  destruct c as [b0 [d0|]]; simpl; done.
Qed.

(** ** The observer of [setCurrentUser] *)

Lemma foldl_visit_app {S} (f : string -> jsval -> S -> S) (s : S)
  (l1 l2 : list (string * jsval)) :
  foldl (fun s kv => f (fst kv) (snd kv) s) s (l1 ++ l2)%list
  = foldl (fun s kv => f (fst kv) (snd kv) s)
      (foldl (fun s kv => f (fst kv) (snd kv) s) s l1) l2.
Proof. apply foldl_app. Qed.

Lemma baseClone_visits {S} (u : UserDocument)
  (f : string -> jsval -> S -> S) (stringify : bool) (value : jsval) :
  forall (key : pkey) (s : S),
    snd (baseClone (userCustomizer u (Some f) stringify) value key s)
    = foldl (fun s kv => f (fst kv) (snd kv) s) s (visits key value).
Proof.
  induction value as [p|xs IH|fs IH] using jsval_ind; intros key s.
  - simpl. rewrite app_nil_r.
    destruct (pkey_truthy key); simpl; by case_match.
  - cbn [baseClone userCustomizer is_str visits]. rewrite foldl_visit_app.
    set (s' := if pkey_truthy key then _ else s).
    assert (Es : foldl (fun s kv => f (fst kv) (snd kv) s) s
                   (if pkey_truthy key then [(pkey_toString key, JArr xs)]
                    else []) = s').
    { unfold s'. by destruct (pkey_truthy key). }
    rewrite Es. clear Es. generalize s'. clear s' s key.
    generalize 0%nat.
    induction IH as [|x xs Hx _ IHxs]; intros i s; [done|].
    specialize (Hx (KIndex i) s).
    destruct (baseClone _ x (KIndex i) s) as [y s2]. simpl in Hx.
    specialize (IHxs (Datatypes.S i) s2).
    rewrite foldl_visit_app, <- Hx. revert IHxs.
    destruct ((fix elements (xs0 : list jsval) (i0 : nat) (s1 : S) := _)
                xs (Datatypes.S i) s2) as [ys s3].
    simpl. by intros ->.
  - cbn [baseClone userCustomizer is_str visits]. rewrite foldl_visit_app.
    set (s' := if pkey_truthy key then _ else s).
    assert (Es : foldl (fun s kv => f (fst kv) (snd kv) s) s
                   (if pkey_truthy key then [(pkey_toString key, JObj fs)]
                    else []) = s').
    { unfold s'. by destruct (pkey_truthy key). }
    rewrite Es. clear Es. generalize s'. clear s' s key.
    induction IH as [|[k x] fs Hx _ IHfs]; intros s; [done|].
    specialize (Hx (KName k) s). simpl in Hx.
    destruct (baseClone _ x (KName k) s) as [y s2]. simpl in Hx.
    specialize (IHfs s2).
    rewrite foldl_visit_app, <- Hx. revert IHfs.
    destruct ((fix properties (fs0 : Obj) (s1 : S) := _) fs s2)
      as [gs s3].
    simpl. by intros ->.
Qed.

Lemma uploadFile_appends (c : BaseChain) (key : string) (value : jsval)
  (acc : list Uploads) :
  CreateChain.uploadFile c key value acc
  = (acc ++ CreateChain.uploadFile c key value [])%list.
Proof.
  unfold CreateChain.uploadFile.
  destruct value as [[| | | |str|]| |]; try (by rewrite app_nil_r).
  destruct (endsWith key "_file_url"); [done|by rewrite app_nil_r].
Qed.

Lemma visits_elements (xs : list jsval) (i : nat) :
  (fix elements (xs : list jsval) (i : nat) : list (string * jsval) :=
     match xs with
     | [] => []
     | x :: xs' => (visits (KIndex i) x ++ elements xs' (S i))%list
     end) xs i
  = concat (imap (fun j x => visits (KIndex (i + j)) x) xs).
Proof.
  revert i. induction xs as [|x xs IH]; intros i; [done|].
  rewrite IH. simpl. rewrite Nat.add_0_r. do 2 f_equal.
  apply imap_ext. intros j y _. simpl. f_equal. f_equal. lia.
Qed.

Lemma visits_properties (fs : Obj) :
  (fix properties (fs : Obj) : list (string * jsval) :=
     match fs with
     | [] => []
     | (k, x) :: fs' => (visits (KName k) x ++ properties fs')%list
     end) fs
  = concat (map (fun kv => visits (KName (fst kv)) (snd kv)) fs).
Proof. induction fs as [|[k x] fs IH]; [done|]. by rewrite IH. Qed.

(** X21.  What the observer of [setCurrentUser] is shown.  The callback
    is called once for every property and array element of the data that
    has a truthy key -- at every depth, a node before its children, in
    document order, with the value as it was before the substitution --
    and for nothing else: not for the data itself, not for the element at
    index 0 of an array, not for a property named by the empty string.
    For the chains' own observer this means: the uploads it collects are,
    in document order, one for each such node whose key ends in
    [_file_url] and whose value is a string. *)
Theorem observer_sees_every_keyed_node {S} (c : BaseChain) (data : jsval)
  (stringify : bool) :
  let own key value :=
    if pkey_truthy key then [(pkey_toString key, value)] else [] in
  (forall (f : string -> jsval -> S -> S) (s : S),
      snd (setCurrentUser c data (Some f) stringify s)
      = foldl (fun s kv => f (fst kv) (snd kv) s) s (visits KNone data)) /\
  snd (setCurrentUser c data (Some (CreateChain.uploadFile c)) stringify [])
  = concat (map (fun kv => CreateChain.uploadFile c (fst kv) (snd kv) [])
              (visits KNone data)) /\
  (forall key p, visits key (JPrim p) = own key (JPrim p)) /\
  (forall key xs,
      visits key (JArr xs)
      = (own key (JArr xs)
         ++ concat (imap (fun i x => visits (KIndex i) x) xs))%list) /\
  (forall key fs,
      visits key (JObj fs)
      = (own key (JObj fs)
         ++ concat (map (fun kv => visits (KName (fst kv)) (snd kv)) fs))%list)
  /\
  (forall value,
      own KNone value = [] /\ own (KIndex 0) value = [] /\
      own (KName "") value = []).
Proof.
  intros own.
  assert (Hfold : forall (T : Type) (f : string -> jsval -> T -> T) (s : T),
             snd (setCurrentUser c data (Some f) stringify s)
             = foldl (fun s kv => f (fst kv) (snd kv) s) s
                 (visits KNone data)).
  { intros T f s. apply baseClone_visits. }
  split; [apply Hfold|]. split; [|split; [|split; [|split]]].
  - rewrite Hfold. generalize (visits KNone data). intros l.
    assert (E : forall acc,
               foldl (fun s kv => CreateChain.uploadFile c (fst kv) (snd kv) s)
                 acc l
               = (acc ++ concat (map (fun kv => CreateChain.uploadFile c
                                                  (fst kv) (snd kv) []) l))%list).
    { induction l as [|kv l IH]; intros acc; simpl; [by rewrite app_nil_r|].
      by rewrite IH, (uploadFile_appends c _ _ acc), <- app_assoc. }
    apply (E []).
  - intros key p. simpl. by rewrite app_nil_r.
  - intros key xs. cbn [visits]. by rewrite visits_elements.
  - intros key fs. cbn [visits]. by rewrite visits_properties.
  - done.
Qed.

(** ** Declared and detected uploads *)

Lemma uniqByField_props (seen : list string) (us : list Uploads) :
  NoDup (map field (uniqByField seen us)) /\
  (forall u, u ∈ uniqByField seen us -> u ∈ us /\ field u ∉ seen) /\
  (forall u, u ∈ us ->
             field u ∈ seen \/ field u ∈ map field (uniqByField seen us)).
Proof.
  revert seen. induction us as [|u us IH]; intros seen.
  - split; [constructor|]. split; intros u Hu; by apply elem_of_nil in Hu.
  - simpl. case_bool_decide as Hseen.
    + destruct (IH seen) as (Hnd & Hin & Hall). split; [done|]. split.
      * intros u' Hu'. destruct (Hin u' Hu') as [H1 H2].
        split; [apply elem_of_cons; by right|done].
      * intros u' Hu'. apply elem_of_cons in Hu' as [->|Hu'];
          [by left|by apply Hall].
    + destruct (IH (field u :: seen)) as (Hnd & Hin & Hall). split; [|split].
      * simpl. constructor; [|done]. intros Hf.
        apply list_elem_of_fmap in Hf as (u' & Hf & Hu').
        destruct (Hin u' Hu') as [_ Hn]. apply Hn, elem_of_cons. by left.
      * intros u' Hu'. apply elem_of_cons in Hu' as [->|Hu'].
        -- split; [apply elem_of_cons; by left|done].
        -- destruct (Hin u' Hu') as [H1 H2].
           split; [apply elem_of_cons; by right|].
           intros Hs. apply H2, elem_of_cons. by right.
      * intros u' Hu'. simpl.
        apply elem_of_cons in Hu' as [->|Hu'];
          [right; apply elem_of_cons; by left|].
        destruct (Hall u' Hu') as [Hs|Hr].
        -- apply elem_of_cons in Hs as [Hs|Hs]; [|by left].
           right. rewrite Hs. apply elem_of_cons. by left.
        -- right. apply elem_of_cons. by right.
Qed.

Lemma uniqByField_declared (seen : list string)
  (declared detected : list Uploads) :
  NoDup (map field declared) ->
  (forall u, u ∈ declared -> field u ∉ seen) ->
  uniqByField seen (declared ++ detected)
  = (declared
     ++ uniqByField (reverse (map field declared) ++ seen) detected)%list.
Proof.
  revert seen. induction declared as [|u ds IH]; intros seen Hnd Hfresh;
    [done|].
  simpl in *. apply NoDup_cons in Hnd as [Hu Hnd].
  rewrite bool_decide_eq_false_2
    by (apply Hfresh, elem_of_cons; by left).
  f_equal. rewrite IH; [|done|].
  - by rewrite reverse_cons, <- app_assoc.
  - intros u' Hu' Hin. apply elem_of_cons in Hin as [Hin|Hin].
    + apply Hu. rewrite <- Hin. apply list_elem_of_fmap. eauto.
    + apply (Hfresh u'); [apply elem_of_cons; by right|done].
Qed.

Lemma uniqByField_sublist (seen : list string) (us : list Uploads) :
  sublist (uniqByField seen us) us.
Proof.
  revert seen. induction us as [|u us IH]; intros seen; [done|].
  simpl. case_bool_decide.
  - by apply sublist_cons.
  - by apply sublist_skip.
Qed.

(** [uniqBy] on declared uploads that name each field once, followed by
    detected ones: the declared uploads are all kept, in order and in
    front; a detected upload is kept only for a field that was not
    declared; no field is kept twice and no field gets lost. *)
Lemma uniqByField_precedence (declared detected : list Uploads) :
  NoDup (map field declared) ->
  exists rest,
    uniqByField [] (declared ++ detected) = (declared ++ rest)%list /\
    sublist rest detected /\
    NoDup (map field (declared ++ rest)) /\
    (forall u, u ∈ rest -> field u ∉ map field declared) /\
    (forall u, u ∈ detected -> field u ∈ map field (declared ++ rest)).
Proof.
  intros Hnd.
  exists (uniqByField (reverse (map field declared)) detected).
  destruct (uniqByField_props (reverse (map field declared)) detected)
    as (Hnd' & Hin & Hall).
  split; [|split; [|split; [|split]]].
  - rewrite (uniqByField_declared [] declared detected Hnd).
    + by rewrite app_nil_r.
    + intros u _ Hu. by apply elem_of_nil in Hu.
  - apply uniqByField_sublist.
  - rewrite map_app. apply NoDup_app. split; [done|]. split; [|done].
    intros x Hx Hx'. apply list_elem_of_fmap in Hx' as (u & -> & Hu).
    destruct (Hin u Hu) as [_ Hn]. apply Hn. by apply elem_of_reverse.
  - intros u Hu. destruct (Hin u Hu) as [H1 H2].
    intros Hf. apply H2. by apply elem_of_reverse.
  - intros u Hu. rewrite map_app. apply elem_of_app.
    destruct (Hall u Hu) as [Hs|Hr]; [left|by right].
    by rewrite elem_of_reverse in Hs.
Qed.

(** [perform] of the Create chain after a [prePerform] that passed, for a
    principal with an [_id]: the uploads are put together and, if there
    are any, handed to the relocator. *)
Lemma CreateChain_perform_uploads `{Collaborators} (c c' : CreateChain.t)
  (options : jsval) (o : ObjectId) :
  CreateChain.prePerform c = (Ok tt, c') ->
  _id (user (CreateChain.base c')) = Some o ->
  let b := endpoint (CreateChain.base c') ≫= body in
  let dflt := default JUndefined (Body.default <$> b) in
  let copied :=
    setCurrentUser (CreateChain.base c')
      (merge (data_of (CreateChain.doc c'))
         (if truthy dflt then dflt else JObj []))
      (Some (CreateChain.uploadFile (CreateChain.base c'))) false [] in
  let declared :=
    map (fun u => mkUploads (field u) (acl u)
                    (replaceAll (directory u) sentinel (hex o)))
      (default [] (b ≫= Body.uploads)) in
  let descriptor files :=
    CreateChain.mkResult (merge (fst copied) files)
      (default JUndefined
         (Query.default <$> (endpoint (CreateChain.base c') ≫= query)))
      options in
  CreateChain.perform options c
  = (match uniqByField [] (declared ++ snd copied) with
     | [] => Ok (descriptor (JObj []))
     | u :: us =>
         match moveFieldsFile (u :: us) (fst copied) with
         | Ok files => Ok (descriptor files)
         | Throw e => Throw e
         end
     end, c').
Proof.
  intros Hpre Hid b dflt copied declared descriptor.
  unfold CreateChain.perform, bind at 1. rewrite Hpre.
  unfold bind, this, lift, ret. fold b. fold dflt. fold copied.
  destruct copied as [d tempUploads] eqn:Ec. simpl.
  assert (Er : CreateChain.resolveUploads (CreateChain.base c')
                 (default [] (b ≫= Body.uploads)) = Ok declared).
  { unfold CreateChain.resolveUploads. rewrite Hid. subst declared.
    by destruct (default [] (b ≫= Body.uploads)). }
  rewrite Er. simpl.
  destruct (uniqByField [] (declared ++ tempUploads)) as [|u l]; [done|].
  by destruct (moveFieldsFile (u :: l) d).
Qed.

(** X22.  Declared uploads take precedence in what [perform] of the
    Create chain hands to the relocator.  Let [prePerform] pass, the
    principal have an [_id], and the endpoint declare uploads that name
    each field once.  Then [moveFieldsFile] is called once, with the
    substituted document and with the declared uploads (their
    [*current_user*] filled in), all of them, in order and in front,
    followed by some of the detected uploads in the order they were
    detected: those for the fields that were not declared, one for each
    such field.  No field is handed over twice and no detected field gets
    lost; the outcome of [perform] is the relocator's. *)
Theorem declared_uploads_take_precedence `{Collaborators}
  (c c' : CreateChain.t) (options : jsval) (o : ObjectId) :
  CreateChain.prePerform c = (Ok tt, c') ->
  _id (user (CreateChain.base c')) = Some o ->
  let b := endpoint (CreateChain.base c') ≫= body in
  let dflt := default JUndefined (Body.default <$> b) in
  let copied :=
    setCurrentUser (CreateChain.base c')
      (merge (data_of (CreateChain.doc c'))
         (if truthy dflt then dflt else JObj []))
      (Some (CreateChain.uploadFile (CreateChain.base c'))) false [] in
  let declared :=
    map (fun u => mkUploads (field u) (acl u)
                    (replaceAll (directory u) sentinel (hex o)))
      (default [] (b ≫= Body.uploads)) in
  let detected := snd copied in
  let descriptor files :=
    CreateChain.mkResult (merge (fst copied) files)
      (default JUndefined
         (Query.default <$> (endpoint (CreateChain.base c') ≫= query)))
      options in
  declared <> [] ->
  NoDup (map field declared) ->
  exists rest,
    CreateChain.perform options c
    = (match moveFieldsFile (declared ++ rest) (fst copied) with
       | Ok files => Ok (descriptor files)
       | Throw e => Throw e
       end, c') /\
    sublist rest detected /\
    NoDup (map field (declared ++ rest)) /\
    (forall u, u ∈ rest -> field u ∉ map field declared) /\
    (forall u, u ∈ detected -> field u ∈ map field (declared ++ rest)).
Proof.
  intros Hpre Hid b dflt copied declared detected descriptor Hne Hnd.
  destruct (uniqByField_precedence declared detected Hnd)
    as (rest & E & Hsub & Hnd' & Hrest & Hall).
  exists rest. split; [|done].
  rewrite (CreateChain_perform_uploads c c' options o Hpre Hid).
  fold b. fold dflt. fold copied. fold declared. fold detected. rewrite E.
  destruct declared as [|u us]; [done|]. done.
Qed.

(** ** The factory *)

Lemma checkRateLimit_errors (now : Z) (c : BaseChain) (windows max : Z)
  (s : NodeCache.store) (e : exn) :
  fst (checkRateLimit now c windows max s) = Throw e ->
  e = TooManyRequest \/ e = ETypeError.
Proof.
  unfold checkRateLimit, penalise, bind, ask, tell, ret, throw.
  repeat case_match; simplify_eq/=; try done; intros [= <-]; auto.
Qed.

(** The errors of the constructor carry status 401, 403 or 429, or none:
    never 500. *)
Lemma BaseChain_new_not500 (now : Z) (model : string) (usr : UserDocument)
  (pth : string) (pre base : option string) (ch : option cache_ref)
  (addr : option IP) (s : NodeCache.store) :
  ~ throws_status (fst (BaseChain_new now model usr pth pre base ch addr s))
      500.
Proof.
  unfold BaseChain_new.
  set (ep := level usr ≫= _).
  set (c0 := mkBase _ _ _ _ _ _ _ _ _ _ _).
  set (rate := match ch with Some _ => _ | None => _ end).
  unfold bind at 1.
  destruct (rate s) as [[c1|e1] s1] eqn:E.
  - unfold bind, lift, when, visitorVisit, checkAction, validateAction,
      checkIfUserIs.
    intros (e & He & Hs). revert He.
    repeat (case_match; simplify_eq/=; try done);
      intros [= <-]; simplify_eq/=.
  - intros (e & [= <-] & Hs).
    assert (He : e1 = TooManyRequest \/ e1 = ETypeError).
    { unfold rate in E. revert E. repeat case_match; try done.
      intros E. apply (checkRateLimit_errors now c0 (ttl r) (max r) s).
      by rewrite E. }
    by destruct He as [-> | ->].
Qed.

Lemma method_known (m : string) :
  m ∈ ["POST"; "PUT"; "DELETE"; "GET"] <->
  String.eqb m "POST" || String.eqb m "PUT" || String.eqb m "DELETE"
  || String.eqb m "GET" = true.
Proof.
  rewrite !elem_of_cons, elem_of_nil.
  destruct (String.eqb_spec m "POST"), (String.eqb_spec m "PUT"),
    (String.eqb_spec m "DELETE"), (String.eqb_spec m "GET"); simpl;
    intuition congruence.
Qed.

(** X23.  [Channel.createChain] picks the chain by the HTTP method alone:
    POST gives a Create chain over the body, PUT an Update chain, DELETE
    a Delete chain and GET a Read chain, the last three over [params] as
    filter, or over [query] when [params] is empty; each is constructed
    for the context's user and endpoint key, with its own action prefix.
    Any other method is answered with the 500 error "Unknown Method"
    before anything is checked -- the cache is not touched, no rate limit
    is charged -- and a 500 has no other cause. *)
Theorem createChain_dispatch (now : Z) (ctx : Channel.LaunchingMaxContext)
  (iModel : string) (base : option string) (s : NodeCache.store) :
  let res := Channel.createChain now ctx iModel base s in
  let known := Channel.method ctx ∈ ["POST"; "PUT"; "DELETE"; "GET"] in
  let filter :=
    if isEmpty_obj (Channel.params ctx) then Channel.query ctx
    else Channel.params ctx in
  (~ known ->
   res = (Throw (Channel.UnknownMethod (Channel.method ctx)), s)) /\
  (throws_status (fst res) 500 <-> ~ known) /\
  (forall ch,
      fst res = Ok ch ->
      user (Channel.baseOf ch) = Channel.user ctx /\
      path (Channel.baseOf ch) = Channel.endpointKey ctx /\
      match ch with
      | Channel.OfCreate c =>
          Channel.method ctx = "POST" /\
          CreateChain.doc c = Channel.body ctx /\
          prefix (CreateChain.base c) = Some "Create"
      | Channel.OfUpdate c =>
          Channel.method ctx = "PUT" /\
          UpdateChain.filter c = filter /\
          UpdateChain.update c = Channel.body ctx /\
          prefix (UpdateChain.base c) = Some "Update"
      | Channel.OfDelete c =>
          Channel.method ctx = "DELETE" /\
          DeleteChain.filter c = filter /\
          prefix (DeleteChain.base c) = Some "Delete"
      | Channel.OfRead c =>
          Channel.method ctx = "GET" /\
          ReadChain.filter c = filter /\
          prefix (ReadChain.base c) = Some "Read"
      end).
Proof.
  intros res known filter. subst res. unfold known.
  rewrite method_known. unfold Channel.createChain. fold filter.
  destruct (String.eqb_spec (Channel.method ctx) "POST") as [Em|_].
  { split; [done|]. split.
    - split; [|done]. intros Hs. exfalso. revert Hs.
      unfold CreateChain.new, bind, ret.
      pose proof (BaseChain_new_not500 now iModel (Channel.user ctx)
                    (Channel.endpointKey ctx) (Some "Create")
                    (str_or base (Channel.baseAction ctx))
                    (Channel.cache ctx) (Channel.ip ctx) s) as Hn.
      destruct (BaseChain_new _ _ _ _ _ _ _ _ s) as [[c|e] s1]; simpl in *.
      + by intros (e & He & _).
      + intros (e' & [= <-] & Hs). apply Hn. by exists e.
    - intros ch. unfold CreateChain.new, bind, ret.
      pose proof (BaseChain_new_Ok now iModel (Channel.user ctx)
                    (Channel.endpointKey ctx) (Some "Create")
                    (str_or base (Channel.baseAction ctx))
                    (Channel.cache ctx) (Channel.ip ctx) s) as Hok.
      destruct (BaseChain_new _ _ _ _ _ _ _ _ s) as [[c|e] s1]; simpl in *;
        [|done].
      intros [= <-]. destruct (Hok c eq_refl) as (_ & _ & _ & ->). done. }
  destruct (String.eqb_spec (Channel.method ctx) "PUT") as [Em|_].
  { split; [done|]. split.
    - split; [|done]. intros Hs. exfalso. revert Hs.
      unfold UpdateChain.new, bind, ret.
      pose proof (BaseChain_new_not500 now iModel (Channel.user ctx)
                    (Channel.endpointKey ctx) (Some "Update") base
                    (Channel.cache ctx) (Channel.ip ctx) s) as Hn.
      destruct (BaseChain_new _ _ _ _ _ _ _ _ s) as [[c|e] s1]; simpl in *.
      + by intros (e & He & _).
      + intros (e' & [= <-] & Hs). apply Hn. by exists e.
    - intros ch. unfold UpdateChain.new, bind, ret.
      pose proof (BaseChain_new_Ok now iModel (Channel.user ctx)
                    (Channel.endpointKey ctx) (Some "Update") base
                    (Channel.cache ctx) (Channel.ip ctx) s) as Hok.
      destruct (BaseChain_new _ _ _ _ _ _ _ _ s) as [[c|e] s1]; simpl in *;
        [|done].
      intros [= <-]. destruct (Hok c eq_refl) as (_ & _ & _ & ->). done. }
  destruct (String.eqb_spec (Channel.method ctx) "DELETE") as [Em|_].
  { split; [done|]. split.
    - split; [|done]. intros Hs. exfalso. revert Hs.
      unfold DeleteChain.new, bind, ret.
      pose proof (BaseChain_new_not500 now iModel (Channel.user ctx)
                    (Channel.endpointKey ctx) (Some "Delete") base
                    (Channel.cache ctx) (Channel.ip ctx) s) as Hn.
      destruct (BaseChain_new _ _ _ _ _ _ _ _ s) as [[c|e] s1]; simpl in *.
      + by intros (e & He & _).
      + intros (e' & [= <-] & Hs). apply Hn. by exists e.
    - intros ch. unfold DeleteChain.new, bind, ret.
      pose proof (BaseChain_new_Ok now iModel (Channel.user ctx)
                    (Channel.endpointKey ctx) (Some "Delete") base
                    (Channel.cache ctx) (Channel.ip ctx) s) as Hok.
      destruct (BaseChain_new _ _ _ _ _ _ _ _ s) as [[c|e] s1]; simpl in *;
        [|done].
      intros [= <-]. destruct (Hok c eq_refl) as (_ & _ & _ & ->). done. }
  destruct (String.eqb_spec (Channel.method ctx) "GET") as [Em|_].
  { split; [done|]. split.
    - split; [|done]. intros Hs. exfalso. revert Hs.
      unfold ReadChain.new, bind, ret.
      pose proof (BaseChain_new_not500 now iModel (Channel.user ctx)
                    (Channel.endpointKey ctx) (Some "Read") base
                    (Channel.cache ctx) (Channel.ip ctx) s) as Hn.
      destruct (BaseChain_new _ _ _ _ _ _ _ _ s) as [[c|e] s1]; simpl in *.
      + by intros (e & He & _).
      + intros (e' & [= <-] & Hs). apply Hn. by exists e.
    - intros ch. unfold ReadChain.new, bind, ret.
      pose proof (BaseChain_new_Ok now iModel (Channel.user ctx)
                    (Channel.endpointKey ctx) (Some "Read") base
                    (Channel.cache ctx) (Channel.ip ctx) s) as Hok.
      destruct (BaseChain_new _ _ _ _ _ _ _ _ s) as [[c|e] s1]; simpl in *;
        [|done].
      intros [= <-]. destruct (Hok c eq_refl) as (_ & _ & _ & ->). done. }
  simpl. split; [done|]. split; [|done].
  split; [done|]. intros _. by eexists.
Qed.

(** ** The schema step of the Read chain *)

(** X24.  The schema step of the Read chain.  The filter, after the
    denied keys were dropped and the nested keys parsed, is matched
    against [query.schemas] in which the sentinel stands for the
    principal's id as a string.
    - A match overwrites the endpoint's [query.default] and
      [query.options] with the ones the matcher selected, and leaves the
      filter alone.
    - A mismatch gives the 403 error "Restricted Query" with the
      matcher's errors as detail; its message ends with the message of
      the last of these errors, or is the plain sentence when the matcher
      reported none.  (An empty list of errors cannot be indexed: the
      step then ends in a [TypeError].) *)
Theorem ReadChain_schema_step `{Collaborators} (c : ReadChain.t)
  (schemas : Obj) (r : ValidationResult) :
  BaseChain_prePerform (ReadChain.base c) = Ok tt ->
  let q := endpoint (ReadChain.base c) ≫= query in
  q ≫= Query.schemas = Some schemas ->
  let f := parseNestedObject
             (stripped (q ≫= Query.deniedKeys) (q ≫= Query.deniedKeysValue)
                (ReadChain.filter c)) in
  validateDataSchema (data_of f)
    (fst (setCurrentUser (S := unit) (ReadChain.base c) (JObj schemas) None
            true tt))
    (default JUndefined (Query.default <$> q))
    (default JUndefined (Query.options <$> q)) = Ok r ->
  let c' := ReadChain.mk (ReadChain.base c) f in
  (isValid r = true ->
   ReadChain.prePerform c
   = (Ok tt,
      ReadChain.mk
        (set_query_with
           (fun q => Query.set_options (Query.set_default q (defaultValue r))
                       (defaultOption r))
           (ReadChain.base c)) f)) /\
  (forall es e,
      isValid r = false -> errors r = Some es -> last es = Some e ->
      ReadChain.prePerform c
      = (Throw (EStatus (mkStatusError 403 "Restricted Query"
                  ("The query you provided is not allowed by the system."
                   +:+ " Your query " +:+ err_message e)
                  (Some es))), c')) /\
  (isValid r = false -> errors r = None ->
   ReadChain.prePerform c
   = (Throw (EStatus (mkStatusError 403 "Restricted Query"
               "The query you provided is not allowed by the system." None)),
      c')) /\
  (isValid r = false -> errors r = Some [] ->
   ReadChain.prePerform c = (Throw ETypeError, c')).
Proof.
  intros Hgate q Hs f Hv c'.
  rewrite ReadChain_prePerform_strips by done. fold q. fold f. fold c'.
  unfold ReadChain.validate, bind, this, lift, put, throw. simpl. fold q.
  rewrite Hs.
  destruct (setCurrentUser (ReadChain.base c) (JObj schemas) None true tt)
    as [schema []] eqn:Eu.
  simpl in Hv. rewrite Hv.
  split; [|split; [|split]].
  - by intros ->.
  - intros es e -> Hes Hl. by rewrite Hes, Hl.
  - intros -> Hes. by rewrite Hes.
  - intros -> Hes. by rewrite Hes.
Qed.

(** ** [perform] of the Create chain *)

(** X25.  What [perform] of the Create chain does once [prePerform] has
    passed.  It changes the chain no further.  The document of the
    descriptor is the chain's document merged with the endpoint's body
    default, the identity substituted, merged with the relocated files;
    the filter is the endpoint's query default as declared; the options
    are the caller's.
    - Without declared and without detected uploads the relocator is not
      called: the files are the empty object.
    - With declared uploads and a principal without [_id], filling in the
      directory templates throws a [TypeError].
    - Otherwise the relocator is called once, with the declared uploads
      (their [*current_user*] filled in) followed by the detected ones,
      one per field, and with the substituted document; its error, if
      any, is the error of [perform]. *)
Theorem CreateChain_perform_after_prePerform `{Collaborators}
  (c c' : CreateChain.t) (options : jsval) :
  CreateChain.prePerform c = (Ok tt, c') ->
  let b := endpoint (CreateChain.base c') ≫= body in
  let dflt := default JUndefined (Body.default <$> b) in
  let copied :=
    setCurrentUser (CreateChain.base c')
      (merge (data_of (CreateChain.doc c'))
         (if truthy dflt then dflt else JObj []))
      (Some (CreateChain.uploadFile (CreateChain.base c'))) false [] in
  let declared := default [] (b ≫= Body.uploads) in
  let descriptor files :=
    CreateChain.mkResult (merge (fst copied) files)
      (default JUndefined
         (Query.default <$> (endpoint (CreateChain.base c') ≫= query)))
      options in
  snd (CreateChain.perform options c) = c' /\
  (declared = [] -> snd copied = [] ->
   CreateChain.perform options c = (Ok (descriptor (JObj [])), c')) /\
  (declared <> [] -> _id (user (CreateChain.base c')) = None ->
   CreateChain.perform options c = (Throw ETypeError, c')) /\
  (forall o,
      _id (user (CreateChain.base c')) = Some o ->
      let uploads :=
        uniqByField []
          (map (fun u => mkUploads (field u) (acl u)
                           (replaceAll (directory u) sentinel (hex o)))
             declared ++ snd copied) in
      uploads <> [] ->
      CreateChain.perform options c
      = (match moveFieldsFile uploads (fst copied) with
         | Ok files => Ok (descriptor files)
         | Throw e => Throw e
         end, c')).
Proof.
  intros Hpre b dflt copied declared descriptor.
  assert (E : CreateChain.perform options c
              = (let uploads :=
                   (us <-? CreateChain.resolveUploads (CreateChain.base c')
                             declared;
                    Ok (uniqByField [] (us ++ snd copied)))%res in
                 match uploads with
                 | Ok [] => Ok (descriptor (JObj []))
                 | Ok (u :: us) =>
                     match moveFieldsFile (u :: us) (fst copied) with
                     | Ok files => Ok (descriptor files)
                     | Throw e => Throw e
                     end
                 | Throw e => Throw e
                 end, c')).
  { unfold CreateChain.perform, bind at 1. rewrite Hpre.
    unfold bind, this, lift, ret. fold b. fold dflt. fold copied.
    destruct copied as [d tempUploads] eqn:Ec. fold declared. simpl.
    destruct (CreateChain.resolveUploads (CreateChain.base c') declared)
      as [us|e]; simpl; [|done].
    destruct (uniqByField [] (us ++ tempUploads)) as [|u l]; [done|].
    by destruct (moveFieldsFile (u :: l) d). }
  split; [|split; [|split]].
  - rewrite E. simpl. by repeat case_match.
  - intros Hd Hs. rewrite E, Hd, Hs. done.
  - intros Hd Hid. rewrite E. unfold CreateChain.resolveUploads.
    rewrite Hid. by destruct declared.
  - intros o Hid uploads Hne. rewrite E. unfold CreateChain.resolveUploads.
    rewrite Hid. fold uploads.
    destruct declared as [|u0 us0] eqn:Ed.
    + simpl in *. fold uploads. by destruct uploads.
    + simpl. simpl in uploads. fold uploads. by destruct uploads.
Qed.


(** ** [perform] of the Update chain *)

(** The replacement text of [replaceAll] is a template: [$&] puts the
    matched marker back, [$$] is one dollar sign, [$`] and [$'] are the
    text before and after the match; any other text, and any other [$],
    is put in as it is. *)
Lemma replaceAll_replacement_patterns :
  replaceAll "models/*current_model*/x" "*current_model*" "64b0"
  = "models/64b0/x" /\
  replaceAll "models/*current_model*/x" "*current_model*" "$&"
  = "models/*current_model*/x" /\
  replaceAll "models/*current_model*/x" "*current_model*" "$$"
  = "models/$/x" /\
  replaceAll "models/*current_model*/x" "*current_model*" "$`"
  = "models/models//x" /\
  replaceAll "models/*current_model*/x" "*current_model*" "$'"
  = "models//x/x" /\
  replaceAll "models/*current_model*/x" "*current_model*" "a$1b$"
  = "models/a$1b$/x".
Proof. by vm_compute. Qed.



(** ** [perform] of the Delete chain *)

(** X27.  What [perform] of the Delete chain does once [prePerform] has
    passed: it changes the chain no further and returns the caller's
    options with the filter [makeQuery] makes of the chain's filter and
    the endpoint's query default.  The default is handed over as the
    schema step left it: unlike in the Update chain, the identity is not
    substituted, a sentinel in it stays a sentinel. *)
Theorem DeleteChain_perform_after_prePerform `{Collaborators} `{Utility}
  (c c' : DeleteChain.t) (options : jsval) :
  DeleteChain.prePerform c = (Ok tt, c') ->
  let q := endpoint (DeleteChain.base c') ≫= query in
  DeleteChain.filter c' = DeleteChain.filter c /\
  DeleteChain_perform options c
  = ((f <-? makeQuery (data_of (DeleteChain.filter c'))
              (default JUndefined (Query.default <$> q))
              (q ≫= Query.merge) (q ≫= Query.isPrior);
      Ok (mkDeleteResult f options))%res, c').
Proof.
  intros Hpre q. split.
  - pose proof (DeleteChain_prePerform_unfold c) as E. simpl in E.
    rewrite Hpre in E.
    destruct (_ ;;? _)%res as [[]|e]; [|by injection E as _ ->].
    pose proof (DeleteChain_validate_filter c) as Hv.
    rewrite <- E in Hv. exact Hv.
  - unfold DeleteChain_perform, bind at 1. rewrite Hpre.
    unfold bind, this, lift, ret. fold q.
    by destruct (makeQuery _ _ _ _).
Qed.


(** ** The further properties at the sample requests *)

Lemma X4_witness :
  NodeCache.data
    (snd (checkRateLimit 1000 Sample.chain 10 3 NodeCache.empty))
  !! "/users-198.51.100.1"
  = NodeCache.data NodeCache.empty !! "/users-198.51.100.1".
Proof.
  apply (proj1 (rate_limit_touches_own_keys_only 1000 NodeCache.empty
                  "/users-198.51.100.1")
           Sample.chain Sample.client 10 3);
    [reflexivity|discriminate|discriminate].
Defined.

Lemma X5_witness :
  fst (checkRateLimit 1000 Sample.chain 10 3 NodeCache.empty)
  = Ok Sample.chain.
Proof.
  destruct (rate_limit_refuses_iff_exhausted 1000 10 3 Sample.chain
              Sample.client SharedCache NodeCache.empty)
    as (_ & H & _); [reflexivity|reflexivity| |].
  - split; intros d Hd; vm_compute in Hd; discriminate Hd.
  - apply H. intros (e & Hl & _). vm_compute in Hl. discriminate Hl.
Defined.

Lemma X6_witness :
  map fst (requests Sample.chain 10 3 [1000; 1400; 1800; 2200; 2600]
             NodeCache.empty)
  = [Ok Sample.chain; Ok Sample.chain; Ok Sample.chain;
     Throw TooManyRequest; Throw TooManyRequest].
Proof.
  apply (rate_limit_budget Sample.chain Sample.client SharedCache 10 3 1000
           [1400; 1800] [2200; 2600] NodeCache.empty);
    [reflexivity|reflexivity|lia|lia|exact I|reflexivity|].
  repeat constructor; lia.
Defined.

Lemma X7_witness :
  Forall (fun res => fst res = Ok Sample.chain)
    (requests Sample.chain 10 0 [1000; 1001; 1002; 1003] NodeCache.empty).
Proof.
  apply (nonpositive_max_never_refuses Sample.chain Sample.client SharedCache
           10 0 [1000; 1001; 1002; 1003] NodeCache.empty);
    [reflexivity|reflexivity|lia|].
  intros d Hd. vm_compute in Hd. discriminate Hd.
Defined.

Lemma X8_witness :
  exists s',
    checkRateLimit 2000 Sample.chain 10 3 MoreSamples.exhausted
    = (Throw TooManyRequest, s') /\
    penaltyOf (rateKey Sample.chain Sample.client) s'
    = Some (NodeCache.Wrap (NodeCache.VRetry (NodeCache.mkRetry 5 1)) 12000).
Proof.
  destruct (refusal_bookkeeping 2000 10 3 Sample.chain Sample.client
              SharedCache MoreSamples.exhausted 11000)
    as (_ & H & _); [reflexivity|reflexivity|lia|reflexivity|lia|].
  destruct H as (s' & E & _ & P); [exact I|].
  exists s'. split; [exact E|exact P].
Defined.

Lemma X9_witness :
  type Sample.alice <> Some Visitor /\
  "Create:User" ∈ default [] (level Sample.alice ≫= lv_actions).
Proof.
  destruct (constructor_returns_only_authorized 1000 "User" Sample.alice
              "/users" (Some "Create") (Some "User") (Some SharedCache)
              (Some Sample.client) NodeCache.empty Sample.chain)
    as (_ & H & _); [vm_compute; reflexivity|].
  split; [discriminate|].
  destruct (H eq_refl) as (b & Hb & Hin). injection Hb as <-. exact Hin.
Defined.

Lemma X10_witness :
  BaseChain_new 1000 "User" Sample.visitor "/users" (Some "Read")
    (Some "User") None None NodeCache.empty
  = (Throw Unauthorized, NodeCache.empty).
Proof.
  apply (proj1 (proj2 (proj2 (constructor_check_order 1000 "User"
                                Sample.visitor "/users" (Some "Read")
                                (Some "User") NodeCache.empty))));
    [by left|reflexivity|reflexivity].
Defined.

Lemma X12_witness :
  let E := Sample.collaborators in
  _checkIfKeysExist Sample.chain (Some Sample.adminDoc)
    (Some ["role"; "role"; "owner"]) None true
  = _checkIfKeysExist Sample.chain (Some Sample.adminDoc)
      (Some ["owner"; "role"]) None true.
Proof.
  intros E.
  apply (proj2 (proj2 (deletion_mode_is_a_filter Sample.chain Sample.adminDoc
                         None))).
  intros k. rewrite !elem_of_cons, !elem_of_nil. tauto.
Defined.

Lemma X13_witness :
  let E := Sample.collaborators in
  let c' := snd (UpdateChain.prePerform (Sample.update [] Sample.adminDoc)) in
  UpdateChain.prePerform c' = (Ok tt, c').
Proof.
  intros E c'.
  apply (proj1 (@prePerform_twice E) (Sample.update [] Sample.adminDoc) c'
           (Ok tt)).
  vm_compute. reflexivity.
Defined.


Lemma X15_witness :
  let U := SampleUtility.utility in
  let E := Sample.collaborators in
  let c :=
    DeleteChain.mk (Sample.chainOf "Delete" None None)
      (Some Sample.adminDoc) in
  exists e,
    DeleteChain.prePerform c = (Throw e, c) /\ status_of e = Some 403.
Proof.
  intros U E c.
  eexists. split.
  - apply (proj1 (@DeleteChain_checks_but_never_rewrites E U c JUndefined)).
    vm_compute. reflexivity.
  - reflexivity.
Defined.

Lemma X16_witness :
  let E := Sample.collaborators in
  validateDataSchema
    (JObj [("name", JStr "Bob"); ("sort", JStr "-name")])
    (JObj Sample.nameSchema) JUndefined JUndefined
  = validateDataSchema (JObj [("name", JStr "Bob")])
      (JObj Sample.nameSchema) JUndefined JUndefined.
Proof.
  intros E.
  apply (proj2 (proj2 (@validators_never_see_sort_and_locale E
                         (JObj Sample.nameSchema) JUndefined JUndefined
                         [("name", JStr "Bob"); ("sort", JStr "-name")]))).
  vm_compute. reflexivity.
Defined.

Lemma X17_witness :
  let E := Sample.collaborators in
  exists r,
    validateDataSchema (JObj [("name", JStr "Bob")])
      (JObj [("anyOf", JArr [Sample.titleSchema; Sample.anySchema])])
      JUndefined JUndefined = Ok r /\
    isValid r = true /\
    errors r = Some [mkErrorObject "must have required property"].
Proof.
  intros E.
  apply (@valid_result_may_carry_errors E (JObj [("name", JStr "Bob")])
           (JObj [("name", JStr "Bob")])
           [("anyOf", JArr [Sample.titleSchema; Sample.anySchema])]
           [Sample.titleSchema]
           [[mkErrorObject "must have required property"]]
           Sample.anySchema [] JUndefined JUndefined JUndefined JUndefined);
    try reflexivity.
  repeat constructor.
Defined.

Lemma X18_witness :
  let E := Sample.collaborators in
  validateDataSchema JUndefined (JObj Sample.nameSchema) JUndefined JUndefined
  = Throw ETypeError.
Proof.
  intros E.
  apply (@missing_data_is_a_TypeError E JUndefined Sample.nameSchema
           JUndefined JUndefined); [by left|by left].
Defined.

Lemma X19_witness :
  let E := Sample.collaborators in
  UpdateChain.prePerform (Sample.update [] [("role", JStr "admin")])
  = (Ok tt, Sample.update [] []).
Proof.
  intros E.
  apply (proj1 (@UpdateChain_schema_step E
                  (Sample.update [] [("role", JStr "admin")]) eq_refl));
    reflexivity.
Defined.

Lemma X20_witness :
  let E := Sample.collaborators in
  exists es,
    CreateChain.prePerform MoreSamples.strayCreate
    = (Throw (RestrictedData (Some es)), MoreSamples.strayCreate).
Proof.
  intros E. eexists.
  rewrite (proj2 (@CreateChain_default_schema E MoreSamples.strayCreate
                    eq_refl eq_refl) eq_refl).
  vm_compute. reflexivity.
Defined.

Lemma X22_witness :
  let E := MoreSamples.echo in
  let c :=
    CreateChain.mk (MoreSamples.filesChain "Create" [MoreSamples.avatar])
      (Some MoreSamples.profile) in
  CreateChain.perform JUndefined c
  = (Ok (CreateChain.mkResult
           (JObj [("name", JStr "Bob");
                  ("avatar_file_url", JStr "avatars/64b0c0ffee");
                  ("cv_file_url", JStr "users/64b0c0ffee/User")])
           JUndefined JUndefined), c).
Proof.
  intros E c.
  destruct (@declared_uploads_take_precedence E c c JUndefined
              (mkObjectId "64b0c0ffee") eq_refl eq_refl)
    as (rest & Eq & Hsub & _ & Hrest & Hall).
  - discriminate.
  - apply NoDup_singleton.
  - assert (Er : rest = [mkUploads "cv_file_url" "authenticated-read"
                           "users/64b0c0ffee/User"]).
    { apply sublist_cons_r in Hsub as [Hsub|(l & -> & Hsub)].
      - apply sublist_cons_r in Hsub as [Hsub|(l & -> & Hsub)].
        + apply sublist_nil_r in Hsub as ->. exfalso.
          specialize (Hall (mkUploads "cv_file_url" "authenticated-read"
                              "users/64b0c0ffee/User")).
          pose proof (Hall ltac:(apply elem_of_cons; right;
                                 apply elem_of_cons; by left)) as Hin.
          apply elem_of_cons in Hin as [Hin|Hin]; [discriminate Hin|].
          by apply elem_of_nil in Hin.
        + by apply sublist_nil_r in Hsub as ->.
      - exfalso. apply (Hrest _ ltac:(apply elem_of_cons; by left)).
        apply elem_of_cons. by left. }
    rewrite Eq, Er. vm_compute. reflexivity.
Defined.

Lemma X24_witness :
  let E := Sample.collaborators in
  ReadChain.prePerform (MoreSamples.search [("name", JNum 7)])
  = (Throw (EStatus (mkStatusError 403 "Restricted Query"
              ("The query you provided is not allowed by the system."
               +:+ " Your query " +:+ "must match the type of name")
              (Some [mkErrorObject "must match the type of name"]))),
     MoreSamples.search [("name", JNum 7)]).
Proof.
  intros E.
  apply (proj1 (proj2 (@ReadChain_schema_step E
                         (MoreSamples.search [("name", JNum 7)])
                         Sample.nameSchema
                         (mkValidation
                            (Some [mkErrorObject "must match the type of name"])
                            JUndefined JUndefined false)
                         eq_refl eq_refl eq_refl))
           [mkErrorObject "must match the type of name"]
           (mkErrorObject "must match the type of name"));
    reflexivity.
Defined.

Lemma X25_witness :
  let E := Sample.collaborators in
  exists c',
    CreateChain.perform JUndefined (Sample.create Sample.adminDoc)
    = (Ok (CreateChain.mkResult (JObj [("name", JStr "Bob")]) JUndefined
             JUndefined), c').
Proof.
  intros E. eexists.
  rewrite (proj1 (proj2 (@CreateChain_perform_after_prePerform E
                           (Sample.create Sample.adminDoc) _ JUndefined
                           eq_refl)) eq_refl eq_refl).
  vm_compute. reflexivity.
Defined.


Lemma X27_witness :
  let E := Sample.collaborators in
  let U := SampleUtility.utility in
  let c :=
    DeleteChain.mk (Sample.chainOf "Delete" None None)
      (Some [("name", JStr "Bob")]) in
  DeleteChain_perform JNull c
  = (Ok (mkDeleteResult (JObj [("name", JStr "Bob")]) JNull), c).
Proof.
  intros E U c.
  rewrite (proj2 (@DeleteChain_perform_after_prePerform E U c c JNull
                    eq_refl)).
  vm_compute. reflexivity.
Defined.
